(** * fairscale: [examples/mnist_test_oss.py]

    A shallow embedding of the MNIST example that trains a small
    convolutional network with the sharded optimizer [OSS] and
    [ShardedDataParallel].

    The script is orchestration over an external framework, so the
    embedding keeps the script's own code (the argument declarations of
    [main], the layers and the [forward] of [Net], the body of [train])
    and represents every call into the framework as an event of an
    interaction tree.  An event is answered by an arbitrary handler over
    an arbitrary world; exceptions are replies, and the script's own
    monad propagates them the way Python does for code without
    [try]/[except]. *)

From Stdlib Require Import ZArith QArith List String Ascii Bool Lia Sorted
  Permutation.
From ITree Require Import ITree Eq.Shallow.
Import ListNotations.

Local Open Scope Z_scope.
Local Open Scope string_scope.
Local Open Scope list_scope.

(** ** Python values that cross the boundary to the framework *)

(** Framework objects are opaque to the script; they are identified by
    the handle the framework returned when it created them. *)
Definition Handle := nat.
Definition Dataset := Handle.
Definition Sampler := Handle.
Definition Loader := Handle.
Definition Module := Handle.
Definition LossFn := Handle.
Definition Params := Handle.
Definition Optimizer := Handle.
Definition Iterator := Handle.
Definition Tensor := Handle.

Inductive PyVal : Type :=
| VNone
| VInt (z : Z)
| VFloat (q : Q)
| VBool (b : bool)
| VStr (s : string)
| VObj (h : Handle)
| VList (items : list PyVal).

(** Python truthiness of the values above (objects are truthy). *)
Definition truthy (v : PyVal) : bool :=
  match v with
  | VNone => false
  | VInt z => negb (z =? 0)%Z
  | VFloat q => negb (Qeq_bool q 0)
  | VBool b => b
  | VStr s => negb (String.eqb s "")
  | VObj _ => true
  | VList items => match items with [] => false | _ :: _ => true end
  end.

(** A [dict] with string keys, in insertion order. *)
Definition Dict := list (string * PyVal).

Fixpoint dict_get (k : string) (d : Dict) : option PyVal :=
  match d with
  | [] => None
  | (k', v) :: d' => if String.eqb k k' then Some v else dict_get k d'
  end.

Fixpoint dict_set (k : string) (v : PyVal) (d : Dict) : Dict :=
  match d with
  | [] => [(k, v)]
  | (k', v') :: d' =>
      if String.eqb k k' then (k, v) :: d' else (k', v') :: dict_set k v d'
  end.

(** [d.update(other)] *)
Definition dict_update (d other : Dict) : Dict :=
  fold_left (fun acc kv => dict_set (fst kv) (snd kv) acc) other d.

(** A raised exception: its class and its message. *)
Record Exception : Type := mkException { exc_class : string; exc_msg : string }.

(** What a call into the framework comes back with. *)
Variant Reply (X : Type) : Type :=
| Ok (x : X)
| Raise (e : Exception).
Arguments Ok {X} x.
Arguments Raise {X} e.

Definition is_ok {X} (r : Reply X) : bool :=
  match r with Ok _ => true | Raise _ => false end.

(** ** Module-level constants *)

Variant Backend : Type := NCCL | GLOO.

(** [dist.Backend] members are strings. *)
Definition Backend_str (b : Backend) : string :=
  match b with NCCL => "nccl" | GLOO => "gloo" end.

Variant Optim : Type := RMSprop | Adadelta.

Definition WORLD_SIZE : Z := 2.
Definition OPTIM : Optim := RMSprop.

(** [BACKEND = dist.Backend.NCCL if torch.cuda.is_available() else
    dist.Backend.GLOO]; the answer of [torch.cuda.is_available()] at
    import time is a parameter. *)
Definition BACKEND (cuda_is_available : bool) : Backend :=
  if cuda_is_available then NCCL else GLOO.

(** [torch.device(rank)] and [torch.device("cpu")] *)
Variant Device : Type :=
| device_index (i : Z)
| device_str (s : string).

(** [torchvision.transforms] *)
Inductive Transform : Type :=
| ToTensor
| Normalize (mean std : list Q)
| Compose (ts : list Transform).

(** ** The model: [class Net(nn.Module)] *)

Record Conv2d : Type := nn_Conv2d
  { in_channels : Z; out_channels : Z; kernel_size : Z; stride : Z }.
Record Dropout2d : Type := nn_Dropout2d { drop_p : Q }.
Record Linear : Type := nn_Linear { in_features : Z; out_features : Z }.

Record Net : Type := mkNet
  { conv1 : Conv2d; conv2 : Conv2d;
    dropout1 : Dropout2d; dropout2 : Dropout2d;
    fc1 : Linear; fc2 : Linear }.

(** [Net.__init__] *)
Definition Net__init__ : Net :=
  {| conv1 := nn_Conv2d 1 32 3 1;
     conv2 := nn_Conv2d 32 64 3 1;
     dropout1 := nn_Dropout2d (25 # 100);
     dropout2 := nn_Dropout2d (5 # 10);
     fc1 := nn_Linear 9216 128;
     fc2 := nn_Linear 128 10 |}.

(** The tensor operations [forward] uses, as an interface; each may
    raise. *)
Class TensorOps (T : Type) : Type :=
  { conv2d : Conv2d -> T -> Reply T;
    relu : T -> Reply T;
    max_pool2d : T -> Z -> Reply T;
    dropout2d : Dropout2d -> T -> Reply T;
    flatten : T -> Z -> Reply T;
    linear : Linear -> T -> Reply T;
    log_softmax : T -> Z -> Reply T }.

Definition and_then {X Y} (r : Reply X) (k : X -> Reply Y) : Reply Y :=
  match r with Ok x => k x | Raise e => Raise e end.

Declare Scope reply_scope.
Delimit Scope reply_scope with reply.
Notation "x <- r ;; k" := (and_then r (fun x => k))
  (at level 61, r at next level, right associativity) : reply_scope.

(** [Net.forward] *)
Definition forward {T} `{TensorOps T} (self : Net) (x : T) : Reply T :=
  (x <- conv2d self.(conv1) x ;;
   x <- relu x ;;
   x <- conv2d self.(conv2) x ;;
   x <- relu x ;;
   x <- max_pool2d x 2 ;;
   x <- dropout2d self.(dropout1) x ;;
   x <- flatten x 1 ;;
   x <- linear self.(fc1) x ;;
   x <- relu x ;;
   x <- dropout2d self.(dropout2) x ;;
   x <- linear self.(fc2) x ;;
   output <- log_softmax x 1 ;;
   Ok output)%reply.

(** *** Shapes

    The framework's shape rules for the seven operations: padding 0,
    dilation 1, floor mode, the pooling stride equal to its window.
    A dimension is a positive number. *)
Definition Shape := list Z.

Definition shape_error (msg : string) : Reply Shape :=
  Raise (mkException "RuntimeError" msg).

Definition window_out (size k s : Z) : Z := (size - k) / s + 1.

(** The image planes of a tensor: [(N, C, H, W)] is a batch, and
    [(C, H, W)] is one unbatched image, which the two-dimensional
    operations take as well. *)
Definition conv2d_planes (c : Conv2d) (batch : list Z) (ch h w : Z) : Reply Shape :=
  if negb (ch =? c.(in_channels))%Z then shape_error "channels"
  else if ((h <? c.(kernel_size)) || (w <? c.(kernel_size)))%Z
  then shape_error "kernel size can't be greater than actual input size"
  else Ok (batch ++ [c.(out_channels);
                     window_out h c.(kernel_size) c.(stride);
                     window_out w c.(kernel_size) c.(stride)]).

Definition shape_conv2d (c : Conv2d) (x : Shape) : Reply Shape :=
  match x with
  | [n; ch; h; w] => conv2d_planes c [n] ch h w
  | [ch; h; w] => conv2d_planes c [] ch h w
  | _ => shape_error "expected 3D (unbatched) or 4D (batched) input"
  end.

Definition max_pool2d_planes (k : Z) (batch : list Z) (ch h w : Z) : Reply Shape :=
  if ((h <? k) || (w <? k))%Z then shape_error "output size is too small"
  else Ok (batch ++ [ch; window_out h k k; window_out w k k]).

Definition shape_max_pool2d (x : Shape) (k : Z) : Reply Shape :=
  match x with
  | [n; ch; h; w] => max_pool2d_planes k [n] ch h w
  | [ch; h; w] => max_pool2d_planes k [] ch h w
  | _ => shape_error "expected 3D or 4D input"
  end.

(** A dimension argument may count from the end. *)
Definition norm_dim (dim : Z) (rank : nat) : option nat :=
  let d := (if dim <? 0 then dim + Z.of_nat rank else dim)%Z in
  if ((0 <=? d) && (d <? Z.of_nat rank))%Z then Some (Z.to_nat d) else None.

Definition index_error : Reply Shape :=
  Raise (mkException "IndexError" "Dimension out of range").

Definition shape_flatten (x : Shape) (start_dim : Z) : Reply Shape :=
  match norm_dim start_dim (List.length x) with
  | Some d => Ok (firstn d x ++ [fold_right Z.mul 1%Z (skipn d x)])
  | None => index_error
  end.

Fixpoint shape_linear_last (l : Linear) (x : Shape) : Reply Shape :=
  match x with
  | [] => shape_error "linear on a scalar"
  | [d] =>
      if (d =? l.(in_features))%Z then Ok [l.(out_features)]
      else shape_error "mat1 and mat2 shapes cannot be multiplied"
  | d :: x' => (r <- shape_linear_last l x' ;; Ok (d :: r))%reply
  end.

Definition shape_log_softmax (x : Shape) (dim : Z) : Reply Shape :=
  match norm_dim dim (List.length x) with
  | Some _ => Ok x
  | None => index_error
  end.

#[export] Instance shape_ops : TensorOps Shape :=
  {| conv2d := shape_conv2d;
     relu := fun x => Ok x;
     max_pool2d := shape_max_pool2d;
     dropout2d := fun _ x => Ok x;
     flatten := shape_flatten;
     linear := shape_linear_last;
     log_softmax := shape_log_softmax |}.

(** ** Calls into the framework

    A call is an event; its reply is a value or a raised exception.
    The script's monad [M] propagates a raised exception past every
    later statement, which is what Python does where no [try] encloses
    the call. *)

Variant callE (E : Type -> Type) : Type -> Type :=
| Call : forall X, E X -> callE E (Reply X).
Arguments Call {E X} e.

Definition M (E : Type -> Type) (R : Type) : Type := itree (callE E) (Reply R).

Section ScriptMonad.
Context {E : Type -> Type}.

Definition ret {R} (r : R) : M E R := Ret (Ok r).

Definition bind {R S} (m : M E R) (k : R -> M E S) : M E S :=
  ITree.bind m (fun r => match r with
                         | Ok x => k x
                         | Raise e => Ret (Raise e)
                         end).

Definition call {X} (e : E X) : M E X := ITree.trigger (Call e).

(** [if b: body] *)
Definition when (b : bool) (body : M E unit) : M E unit :=
  if b then body else ret tt.

(** [for x in l: body] over a Python list or range, whose iteration
    itself cannot raise. *)
Fixpoint for_in {A} (l : list A) (body : A -> M E unit) : M E unit :=
  match l with
  | [] => ret tt
  | x :: l' => bind (body x) (fun _ => for_in l' body)
  end.

(** [for i, x in enumerate(it): body], where [next_] asks the
    underlying iterator for its next item and [None] stands for
    [StopIteration].  The counter is [enumerate]'s own. *)
Definition enumerate_step {B} (next_ : M E (option B))
    (body : Z -> B -> M E unit) (i : Z) : itree (callE E) (Z + Reply unit) :=
  ITree.bind next_ (fun r =>
    match r with
    | Raise e => Ret (inr (Raise e))
    | Ok None => Ret (inr (Ok tt))
    | Ok (Some x) =>
        ITree.bind (body i x) (fun r' =>
          match r' with
          | Raise e => Ret (inr (Raise e))
          | Ok _ => Ret (inl (i + 1))
          end)
    end).

Definition enumerate_from {B} (next_ : M E (option B))
    (body : Z -> B -> M E unit) (start : Z) : M E unit :=
  ITree.iter (enumerate_step next_ body) start.

Definition for_enumerate {B} (next_ : M E (option B))
    (body : Z -> B -> M E unit) : M E unit :=
  enumerate_from next_ body 0.
End ScriptMonad.

Declare Scope py_scope.
Delimit Scope py_scope with py.
Notation "x <- m ;; k" := (bind m (fun x => k))
  (at level 61, m at next level, right associativity) : py_scope.
Notation "m ;; k" := (bind m (fun _ => k))
  (at level 61, right associativity) : py_scope.

(** [range(n)] *)
Definition range (n : Z) : list Z := map Z.of_nat (seq 0 (Z.to_nat n)).

(** What the closure handed to [optimizer.step] calls. *)
Variant closureE : Type -> Type :=
| Module_zero_grad (model : Module) : closureE unit
| Module_call (model : Module) (x : Tensor) : closureE Tensor
| Loss_call (loss_fn : LossFn) (outputs target : Tensor) : closureE Tensor
| Tensor_backward (loss : Tensor) : closureE unit.

(** What [dist_init] and [train] call. *)
Variant trainE : Type -> Type :=
| print (objects : list PyVal) : trainE unit
| init_process_group (backend : Backend) (init_method : string)
    (rank world_size : Z) : trainE unit
| cuda_set_device (device : Z) : trainE unit
| datasets_MNIST (root : string) (train download : bool)
    (transform : Transform) : trainE Dataset
| DistributedSampler (dataset : Dataset) (num_replicas rank : Z) : trainE Sampler
| DataLoader (dataset : Dataset) (kwargs : Dict) : trainE Loader
| Module_new (net : Net) : trainE Module
| Module_to (model : Module) (device : Device) : trainE Module
| CrossEntropyLoss : trainE LossFn
| Module_parameters (model : Module) : trainE Params
| OSS (params : Params) (optim : Optim) (lr : Q) : trainE Optimizer
| ShardedDataParallel (model : Module) (optimizer : Optimizer) : trainE Module
| cuda_reset_peak_memory_stats (device : Z) : trainE unit
| cuda_synchronize (device : Z) : trainE unit
| time_monotonic : trainE Q
| Module_train (model : Module) : trainE unit
| Sampler_set_epoch (sampler : Sampler) (epoch : Z) : trainE unit
| Loader_iter (loader : Loader) : trainE Iterator
| Iterator_next (it : Iterator) : trainE (option (Tensor * Tensor))
| Tensor_to (t : Tensor) (device : Device) : trainE Tensor
| Optimizer_step (optimizer : Optimizer) (closure : M closureE Tensor)
    : trainE (option Tensor).

(** The namespace [parser.parse_args()] returns. *)
Record Args : Type := mkArgs
  { batch_size : Z;
    test_batch_size : Z;
    epochs : Z;
    lr : Q;
    gamma : Q;
    no_cuda : bool;
    dry_run : bool;
    seed : Z;
    log_interval : Z;
    save_model : bool }.

Local Open Scope py_scope.

Definition dist_init (rank world_size : Z) (backend : Backend) : M trainE unit :=
  call (print [VStr ("Using backend: " ++ Backend_str backend)]) ;;
  call (init_process_group backend "tcp://localhost:29501" rank world_size).

(** The [closure] of the batch loop; [model], [loss_fn], [data] and
    [target] are the variables of [train] it captures. *)
Definition closure (model : Module) (loss_fn : LossFn) (data target : Tensor)
  : M closureE Tensor :=
  call (Module_zero_grad model) ;;
  outputs <- call (Module_call model data) ;;
  loss <- call (Loss_call loss_fn outputs target) ;;
  call (Tensor_backward loss) ;;
  ret loss.

(** The body of the batch loop of [train] (one turn of
    [for batch_idx, (data, target) in enumerate(train_loader)]); the
    arguments are the variables of [train] it reads. *)
Definition train_batch (device : Device) (optimizer : Optimizer)
    (model : Module) (loss_fn : LossFn)
    (batch_idx : Z) (batch : Tensor * Tensor) : M trainE unit :=
  let (data, target) := batch in
  data <- call (Tensor_to data device) ;;
  target <- call (Tensor_to target device) ;;
  call (Optimizer_step optimizer (closure model loss_fn data target)) ;;
  ret tt.

(** The body of the epoch loop of [train] (one turn of
    [for epoch in range(args.epochs)]). *)
Definition train_epoch (sampler : Sampler) (train_loader : Loader)
    (device : Device) (optimizer : Optimizer) (model : Module) (loss_fn : LossFn)
    (epoch : Z) : M trainE unit :=
  call (Sampler_set_epoch sampler epoch) ;;
  epoch_start <- call time_monotonic ;;
  it <- call (Loader_iter train_loader) ;;
  for_enumerate (call (Iterator_next it))
    (train_batch device optimizer model loss_fn) ;;
  epoch_end <- call time_monotonic ;;
  ret tt.

(** [train]; the first argument is what [torch.cuda.is_available()]
    answered when the module was imported, which fixes [BACKEND].  The
    list [measurements] and the readings [epoch_start] and [epoch_end]
    are never read. *)
Definition train (cuda_is_available : bool)
    (rank : Z) (args : Args) (use_cuda : bool) : M trainE unit :=
  dist_init rank WORLD_SIZE (BACKEND cuda_is_available) ;;
  when use_cuda (call (cuda_set_device rank)) ;;
  let device := if use_cuda then device_index rank else device_str "cpu" in
  let transform :=
    Compose [ToTensor; Normalize [1307 # 10000] [3081 # 10000]] in
  dataset <- call (datasets_MNIST "../data" true true transform) ;;
  sampler <- call (DistributedSampler dataset WORLD_SIZE rank) ;;
  let kwargs :=
    [("batch_size", VInt args.(batch_size)); ("sampler", VObj sampler)] in
  let kwargs :=
    if use_cuda
    then dict_update kwargs [("num_workers", VInt 1);
                             ("pin_memory", VBool true);
                             ("shuffle", VBool true)]
    else kwargs in
  train_loader <- call (DataLoader dataset kwargs) ;;
  model <- call (Module_new Net__init__) ;;
  model <- call (Module_to model device) ;;
  loss_fn <- call CrossEntropyLoss ;;
  params <- call (Module_parameters model) ;;
  optimizer <- call (OSS params Adadelta (1 # 10000)) ;;
  model <- call (ShardedDataParallel model optimizer) ;;
  when use_cuda (call (cuda_reset_peak_memory_stats rank) ;;
                 call (cuda_synchronize rank)) ;;
  training_start <- call time_monotonic ;;
  call (Module_train model) ;;
  for_in (range args.(epochs))
    (train_epoch sampler train_loader device optimizer model loss_fn) ;;
  when use_cuda (call (cuda_synchronize rank)) ;;
  training_stop <- call time_monotonic ;;
  call (print [VStr "Total Time:"; VFloat (training_stop - training_start)]).

Local Close Scope py_scope.

(** ** Running a script against a framework

    A framework is a handler: it answers every call from a world and
    leaves a new world.  [run] plays a script against it and keeps the
    log of calls and replies.  Fuel bounds the number of calls and loop
    turns, since an iterator of the framework need not stop. *)

Variant Logged (E : Type -> Type) : Type :=
| Log : forall X, E X -> Reply X -> Logged E.
Arguments Log {E X} e r.

Record Run (E : Type -> Type) (World R : Type) : Type := mkRun
  { outcome : option R;          (* [None]: out of fuel *)
    trace : list (Logged E);
    final : World;
    fuel_left : nat }.
Arguments mkRun {E World R} outcome trace final fuel_left.
Arguments outcome {E World R} r.
Arguments trace {E World R} r.
Arguments final {E World R} r.
Arguments fuel_left {E World R} r.

Section Run.
Context {E : Type -> Type} {World : Type}.
Variable handle : forall X, E X -> World -> Reply X * World.

Definition answer {R Y} (e : callE E Y)
  : World -> (Y -> World -> Run E World R) -> Run E World R :=
  match e in callE _ Y return World -> (Y -> World -> Run E World R) -> _ with
  | Call e' => fun w k =>
      let (rep, w') := handle _ e' w in
      let r := k rep w' in
      mkRun (outcome r) (Log e' rep :: trace r) (final r) (fuel_left r)
  end.

Definition out_of_fuel {R} (w : World) : Run E World R := mkRun None [] w 0.

Fixpoint run {R} (fuel : nat) (t : itree (callE E) R) (w : World)
  {struct fuel} : Run E World R :=
  match observe t with
  | RetF r => mkRun (Some r) [] w fuel
  | TauF t' =>
      match fuel with
      | O => out_of_fuel w
      | S n => run n t' w
      end
  | VisF e k =>
      match fuel with
      | O => out_of_fuel w
      | S n => answer e w (fun y w' => run n (k y) w')
      end
  end.

(** [run (x <- t ;; k x)] is [run t] followed by [run (k x)] on what
    is left. *)
Definition then_run {R S} (r1 : Run E World R)
    (k : R -> nat -> World -> Run E World S) : Run E World S :=
  match outcome r1 with
  | Some x =>
      let r2 := k x (fuel_left r1) (final r1) in
      mkRun (outcome r2) (trace r1 ++ trace r2) (final r2) (fuel_left r2)
  | None => mkRun None (trace r1) (final r1) 0
  end.
End Run.

(** ** Properties of every run

    [post handle t Q]: whatever the fuel and the world, the outcome and
    the log of running [t] satisfy [Q].  A [contract] says what replies
    the framework may give to a call. *)
Definition Post (E : Type -> Type) (R : Type) : Type :=
  option (Reply R) -> list (Logged E) -> Prop.

Definition post {E World R} (handle : forall X, E X -> World -> Reply X * World)
    (t : M E R) (Q : Post E R) : Prop :=
  forall fuel w,
    Q (outcome (run handle fuel t w)) (trace (run handle fuel t w)).

Definition Contract (E : Type -> Type) : Type := forall X, E X -> Reply X -> Prop.

Definition honours {E World} (handle : forall X, E X -> World -> Reply X * World)
    (contract : Contract E) : Prop :=
  forall X (e : E X) w, contract X e (fst (handle X e w)).

Definition no_contract {E} : Contract E := fun _ _ _ => True.

(** ** Reading a log *)

Definition is_prefix {A} (l1 l2 : list A) : Prop := exists l, l2 = l1 ++ l.

(** The marks [f] leaves on a log, in order. *)
Definition marks {E A} (f : Logged E -> option A) (tr : list (Logged E)) : list A :=
  flat_map (fun ev => match f ev with Some a => [a] | None => [] end) tr.

Fixpoint first_mark {E A} (f : Logged E -> option A) (tr : list (Logged E))
  : option A :=
  match tr with
  | [] => None
  | ev :: tr' =>
      match f ev with
      | Some a => Some a
      | None => first_mark f tr'
      end
  end.

Definition reply_value {X} (r : Reply X) : option X :=
  match r with Ok x => Some x | Raise _ => None end.

(** The objects the framework handed out. *)
Definition new_sampler (ev : Logged trainE) : option Sampler :=
  match ev with
  | Log e r =>
      match e in trainE X return Reply X -> option Sampler with
      | DistributedSampler _ _ _ => reply_value
      | _ => fun _ => None
      end r
  end.

Definition new_loader (ev : Logged trainE) : option Loader :=
  match ev with
  | Log e r =>
      match e in trainE X return Reply X -> option Loader with
      | DataLoader _ _ => reply_value
      | _ => fun _ => None
      end r
  end.

(** The two calls that open an epoch. *)
Variant LoopMark : Type :=
| SetEpoch (sampler : Sampler) (epoch : Z)
| IterLoader (loader : Loader).

Definition loop_mark (ev : Logged trainE) : option LoopMark :=
  match ev with
  | Log e _ =>
      match e with
      | Sampler_set_epoch s epoch => Some (SetEpoch s epoch)
      | Loader_iter l => Some (IterLoader l)
      | _ => None
      end
  end.

Definition epoch_marks (s : Sampler) (l : Loader) (es : list Z) : list LoopMark :=
  flat_map (fun e => [SetEpoch s e; IterLoader l]) es.

(** A run over the epochs [es] opens them one after the other, and
    all of them if it returns. *)
Definition opens_epochs (s : Sampler) (l : Loader) (es : list Z)
  : Post trainE unit :=
  fun o tr =>
    is_prefix (marks loop_mark tr) (epoch_marks s l es) /\
    (o = Some (Ok tt) -> marks loop_mark tr = epoch_marks s l es).

Definition set_epoch_once_per_epoch (args : Args) : Post trainE unit :=
  fun o tr =>
    match first_mark new_sampler tr, first_mark new_loader tr with
    | Some s, Some l => opens_epochs s l (range args.(epochs)) o tr
    | _, _ => marks loop_mark tr = [] /\ o <> Some (Ok tt)
    end.

(** Every logged call satisfies [P]. *)
Definition every {E R} (P : Logged E -> Prop) : Post E R :=
  fun _ tr => Forall P tr.

(** *** The batch loop *)

Definition new_loss (ev : Logged trainE) : option LossFn :=
  match ev with
  | Log e r =>
      match e in trainE X return Reply X -> option LossFn with
      | CrossEntropyLoss => reply_value
      | _ => fun _ => None
      end r
  end.

Definition new_optimizer (ev : Logged trainE) : option Optimizer :=
  match ev with
  | Log e r =>
      match e in trainE X return Reply X -> option Optimizer with
      | OSS _ _ _ => reply_value
      | _ => fun _ => None
      end r
  end.

Definition new_wrapper (ev : Logged trainE) : option Module :=
  match ev with
  | Log e r =>
      match e in trainE X return Reply X -> option Module with
      | ShardedDataParallel _ _ => reply_value
      | _ => fun _ => None
      end r
  end.

(** What happens to a batch: the iterator yields it, its two tensors
    are moved to the device, the optimizer steps. *)
Variant BatchMark : Type :=
| GotBatch (data target : Tensor)
| Moved (src : Tensor) (device : Device) (dst : Tensor)
| Stepped (optimizer : Optimizer) (closure : M closureE Tensor).

Definition batch_mark (ev : Logged trainE) : option BatchMark :=
  match ev with
  | Log e r =>
      match e in trainE X return Reply X -> option BatchMark with
      | Iterator_next _ => fun r =>
          match r with
          | Ok (Some (data, target)) => Some (GotBatch data target)
          | _ => None
          end
      | Tensor_to t device => fun r =>
          match r with
          | Ok t' => Some (Moved t device t')
          | Raise _ => None
          end
      | Optimizer_step optimizer c => fun _ => Some (Stepped optimizer c)
      | _ => fun _ => None
      end r
  end.

(** A batch as yielded, and as moved to the device. *)
Definition Batch : Type := (Tensor * Tensor) * (Tensor * Tensor).

Definition batch_block (device : Device) (optimizer : Optimizer)
    (model : Module) (loss_fn : LossFn) (b : Batch) : list BatchMark :=
  let '((data, target), (data', target')) := b in
  [GotBatch data target;
   Moved data device data';
   Moved target device target';
   Stepped optimizer (closure model loss_fn data' target')].

(** The batch marks of a log are whole blocks, one per batch, followed
    by the beginning of a block when the run stopped inside a batch. *)
Definition one_step_per_batch (device : Device) (optimizer : Optimizer)
    (model : Module) (loss_fn : LossFn) : Post trainE unit :=
  fun o tr =>
    exists (blocks : list Batch) (rest : list BatchMark),
      marks batch_mark tr =
        flat_map (batch_block device optimizer model loss_fn) blocks ++ rest /\
      (exists b, is_prefix rest
                   (firstn 3 (batch_block device optimizer model loss_fn b))) /\
      (o = Some (Ok tt) -> rest = []).

Definition train_device (rank : Z) (use_cuda : bool) : Device :=
  if use_cuda then device_index rank else device_str "cpu".

Definition steps_once_per_batch (rank : Z) (use_cuda : bool) : Post trainE unit :=
  fun o tr =>
    match first_mark new_loss tr, first_mark new_optimizer tr,
          first_mark new_wrapper tr with
    | Some loss_fn, Some optimizer, Some model =>
        one_step_per_batch (train_device rank use_cuda) optimizer model loss_fn o tr
    | _, _, _ => marks batch_mark tr = [] /\ o <> Some (Ok tt)
    end.

(** *** Every epoch, to the end of its iterator *)

(** The calls of the two loops that succeeded: the loader is opened,
    the iterator is asked for its next item and yields one or, with
    [None], has run dry, a tensor is moved, the optimizer steps. *)
Variant TurnMark : Type :=
| Opened (loader : Loader) (it : Iterator)
| Asked (it : Iterator) (item : option (Tensor * Tensor))
| Sent (src : Tensor) (device : Device) (dst : Tensor)
| Took (optimizer : Optimizer) (closure : M closureE Tensor).

Definition turn_mark (ev : Logged trainE) : option TurnMark :=
  match ev with
  | Log e r =>
      match e in trainE X return Reply X -> option TurnMark with
      | Loader_iter loader => fun r =>
          match r with
          | Ok it => Some (Opened loader it)
          | Raise _ => None
          end
      | Iterator_next it => fun r =>
          match r with
          | Ok item => Some (Asked it item)
          | Raise _ => None
          end
      | Tensor_to t device => fun r =>
          match r with
          | Ok t' => Some (Sent t device t')
          | Raise _ => None
          end
      | Optimizer_step optimizer c => fun r =>
          match r with
          | Ok _ => Some (Took optimizer c)
          | Raise _ => None
          end
      | _ => fun _ => None
      end r
  end.

(** One turn of the batch loop: the iterator yields a batch, its two
    tensors are moved, the optimizer steps once. *)
Definition batch_turn (device : Device) (optimizer : Optimizer)
    (model : Module) (loss_fn : LossFn) (it : Iterator) (b : Batch)
  : list TurnMark :=
  let '((data, target), (data', target')) := b in
  [Asked it (Some (data, target));
   Sent data device data';
   Sent target device target';
   Took optimizer (closure model loss_fn data' target')].

(** One turn of the epoch loop: the loader is opened, every batch its
    iterator yields has its turn, and the iterator is asked until it
    has run dry. *)
Definition epoch_turns (loader : Loader) (device : Device) (optimizer : Optimizer)
    (model : Module) (loss_fn : LossFn) (ep : Iterator * list Batch)
  : list TurnMark :=
  Opened loader (fst ep)
  :: flat_map (batch_turn device optimizer model loss_fn (fst ep)) (snd ep)
  ++ [Asked (fst ep) None].

(** A run that returns has gone through [n] epochs, each to the end of
    its iterator, and has done nothing else in the loops. *)
Definition runs_epochs_dry (loader : Loader) (device : Device)
    (optimizer : Optimizer) (model : Module) (loss_fn : LossFn) (n : nat)
  : Post trainE unit :=
  fun o tr =>
    o = Some (Ok tt) ->
    exists eps : list (Iterator * list Batch),
      List.length eps = n /\
      marks turn_mark tr =
        flat_map (epoch_turns loader device optimizer model loss_fn) eps.

Definition iterates_every_epoch (rank : Z) (args : Args) (use_cuda : bool)
  : Post trainE unit :=
  fun o tr =>
    o = Some (Ok tt) ->
    exists loader loss_fn optimizer model,
      first_mark new_loader tr = Some loader /\
      first_mark new_loss tr = Some loss_fn /\
      first_mark new_optimizer tr = Some optimizer /\
      first_mark new_wrapper tr = Some model /\
      runs_epochs_dry loader (train_device rank use_cuda) optimizer model loss_fn
        (Z.to_nat args.(epochs)) o tr.

(** The calls of the closure, replies left out. *)
Variant ClosureCall : Type :=
| ZeroGrad (model : Module)
| Forward (model : Module) (x : Tensor)
| Loss (loss_fn : LossFn) (outputs target : Tensor)
| Backward (loss : Tensor).

Definition closure_call (ev : Logged closureE) : ClosureCall :=
  match ev with
  | Log e _ =>
      match e with
      | Module_zero_grad m => ZeroGrad m
      | Module_call m x => Forward m x
      | Loss_call f o t => Loss f o t
      | Tensor_backward l => Backward l
      end
  end.

Definition closure_in_order (model : Module) (loss_fn : LossFn)
    (data target : Tensor) : Post closureE Tensor :=
  fun o tr =>
    match o with
    | Some (Ok result) =>
        exists outputs,
          tr = [Log (Module_zero_grad model) (Ok tt);
                Log (Module_call model data) (Ok outputs);
                Log (Loss_call loss_fn outputs target) (Ok result);
                Log (Tensor_backward result) (Ok tt)]
    | _ =>
        exists outputs loss,
          is_prefix (map closure_call tr)
            [ZeroGrad model; Forward model data;
             Loss loss_fn outputs target; Backward loss]
    end.

(** ** Runs that end

    [halts handle t w Q]: with enough fuel the run of [t] from [w]
    ends, by a return or by a raised exception, with [Q] of the reply
    and of the world it leaves. *)
Definition halts {E World R} (handle : forall X, E X -> World -> Reply X * World)
    (t : M E R) (w : World) (Q : Reply R -> World -> Prop) : Prop :=
  exists fuel,
    match outcome (run handle fuel t w) with
    | Some v => Q v (final (run handle fuel t w))
    | None => False
    end.

(** *** No exception handling *)

Definition all_ok {E} (tr : list (Logged E)) : bool :=
  forallb (fun ev => match ev with Log _ r => is_ok r end) tr.

(** A raised exception is the reply to the last call made and is what
    the run ends with; no call is made after it, and no exception is
    seen in a run that is still going or has returned. *)
Definition fail_fast {E R} : Post E R :=
  fun o tr =>
    match o with
    | Some (Raise ex) =>
        exists tr0 X (e : E X), tr = tr0 ++ [Log e (Raise ex)] /\ all_ok tr0 = true
    | _ => all_ok tr = true
    end.

(** *** The [DataLoader] arguments *)

(** [DataLoader.__init__] refuses a sampler together with shuffling:
    [if sampler is not None and shuffle: raise ValueError(...)]. *)
Definition sampler_given (kwargs : Dict) : bool :=
  match dict_get "sampler" kwargs with
  | None | Some VNone => false
  | Some _ => true
  end.

Definition shuffle_on (kwargs : Dict) : bool :=
  match dict_get "shuffle" kwargs with
  | Some v => truthy v
  | None => false
  end.

Definition shuffle_conflict (kwargs : Dict) : bool :=
  sampler_given kwargs && shuffle_on kwargs.

Definition is_ValueError {X} (rep : Reply X) : Prop :=
  exists msg, rep = Raise (mkException "ValueError" msg).

Definition dataloader_contract : Contract trainE :=
  fun X e =>
    match e in trainE X return Reply X -> Prop with
    | DataLoader _ kwargs => fun rep =>
        shuffle_conflict kwargs = true -> is_ValueError rep
    | _ => fun _ => True
    end.

(** A framework in which nothing else goes wrong; of [optimizer.step]
    this is asked for the closures [train] passes. *)
Definition raises_only_on_conflict : Contract trainE :=
  fun X e =>
    match e in trainE X return Reply X -> Prop with
    | DataLoader _ kwargs => fun rep =>
        if shuffle_conflict kwargs then is_ValueError rep else is_ok rep = true
    | Optimizer_step _ c => fun rep =>
        (exists model loss_fn data target, c = closure model loss_fn data target) ->
        is_ok rep = true
    | _ => fun rep => is_ok rep = true
    end.

(** The calls [train] makes from [model.train()] on. *)
Definition in_training_loop (ev : Logged trainE) : bool :=
  match ev with
  | Log e _ =>
      match e with
      | Module_train _ | Sampler_set_epoch _ _ | Loader_iter _
      | Iterator_next _ | Tensor_to _ _ | Optimizer_step _ _ => true
      | _ => false
      end
  end.

(** A logged [DataLoader(...)] was given a sampler and [shuffle=True],
    and was answered by a [ValueError]. *)
Definition loader_refused (ev : Logged trainE) : Prop :=
  match ev with
  | Log e rep =>
      match e in trainE X return Reply X -> Prop with
      | DataLoader _ kwargs => fun rep =>
          (exists sampler, dict_get "sampler" kwargs = Some (VObj sampler)) /\
          dict_get "shuffle" kwargs = Some (VBool true) /\
          is_ValueError rep
      | _ => fun _ => True
      end rep
  end.

(** The run has not returned, has made no call of the training loop,
    and its [DataLoader] call, if made, was refused. *)
Definition stops_at_loader : Post trainE unit :=
  fun o tr =>
    o <> Some (Ok tt) /\
    Forall (fun ev => in_training_loop ev = false /\ loader_refused ev) tr.

(** *** The optimizer *)

Definition oss_call (ev : Logged trainE) : option (Optim * Q) :=
  match ev with
  | Log e _ =>
      match e with
      | OSS _ optim lr => Some (optim, lr)
      | _ => None
      end
  end.

(** [OSS] is built at most once, on [Adadelta] with [lr=1e-4], and it
    has been built in a run that returns. *)
Definition builds_adadelta : Post trainE unit :=
  fun o tr =>
    (marks oss_call tr = [] \/ marks oss_call tr = [(Adadelta, 1 # 10000)]) /\
    (o = Some (Ok tt) -> marks oss_call tr = [(Adadelta, 1 # 10000)]).

(** *** What is printed and what the clock says *)

Definition printed (ev : Logged trainE) : option (list PyVal) :=
  match ev with
  | Log e _ =>
      match e with
      | print objects => Some objects
      | _ => None
      end
  end.

Definition clock_reading (ev : Logged trainE) : option Q :=
  match ev with
  | Log e r =>
      match e in trainE X return Reply X -> option Q with
      | time_monotonic => reply_value
      | _ => fun _ => None
      end r
  end.

(** [time.monotonic()] does not go backwards. *)
Definition clock_monotonic (tr : list (Logged trainE)) : Prop :=
  Sorted.Sorted Qle (marks clock_reading tr).

(** A run that returns has printed two lines: the backend, and the
    difference of the last and the first reading it took of the
    clock. *)
Definition prints_backend_and_elapsed (backend : Backend) : Post trainE unit :=
  fun o tr =>
    o = Some (Ok tt) ->
    exists t_start between t_stop,
      marks clock_reading tr = t_start :: between ++ [t_stop] /\
      marks printed tr =
        [[VStr ("Using backend: " ++ Backend_str backend)];
         [VStr "Total Time:"; VFloat (t_stop - t_start)]].

(** ** A small framework to run the script against

    Handles are numbered as they are handed out, the clock advances by
    [tick] at each reading, every iterator yields [batches] batches, and
    [DataLoader] refuses a sampler together with shuffling as the real
    one does. *)
Record SimWorld : Type := mkSim
  { clock : Q;
    tick : positive;
    next_id : Handle;
    batches : nat;
    pending : nat }.

Definition fresh {X} (mk : Handle -> X) (w : SimWorld) : Reply X * SimWorld :=
  (Ok (mk w.(next_id)),
   mkSim w.(clock) w.(tick) (S w.(next_id)) w.(batches) w.(pending)).

Definition sim_closure (X : Type) (e : closureE X) : SimWorld -> Reply X * SimWorld :=
  match e in closureE X return SimWorld -> Reply X * SimWorld with
  | Module_zero_grad _ => fun w => (Ok tt, w)
  | Module_call _ _ => fresh (fun h => h)
  | Loss_call _ _ _ => fresh (fun h => h)
  | Tensor_backward _ => fun w => (Ok tt, w)
  end.

Definition sim (X : Type) (e : trainE X) : SimWorld -> Reply X * SimWorld :=
  match e in trainE X return SimWorld -> Reply X * SimWorld with
  | print _ => fun w => (Ok tt, w)
  | init_process_group _ _ _ _ => fun w => (Ok tt, w)
  | cuda_set_device _ => fun w => (Ok tt, w)
  | datasets_MNIST _ _ _ _ => fresh (fun h => h)
  | DistributedSampler _ _ _ => fresh (fun h => h)
  | DataLoader _ kwargs => fun w =>
      if shuffle_conflict kwargs
      then (Raise (mkException "ValueError"
                     "sampler option is mutually exclusive with shuffle"), w)
      else fresh (fun h => h) w
  | Module_new _ => fresh (fun h => h)
  | Module_to model _ => fun w => (Ok model, w)
  | CrossEntropyLoss => fresh (fun h => h)
  | Module_parameters _ => fresh (fun h => h)
  | OSS _ _ _ => fresh (fun h => h)
  | ShardedDataParallel _ _ => fresh (fun h => h)
  | cuda_reset_peak_memory_stats _ => fun w => (Ok tt, w)
  | cuda_synchronize _ => fun w => (Ok tt, w)
  | time_monotonic => fun w =>
      (Ok w.(clock),
       mkSim (w.(clock) + inject_Z (Z.pos w.(tick))) w.(tick) w.(next_id)
             w.(batches) w.(pending))
  | Module_train _ => fun w => (Ok tt, w)
  | Sampler_set_epoch _ _ => fun w => (Ok tt, w)
  | Loader_iter _ => fun w =>
      (Ok w.(next_id),
       mkSim w.(clock) w.(tick) (S w.(next_id)) w.(batches) w.(batches))
  | Iterator_next _ => fun w =>
      match w.(pending) with
      | O => (Ok None, w)
      | S n =>
          (Ok (Some (w.(next_id), S w.(next_id))),
           mkSim w.(clock) w.(tick) (S (S w.(next_id))) w.(batches) n)
      end
  | Tensor_to t _ => fun w => (Ok t, w)
  | Optimizer_step _ c => fun w =>
      (* the closure is run once; one that makes more than four calls is
         given up and the step returns [None] *)
      let r := run sim_closure 4 c w in
      match outcome r with
      | Some (Ok loss) => (Ok (Some loss), final r)
      | Some (Raise ex) => (Raise ex, final r)
      | None => (Ok None, final r)
      end
  end.

Definition sim_start (tick : positive) (batches : nat) : SimWorld :=
  mkSim 0 tick O batches O.

(** Every iterator of the framework runs dry: each batch it yields
    lowers a measure of the world that moving a tensor and stepping the
    optimizer do not raise. *)
Definition finite_batches {World}
    (handle : forall X, trainE X -> World -> Reply X * World)
    (mu : World -> nat) : Prop :=
  (forall it w,
      match handle _ (Iterator_next it) w with
      | (Ok (Some _), w') => (mu w' < mu w)%nat
      | _ => True
      end) /\
  (forall t device w, (mu (snd (handle _ (Tensor_to t device) w)) <= mu w)%nat) /\
  (forall optimizer model loss_fn data target w,
      (mu (snd (handle _ (Optimizer_step optimizer
                            (closure model loss_fn data target)) w)) <= mu w)%nat).

(** ** The command line: [main]

    [main] declares ten optional arguments on an [argparse] parser;
    the parser adds [-h]/[--help] itself.  The parsing below follows
    [ArgumentParser.parse_args] for such a parser: every token is first
    classified (an option string in full, [--opt=value], an
    unambiguous abbreviation of a long option, or else an argument),
    then the tokens are consumed from left to right.  Command lines
    with the separator [--] as a token are left out.  A [string] stands
    for a Python [str] of code points below 256. *)

Variant ArgType : Type := type_int | type_float.

Variant Action : Type :=
| store (type : ArgType)
| store_true
| help.

(** One [add_argument]; [default] is [None] for an action that leaves
    no attribute behind. *)
Record Argument : Type := add_argument
  { option_strings : list string;
    action : Action;
    dest : string;
    default : option PyVal }.

(** The arguments of the parser of [main], in the order they are
    added. *)
Definition parser : list Argument :=
  [ add_argument ["-h"; "--help"] help "help" None;
    add_argument ["--batch_size"] (store type_int) "batch_size" (Some (VInt 64));
    add_argument ["--test_batch_size"] (store type_int) "test_batch_size"
                 (Some (VInt 1000));
    add_argument ["--epochs"] (store type_int) "epochs" (Some (VInt 14));
    add_argument ["--lr"] (store type_float) "lr" (Some (VFloat 1));
    add_argument ["--gamma"] (store type_float) "gamma" (Some (VFloat (7 # 10)));
    add_argument ["--no_cuda"] store_true "no_cuda" (Some (VBool false));
    add_argument ["--dry_run"] store_true "dry_run" (Some (VBool false));
    add_argument ["--seed"] (store type_int) "seed" (Some (VInt 1));
    add_argument ["--log_interval"] (store type_int) "log_interval" (Some (VInt 10));
    add_argument ["--save_model"] store_true "save_model" (Some (VBool false)) ].

Variant ParseResult : Type :=
| Parsed (namespace : Dict)
| SystemExit (code : Z).

(** How a token of the command line is read. *)
Variant Token : Type :=
| Positional
| Optional (a : Argument) (explicit_arg : option string)
| Unknown.

Definition starts_with_dash (s : string) : bool :=
  match s with
  | String "-" _ => true
  | _ => false
  end.

Definition starts_with_two_dashes (s : string) : bool :=
  match s with
  | String "-" (String "-" _) => true
  | _ => false
  end.

Definition is_digit (c : ascii) : bool :=
  (48 <=? nat_of_ascii c)%nat && (nat_of_ascii c <=? 57)%nat.

Fixpoint all_digits (s : string) : bool :=
  match s with
  | EmptyString => true
  | String c s' => is_digit c && all_digits s'
  end.

(** What [$] does at the end of a pattern: it matches at the end of
    the string and also just before a newline that ends the string. *)
Fixpoint without_final_newline (s : string) : string :=
  match s with
  | EmptyString => EmptyString
  | String c EmptyString => if Ascii.eqb c "010" then EmptyString else s
  | String c s' => String c (without_final_newline s')
  end.

(** ['^-\d+$|^-\d*\.\d+$']; among the code points below 256, [\d]
    matches the ten digits [0] to [9]. *)
Definition looks_like_negative_number (s : string) : bool :=
  match without_final_newline s with
  | String "-" body =>
      match index 0 "." body with
      | None => negb (String.eqb body "") && all_digits body
      | Some i =>
          let frac := substring (S i) (String.length body - S i) body in
          all_digits (substring 0 i body) &&
          negb (String.eqb frac "") && all_digits frac
      end
  | _ => false
  end.

Definition contains_space (s : string) : bool :=
  match index 0 " " s with Some _ => true | None => false end.

(** The text before the first [=], and the text after it. *)
Definition split_explicit (s : string) : string * option string :=
  match index 0 "=" s with
  | Some i => (substring 0 i s, Some (substring (S i) (String.length s - S i) s))
  | None => (s, None)
  end.

Definition option_table (p : list Argument) : list (string * Argument) :=
  flat_map (fun a => map (fun o => (o, a)) a.(option_strings)) p.

Definition find_option (p : list Argument) (s : string) : option Argument :=
  option_map snd (find (fun oa => String.eqb s (fst oa)) (option_table p)).

(** [_get_option_tuples]: the option strings a token may abbreviate. *)
Definition option_tuples (p : list Argument) (s : string) : list Token :=
  if starts_with_two_dashes s then
    let (option_prefix, explicit_arg) := split_explicit s in
    flat_map (fun oa =>
                if String.prefix option_prefix (fst oa)
                then [Optional (snd oa) explicit_arg] else [])
             (option_table p)
  else
    let short_option_prefix := substring 0 2 s in
    let short_explicit_arg := substring 2 (String.length s - 2) s in
    flat_map (fun oa =>
                if String.eqb (fst oa) short_option_prefix
                then [Optional (snd oa) (Some short_explicit_arg)]
                else if String.prefix s (fst oa)
                then [Optional (snd oa) None] else [])
             (option_table p).

(** [_parse_optional]; [None] is the error for an ambiguous
    abbreviation. *)
Definition parse_optional (p : list Argument) (s : string) : option Token :=
  if String.eqb s "" then Some Positional
  else if negb (starts_with_dash s) then Some Positional
  else
    match find_option p s with
    | Some a => Some (Optional a None)
    | None =>
        if (String.length s =? 1)%nat then Some Positional
        else
          match split_explicit s with
          | (option_string, Some explicit_arg) =>
              match find_option p option_string with
              | Some a => Some (Optional a (Some explicit_arg))
              | None =>
                  match option_tuples p s with
                  | [] =>
                      if looks_like_negative_number s then Some Positional
                      else if contains_space s then Some Positional
                      else Some Unknown
                  | [t] => Some t
                  | _ => None
                  end
              end
          | (_, None) =>
              match option_tuples p s with
              | [] =>
                  if looks_like_negative_number s then Some Positional
                  else if contains_space s then Some Positional
                  else Some Unknown
              | [t] => Some t
              | _ => None
              end
          end
    end.

Fixpoint classify (p : list Argument) (argv : list string)
  : option (list (string * Token)) :=
  match argv with
  | [] => Some []
  | s :: argv' =>
      match parse_optional p s, classify p argv' with
      | Some t, Some ts => Some ((s, t) :: ts)
      | _, _ => None
      end
  end.

(** The namespace before any token is read. *)
Definition initial_namespace (p : list Argument) : Dict :=
  fold_left (fun ns a =>
               match a.(default) with
               | Some v => dict_set a.(dest) v ns
               | None => ns
               end) p [].

(** [-xyz] is [-x -y -z] if no argument is required: the flags that
    the tail of a single-dash option string stands for, or [None] if
    one of its characters is not a short option of the parser.  The
    short options of such a parser take no value. *)
Fixpoint cluster (p : list Argument) (tail : string) : option (list Argument) :=
  match tail with
  | EmptyString => Some []
  | String c tail' =>
      match find_option p (String "-" (String c EmptyString)) with
      | Some a =>
          match a.(action) with
          | store _ => None
          | _ => option_map (cons a) (cluster p tail')
          end
      | None => None
      end
  end.

(** The actions of a cluster are taken in order, once all of it is
    recognized; [help] prints and exits with code 0. *)
Fixpoint take_flags (flags : list Argument) (ns : Dict) : Dict + Z :=
  match flags with
  | [] => inl ns
  | a :: flags' =>
      match a.(action) with
      | help => inr 0%Z
      | store_true => take_flags flags' (dict_set a.(dest) (VBool true) ns)
      | store _ => inr 2%Z
      end
  end.

Section ParseArgs.
(** [int] and [float], the [type=] converters. *)
Variable py_int : string -> option Z.
Variable py_float : string -> option Q.
Variable p : list Argument.

Definition convert (type : ArgType) (s : string) : option PyVal :=
  match type with
  | type_int => option_map VInt (py_int s)
  | type_float => option_map VFloat (py_float s)
  end.

(** The tokens are consumed in order; [extras] tells whether a token
    was left unrecognized, which is an error at the end.  An explicit
    argument, as in [--opt=value], is the one value of an option that
    takes a value; the separator [--] is dropped from the values of an
    option, which leaves the empty list for [--opt=--].  A flag takes no
    value: with an explicit argument it is an error, unless its option
    string has a single dash, where the explicit argument is a cluster
    of further flags. *)
Fixpoint consume (tokens : list (string * Token)) (ns : Dict) (extras : bool)
  : ParseResult :=
  match tokens with
  | [] => if extras then SystemExit 2 else Parsed ns
  | (_, Positional) :: rest => consume rest ns true
  | (_, Unknown) :: rest => consume rest ns true
  | (s, Optional a explicit_arg) :: rest =>
      match a.(action), explicit_arg with
      | store type, Some e =>
          if String.eqb e "--"
          then consume rest (dict_set a.(dest) (VList []) ns) extras
          else
            match convert type e with
            | Some v => consume rest (dict_set a.(dest) v ns) extras
            | None => SystemExit 2
            end
      | store type, None =>
          match rest with
          | (s', Positional) :: rest' =>
              match convert type s' with
              | Some v => consume rest' (dict_set a.(dest) v ns) extras
              | None => SystemExit 2
              end
          | _ => SystemExit 2
          end
      | help, None => SystemExit 0
      | store_true, None => consume rest (dict_set a.(dest) (VBool true) ns) extras
      | _, Some e =>
          if starts_with_two_dashes s || String.eqb e "" then SystemExit 2
          else
            match cluster p e with
            | Some flags =>
                match take_flags (a :: flags) ns with
                | inl ns' => consume rest ns' extras
                | inr code => SystemExit code
                end
            | None => SystemExit 2
            end
      end
  end.

(** [parser.parse_args(argv)]; [None] for a command line with the
    separator [--]. *)
Definition parse_args (argv : list string)
  : option ParseResult :=
  if existsb (String.eqb "--") argv then None
  else
    Some match classify p argv with
         | Some tokens => consume tokens (initial_namespace p) false
         | None => SystemExit 2
         end.
End ParseArgs.

(** The attributes of the namespace, as [train] and [main] read them. *)
Definition namespace_args (ns : Dict) : option Args :=
  match dict_get "batch_size" ns, dict_get "test_batch_size" ns,
        dict_get "epochs" ns, dict_get "lr" ns, dict_get "gamma" ns,
        dict_get "no_cuda" ns, dict_get "dry_run" ns, dict_get "seed" ns,
        dict_get "log_interval" ns, dict_get "save_model" ns with
  | Some (VInt bs), Some (VInt tbs), Some (VInt ep), Some (VFloat l),
    Some (VFloat g), Some (VBool nc), Some (VBool dr), Some (VInt sd),
    Some (VInt li), Some (VBool sm) =>
      Some (mkArgs bs tbs ep l g nc dr sd li sm)
  | _, _, _, _, _, _, _, _, _, _ => None
  end.

(** The defaults the help texts document. *)
Definition default_args : Args :=
  mkArgs 64 1000 14 1 (7 # 10) false false 1 10 false.

(** [mp.spawn(fn, args, nprocs)]: the processes it starts, one per
    rank, each running [fn(rank, *args)].  The scripts are what the
    workers run; when they run, and that [spawn] with [join=True] stops
    the workers still running once one of them has failed, is not part
    of the list.  A worker stopped on the way is a run cut short, which
    [post] covers and [halts] does not. *)
Definition spawn {T} (fn : Z -> T) (nprocs : Z) : list T := map fn (range nprocs).

(** [main]: the scripts of the spawned workers, or the exit code of
    the parser; [None] where [parse_args] is, and for a namespace that
    holds the empty list an explicit [--] leaves. *)
Definition main (py_int : string -> option Z) (py_float : string -> option Q)
    (cuda_is_available : bool) (argv : list string)
  : option (list (M trainE unit) + Z) :=
  match parse_args py_int py_float parser argv with
  | None => None
  | Some (SystemExit code) => Some (inr code)
  | Some (Parsed ns) =>
      match namespace_args ns with
      | None => None
      | Some args =>
          let use_cuda := negb args.(no_cuda) && cuda_is_available in
          Some (inl (spawn (fun rank => train cuda_is_available rank args use_cuda)
                           WORLD_SIZE))
      end
  end.

(** Decimal numerals, for running the parser: an optional sign and
    digits, and for [float] an optional fraction. *)
Fixpoint digits_value (s : string) (acc : Z) : Z :=
  match s with
  | EmptyString => acc
  | String c s' => digits_value s' (10 * acc + Z.of_nat (nat_of_ascii c - 48))
  end.

Definition unsigned_decimal (s : string) : option Z :=
  if negb (String.eqb s "") && all_digits s then Some (digits_value s 0) else None.

Definition decimal_int (s : string) : option Z :=
  match s with
  | String "-" s' => option_map Z.opp (unsigned_decimal s')
  | String "+" s' => unsigned_decimal s'
  | _ => unsigned_decimal s
  end.

Definition digits_or_zero (s : string) : option Z :=
  if all_digits s then Some (digits_value s 0) else None.

Definition unsigned_decimal_float (s : string) : option Q :=
  match index 0 "." s with
  | None => option_map inject_Z (unsigned_decimal s)
  | Some i =>
      let whole := substring 0 i s in
      let frac := substring (S i) (String.length s - S i) s in
      if String.eqb whole "" && String.eqb frac "" then None
      else
        match digits_or_zero whole, digits_or_zero frac with
        | Some a, Some b =>
            Some (inject_Z a + (b # Pos.of_nat (10 ^ String.length frac)))%Q
        | _, _ => None
        end
  end.

Definition decimal_float (s : string) : option Q :=
  match s with
  | String "-" s' => option_map Qopp (unsigned_decimal_float s')
  | String "+" s' => unsigned_decimal_float s'
  | _ => unsigned_decimal_float s
  end.

(** A token that is read as an argument, not as an option string. *)
Definition reads_as_argument (s : string) : bool :=
  match parse_optional parser s with
  | Some Positional => true
  | _ => false
  end.

(** The command line parses, and [main] reads these arguments off the
    namespace. *)
Definition parses_to (py_int : string -> option Z) (py_float : string -> option Q)
    (argv : list string) (args : Args) : Prop :=
  exists ns,
    parse_args py_int py_float parser argv = Some (Parsed ns) /\
    namespace_args ns = Some args.

(** The positional reading of a command line, as the words "parsed
    positionally" have it and not as [main] declares its arguments: the
    k-th token is the value of the k-th argument added, a non-empty
    token standing for [True] at a switch. *)
Fixpoint parse_positionally (py_int : string -> option Z)
    (py_float : string -> option Q) (p : list Argument) (argv : list string)
    (ns : Dict) : ParseResult :=
  match p with
  | [] => match argv with [] => Parsed ns | _ :: _ => SystemExit 2 end
  | a :: p' =>
      match a.(action) with
      | help => parse_positionally py_int py_float p' argv ns
      | store type =>
          match argv with
          | [] => Parsed ns
          | s :: argv' =>
              match convert py_int py_float type s with
              | Some v =>
                  parse_positionally py_int py_float p' argv' (dict_set a.(dest) v ns)
              | None => SystemExit 2
              end
          end
      | store_true =>
          match argv with
          | [] => Parsed ns
          | s :: argv' =>
              parse_positionally py_int py_float p' argv'
                (dict_set a.(dest) (VBool (negb (String.eqb s ""))) ns)
          end
      end
  end.

(** *** Flags as they are written

    One flag on the command line: its option string in full,
    the text of its value for an option that takes one, and the value
    the namespace holds for it afterwards. *)
Record Setting : Type := mkSetting
  { setting_argument : Argument;
    setting_option : string;
    setting_text : option string;
    setting_value : PyVal }.

Definition setting_dest (g : Setting) : string := g.(setting_argument).(dest).

Definition setting_tokens (g : Setting) : list string :=
  match g.(setting_text) with
  | Some s => [g.(setting_option); s]
  | None => [g.(setting_option)]
  end.

(** The setting is of one of the flags [main] declares: [--name value]
    with a value that is read as an argument and that the type of the
    flag converts, or the bare [--name] of a switch. *)
Definition written (py_int : string -> option Z) (py_float : string -> option Q)
    (g : Setting) : Prop :=
  In g.(setting_argument) parser /\
  In g.(setting_option) g.(setting_argument).(option_strings) /\
  match g.(setting_argument).(action), g.(setting_text) with
  | store type, Some s =>
      reads_as_argument s = true /\
      convert py_int py_float type s = Some g.(setting_value)
  | store_true, None => g.(setting_value) = VBool true
  | _, _ => False
  end.

Definition store_setting (ns : Dict) (g : Setting) : Dict :=
  dict_set (setting_dest g) g.(setting_value) ns.

(** The last setting written under a name. *)
Definition last_written (name : string) (gs : list Setting) : option Setting :=
  find (fun g => String.eqb name (setting_dest g)) (rev gs).

(** [--epochs 3], [--lr 0.5] and [--no_cuda]. *)
Definition epochs_3 : Setting :=
  mkSetting (add_argument ["--epochs"] (store type_int) "epochs" (Some (VInt 14)))
            "--epochs" (Some "3") (VInt 3).

Definition lr_half : Setting :=
  mkSetting (add_argument ["--lr"] (store type_float) "lr" (Some (VFloat 1)))
            "--lr" (Some "0.5") (VFloat (inject_Z 0 + (5 # 10))).

Definition no_cuda_set : Setting :=
  mkSetting (add_argument ["--no_cuda"] store_true "no_cuda" (Some (VBool false)))
            "--no_cuda" None (VBool true).

(** [float] on the numerals above and on [-1e-3], which Python's
    [float] reads as well. *)
Definition float_with_exponent (s : string) : option Q :=
  if String.eqb s "-1e-3" then Some (-1 # 1000) else decimal_float s.

(** ** The same framework twice

    Two frameworks, each in its own world, answer alike: related
    worlds give the same reply to the same call and stay related. *)
Definition same_replies {E W1 W2}
    (handle1 : forall X, E X -> W1 -> Reply X * W1)
    (handle2 : forall X, E X -> W2 -> Reply X * W2)
    (related : W1 -> W2 -> Prop) : Prop :=
  forall X (e : E X) w1 w2,
    related w1 w2 ->
    fst (handle1 X e w1) = fst (handle2 X e w2) /\
    related (snd (handle1 X e w1)) (snd (handle2 X e w2)).

(** [--epochs 1] and the other defaults. *)
Definition one_epoch_args : Args :=
  mkArgs 64 1000 1 1 (7 # 10) false false 1 10 false.

(** The small framework, counting the calls it answers. *)
Definition sim_counting (X : Type) (e : trainE X) (wn : SimWorld * nat)
  : Reply X * (SimWorld * nat) :=
  let (r, w') := sim X e (fst wn) in (r, (w', S (snd wn))).

(** ** More of what a log shows *)

(** *** Joining the process group *)

Definition init_call (ev : Logged trainE) : option (Backend * string * Z * Z) :=
  match ev with
  | Log e _ =>
      match e with
      | init_process_group backend init_method rank world_size =>
          Some (backend, init_method, rank, world_size)
      | _ => None
      end
  end.

(** The log starts with the line [dist_init] prints and with its call
    of [init_process_group], which is not called again. *)
Definition starts_with_dist_init (rank world_size : Z) (backend : Backend)
  : Post trainE unit :=
  fun _ tr =>
    match tr with
    | [] => True
    | first :: rest =>
        printed first = Some [VStr ("Using backend: " ++ Backend_str backend)] /\
        match rest with
        | [] => True
        | second :: rest' =>
            init_call second =
              Some (backend, "tcp://localhost:29501", rank, world_size) /\
            marks init_call rest' = []
        end
    end.

(** *** Devices *)

Definition on_device (device : Device) (ev : Logged trainE) : Prop :=
  match ev with
  | Log e _ =>
      match e with
      | Module_to _ d => d = device
      | Tensor_to _ d => d = device
      | _ => True
      end
  end.

(** A call into [torch.cuda], with its device argument. *)
Definition cuda_call (ev : Logged trainE) : option Z :=
  match ev with
  | Log e _ =>
      match e with
      | cuda_set_device d => Some d
      | cuda_reset_peak_memory_stats d => Some d
      | cuda_synchronize d => Some d
      | _ => None
      end
  end.

Definition cuda_only_if (rank : Z) (use_cuda : bool) (ev : Logged trainE) : Prop :=
  match cuda_call ev with
  | Some d => use_cuda = true /\ d = rank
  | None => True
  end.

(** *** From the dataset to the loader *)

Definition new_dataset (ev : Logged trainE) : option Dataset :=
  match ev with
  | Log e r =>
      match e in trainE X return Reply X -> option Dataset with
      | datasets_MNIST _ _ _ _ => reply_value
      | _ => fun _ => None
      end r
  end.

Definition mnist_call (ev : Logged trainE) : option (string * bool * bool) :=
  match ev with
  | Log e _ =>
      match e with
      | datasets_MNIST root train download _ => Some (root, train, download)
      | _ => None
      end
  end.

Definition sampler_call (ev : Logged trainE) : option (Dataset * Z * Z) :=
  match ev with
  | Log e _ =>
      match e with
      | DistributedSampler dataset num_replicas rank =>
          Some (dataset, num_replicas, rank)
      | _ => None
      end
  end.

Definition loader_call (ev : Logged trainE) : option (Dataset * Dict) :=
  match ev with
  | Log e _ =>
      match e with
      | DataLoader dataset kwargs => Some (dataset, kwargs)
      | _ => None
      end
  end.

(** [DataLoader] is called at most once, on the dataset [MNIST]
    returned, with the batch size of the command line and with the
    sampler [DistributedSampler] returned for that dataset, this rank
    and [WORLD_SIZE] replicas; the three CUDA settings are there on the
    CUDA path only. *)
Definition loader_wiring (rank : Z) (args : Args) (use_cuda : bool)
  : Post trainE unit :=
  fun _ tr =>
    match marks loader_call tr with
    | [] => True
    | [(dataset, kwargs)] =>
        marks mnist_call tr = [("../data", true, true)] /\
        first_mark new_dataset tr = Some dataset /\
        marks sampler_call tr = [(dataset, WORLD_SIZE, rank)] /\
        (exists sampler,
            first_mark new_sampler tr = Some sampler /\
            dict_get "sampler" kwargs = Some (VObj sampler)) /\
        dict_get "batch_size" kwargs = Some (VInt args.(batch_size)) /\
        dict_get "num_workers" kwargs = (if use_cuda then Some (VInt 1) else None) /\
        dict_get "pin_memory" kwargs = (if use_cuda then Some (VBool true) else None) /\
        dict_get "shuffle" kwargs = (if use_cuda then Some (VBool true) else None)
    | _ => False
    end.

(** *** From the model to the wrapped model *)

Definition module_new_call (ev : Logged trainE) : option (Net * Reply Module) :=
  match ev with
  | Log e r =>
      match e in trainE X return Reply X -> option (Net * Reply Module) with
      | Module_new net => fun r => Some (net, r)
      | _ => fun _ => None
      end r
  end.

Definition module_to_call (ev : Logged trainE)
  : option (Module * Device * Reply Module) :=
  match ev with
  | Log e r =>
      match e in trainE X return Reply X -> option (Module * Device * Reply Module) with
      | Module_to m d => fun r => Some (m, d, r)
      | _ => fun _ => None
      end r
  end.

(** Nothing is moved to another device: every move names [device];
    and a run that returns has moved the model there, once. *)
Definition moves_to_one_device (device : Device) : Post trainE unit :=
  fun o tr =>
    Forall (on_device device) tr /\
    (o = Some (Ok tt) ->
     exists net model, marks module_to_call tr = [(net, device, Ok model)]).

Definition parameters_call (ev : Logged trainE) : option (Module * Reply Params) :=
  match ev with
  | Log e r =>
      match e in trainE X return Reply X -> option (Module * Reply Params) with
      | Module_parameters m => fun r => Some (m, r)
      | _ => fun _ => None
      end r
  end.

Definition oss_reply (ev : Logged trainE) : option (Params * Reply Optimizer) :=
  match ev with
  | Log e r =>
      match e in trainE X return Reply X -> option (Params * Reply Optimizer) with
      | OSS params _ _ => fun r => Some (params, r)
      | _ => fun _ => None
      end r
  end.

Definition wrap_call (ev : Logged trainE) : option (Module * Optimizer) :=
  match ev with
  | Log e _ =>
      match e with
      | ShardedDataParallel m optimizer => Some (m, optimizer)
      | _ => None
      end
  end.

(** [ShardedDataParallel] is called at most once, and then on the
    model that was built from [Net()] and moved to the device, and on
    the optimizer [OSS] returned for the parameters of that very
    model. *)
Definition optimizer_wiring (rank : Z) (use_cuda : bool) : Post trainE unit :=
  fun _ tr =>
    match marks wrap_call tr with
    | [] => True
    | [(model, optimizer)] =>
        exists net params,
          marks module_new_call tr = [(Net__init__, Ok net)] /\
          marks module_to_call tr =
            [(net, train_device rank use_cuda, Ok model)] /\
          marks parameters_call tr = [(model, Ok params)] /\
          marks oss_reply tr = [(params, Ok optimizer)]
    | _ => False
    end.

(** *** No epoch *)

Definition outside_the_loops (ev : Logged trainE) : Prop :=
  loop_mark ev = None /\ batch_mark ev = None.

(** [--epochs 0] and the other defaults. *)
Definition no_epoch_args : Args :=
  mkArgs 64 1000 0 1 (7 # 10) false false 1 10 false.

(** *** The two printed lines *)

Definition ends_with {A} (x : A) (l : list A) : Prop := exists l0, l = l0 ++ [x].

(** [train] prints the backend first and the elapsed time last, and
    nothing else.  A run that returns has printed both; the second
    [print] is the last call of the run, and what it replies is what
    the run ends with. *)
Definition prints_two_lines (backend : Backend) : Post trainE unit :=
  fun o tr =>
    match marks printed tr with
    | [] => tr = [] /\ o = None
    | [line] =>
        line = [VStr ("Using backend: " ++ Backend_str backend)] /\
        o <> Some (Ok tt)
    | [line; total] =>
        line = [VStr ("Using backend: " ++ Backend_str backend)] /\
        (exists elapsed, total = [VStr "Total Time:"; VFloat elapsed]) /\
        exists rep, ends_with (Log (print total) rep) tr /\ o = Some rep
    | _ => False
    end.

(** *** Reading the clock *)

Definition clock_call (ev : Logged trainE) : option unit :=
  match ev with
  | Log e _ =>
      match e with
      | time_monotonic => Some tt
      | _ => None
      end
  end.

(** At most [n] readings of the clock, and [n] of them in a run that
    returns. *)
Definition clock_reads (n : nat) : Post trainE unit :=
  fun o tr =>
    (List.length (marks clock_call tr) <= n)%nat /\
    (o = Some (Ok tt) -> List.length (marks clock_call tr) = n).

(** The clock is read twice around the epoch loop and twice in each
    epoch. *)
Definition reads_clock_per_epoch (args : Args) : Post trainE unit :=
  clock_reads (2 + 2 * Z.to_nat args.(epochs)).

(** *** Tokens and the values they store *)

(** The argument of an option token is one the parser declares. *)
Definition declared_token (p : list Argument) (t : Token) : Prop :=
  match t with
  | Optional a _ => In a p
  | _ => True
  end.

(** The token does not hand the separator [--] to an option that
    takes a value, as [--opt=--] does. *)
Definition no_list_token (t : Token) : Prop :=
  match t with
  | Optional a (Some e) =>
      match action a with
      | store _ => e <> "--"
      | _ => True
      end
  | _ => True
  end.

(** The separator, as a token or as the explicit value of a token. *)
Definition mentions_separator (s : string) : bool :=
  String.eqb s "--" ||
  match split_explicit s with
  | (_, Some e) => String.eqb e "--"
  | (_, None) => false
  end.

(** The tokens do not start with one that an option before them would
    take for its value. *)
Definition not_a_value (tokens : list (string * Token)) : Prop :=
  match tokens with
  | (_, Positional) :: _ => False
  | _ => True
  end.

(** [--no_cuda] and the other defaults. *)
Definition no_cuda_args : Args :=
  mkArgs 64 1000 14 1 (7 # 10) true false 1 10 false.

(** * Properties *)

(** ** How [run] unfolds *)

Section RunFacts.
Context {E : Type -> Type} {World : Type}.
Variable handle : forall X, E X -> World -> Reply X * World.

Lemma run_unfold {R} fuel (t : itree (callE E) R) w :
  run handle fuel t w =
  match observe t with
  | RetF r => mkRun (Some r) [] w fuel
  | TauF t' =>
      match fuel with
      | O => out_of_fuel w
      | S n => run handle n t' w
      end
  | VisF e k =>
      match fuel with
      | O => out_of_fuel w
      | S n => answer handle e w (fun y w' => run handle n (k y) w')
      end
  end.
Proof. destruct fuel; reflexivity. Qed.

Lemma run_observe {R} fuel (t t' : itree (callE E) R) w :
  observe t = observe t' -> run handle fuel t w = run handle fuel t' w.
Proof. intros H. rewrite !run_unfold, H. reflexivity. Qed.

Lemma run_eta {R} (r : Run E World R) :
  mkRun (outcome r) (trace r) (final r) (fuel_left r) = r.
Proof. destruct r; reflexivity. Qed.

Lemma run_out_of_fuel {R} fuel (t : itree (callE E) R) w :
  outcome (run handle fuel t w) = None -> fuel_left (run handle fuel t w) = 0%nat.
Proof.
  revert t w. induction fuel as [|n IH]; intros t w; rewrite run_unfold;
    destruct (observe t) as [r|t'|X e k]; simpl; try discriminate; auto.
  destruct e as [X e]. simpl. destruct (handle _ e w) as [rep w']. simpl.
  apply IH.
Qed.

Lemma run_bind {R S} fuel (t : itree (callE E) R) (k : R -> itree (callE E) S) w :
  run handle fuel (ITree.bind t k) w =
  then_run (run handle fuel t w) (fun x n w' => run handle n (k x) w').
Proof.
  revert t w. induction fuel as [|n IH]; intros t w;
    destruct (observe t) as [r|t'|X e k'] eqn:Ht.
  all: try (rewrite (run_observe _ (ITree.bind t k) (k r)) by
              (rewrite observe_bind, Ht; reflexivity);
            rewrite (run_unfold _ t), Ht; unfold then_run; simpl;
            rewrite run_eta; reflexivity).
  all: rewrite (run_unfold _ (ITree.bind t k)), (run_unfold _ t), observe_bind, Ht;
    simpl; try reflexivity.
  - apply IH.
  - destruct e as [X e]. simpl. destruct (handle _ e w) as [rep w'].
    rewrite IH. unfold then_run; simpl.
    destruct (outcome (run handle n (k' rep) w')); reflexivity.
Qed.

Lemma run_fuel_left {R} fuel (t : itree (callE E) R) w :
  (fuel_left (run handle fuel t w) <= fuel)%nat.
Proof.
  revert t w. induction fuel as [|n IH]; intros t w; rewrite run_unfold;
    destruct (observe t) as [r|t'|X e k]; simpl; auto.
  destruct e as [X e]. simpl. destruct (handle _ e w) as [rep w']. simpl.
  specialize (IH (k rep) w'). lia.
Qed.

Lemma run_more_fuel {R} fuel extra (t : itree (callE E) R) w :
  outcome (run handle fuel t w) <> None ->
  run handle (fuel + extra) t w =
  mkRun (outcome (run handle fuel t w)) (trace (run handle fuel t w))
        (final (run handle fuel t w)) (fuel_left (run handle fuel t w) + extra).
Proof.
  revert t w. induction fuel as [|n IH]; intros t w;
    rewrite (run_unfold (_ + extra)), run_unfold;
    destruct (observe t) as [r|t'|X e k]; simpl; intros H;
    try reflexivity; try (exfalso; apply H; reflexivity).
  - apply IH, H.
  - destruct e as [X e]. simpl in *. destruct (handle _ e w) as [rep w'].
    simpl in *. rewrite (IH _ _ H). reflexivity.
Qed.

(** *** Rules *)

Variable contract : Contract E.
Hypothesis handle_ok : honours handle contract.

Lemma post_conseq {R} (t : M E R) (Q Q' : Post E R) :
  post handle t Q -> (forall o tr, Q o tr -> Q' o tr) -> post handle t Q'.
Proof. intros H HQ fuel w. apply HQ, H. Qed.

Lemma post_ret {R} (r : R) (Q : Post E R) :
  Q (Some (Ok r)) [] -> post handle (ret r) Q.
Proof. intros H fuel w. rewrite run_unfold. exact H. Qed.

Lemma post_call {X} (e : E X) (Q : Post E X) :
  Q None [] ->
  (forall rep, contract _ e rep -> Q (Some rep) [Log e rep]) ->
  post handle (call e) Q.
Proof.
  intros H0 H1 fuel w. rewrite run_unfold. simpl. destruct fuel as [|n]; [exact H0|].
  simpl. pose proof (handle_ok _ e w) as Hc.
  destruct (handle _ e w) as [rep w']. rewrite run_unfold. simpl. apply H1, Hc.
Qed.

Lemma post_bind {R S} (m : M E R) (k : R -> M E S) (Q : Post E S) :
  post handle m (fun o tr =>
    match o with
    | None => Q None tr
    | Some (Raise ex) => Q (Some (Raise ex)) tr
    | Some (Ok x) => post handle (k x) (fun o' tr' => Q o' (tr ++ tr'))
    end) ->
  post handle (bind m k) Q.
Proof.
  intros H fuel w. unfold bind. rewrite run_bind. unfold then_run.
  specialize (H fuel w).
  destruct (outcome (run handle fuel m w)) as [[x|ex]|]; simpl.
  - apply H.
  - rewrite run_unfold. simpl. rewrite app_nil_r. exact H.
  - exact H.
Qed.

Lemma post_call_bind {X S} (e : E X) (k : X -> M E S) (Q : Post E S) :
  Q None [] ->
  (forall ex, contract _ e (Raise ex) -> Q (Some (Raise ex)) [Log e (Raise ex)]) ->
  (forall x, contract _ e (Ok x) ->
             post handle (k x) (fun o tr => Q o (Log e (Ok x) :: tr))) ->
  post handle (bind (call e) k) Q.
Proof.
  intros H0 H1 H2. apply post_bind, post_call; [exact H0|].
  intros [x|ex] Hc; [apply H2 | apply H1]; exact Hc.
Qed.

Lemma post_when {S} (b : bool) (body : M E unit) (k : unit -> M E S) (Q : Post E S) :
  (b = true -> post handle (bind body k) Q) ->
  (b = false -> post handle (k tt) Q) ->
  post handle (bind (when b body) k) Q.
Proof.
  intros Ht Hf. destruct b; simpl; [apply Ht; reflexivity|].
  apply post_bind, post_ret. simpl. apply Hf. reflexivity.
Qed.

Lemma then_run_ext {R S} (r : Run E World R)
    (k k' : R -> nat -> World -> Run E World S) :
  (forall x n w, k x n w = k' x n w) -> then_run r k = then_run r k'.
Proof. intros H. unfold then_run. destruct (outcome r); [rewrite H|]; reflexivity. Qed.

Lemma run_enumerate_step {B} (next_ : M E (option B)) (body : Z -> B -> M E unit)
    i fuel w :
  run handle fuel (enumerate_step next_ body i) w =
  then_run (run handle fuel next_ w) (fun r n w' =>
    match r with
    | Raise e => mkRun (Some (inr (Raise e))) [] w' n
    | Ok None => mkRun (Some (inr (Ok tt))) [] w' n
    | Ok (Some x) =>
        then_run (run handle n (body i x) w') (fun r' n' w'' =>
          mkRun (Some match r' with
                      | Raise e => inr (Raise e)
                      | Ok _ => inl (i + 1)
                      end) [] w'' n')
    end).
Proof.
  unfold enumerate_step. rewrite run_bind. apply then_run_ext.
  intros [[x|]|e] n w'; try (rewrite run_unfold; reflexivity).
  rewrite run_bind. apply then_run_ext.
  intros [u|e] n' w''; rewrite run_unfold; reflexivity.
Qed.

(** The rule of the [enumerate] loop: [P i Q] relates the counter to
    what is still to be shown of the rest of the run. *)
Lemma post_enumerate_from {B} (next_ : M E (option B)) (body : Z -> B -> M E unit)
    (P : Z -> Post E unit -> Prop) :
  (forall i Q, P i Q ->
     Q None [] /\
     post handle next_ (fun o tr =>
       match o with
       | None => Q None tr
       | Some (Raise ex) => Q (Some (Raise ex)) tr
       | Some (Ok None) => Q (Some (Ok tt)) tr
       | Some (Ok (Some x)) =>
           post handle (body i x) (fun o' tr' =>
             match o' with
             | None => Q None (tr ++ tr')
             | Some (Raise ex) => Q (Some (Raise ex)) (tr ++ tr')
             | Some (Ok _) => P (i + 1) (fun o'' tr'' => Q o'' (tr ++ tr' ++ tr''))
             end)
       end)) ->
  forall i Q, P i Q -> post handle (enumerate_from next_ body i) Q.
Proof.
  intros Hstep i Q HP fuel. revert i Q HP.
  induction fuel as [fuel IH] using (well_founded_induction lt_wf).
  intros i Q HP w.
  destruct (Hstep i Q HP) as [_ Hn].
  unfold enumerate_from.
  rewrite (run_observe fuel _ _ w
             (observing_observe (unfold_aloop_ (enumerate_step next_ body) i))).
  rewrite run_bind, run_enumerate_step.
  specialize (Hn fuel w).
  pose proof (run_fuel_left fuel next_ w) as Hle1.
  destruct (run handle fuel next_ w) as [o1 tr1 w1 n1].
  unfold then_run; simpl in *.
  destruct o1 as [[[x|]|ex]|]; simpl.
  - specialize (Hn n1 w1).
    pose proof (run_fuel_left n1 (body i x) w1) as Hle2.
    destruct (run handle n1 (body i x) w1) as [o2 tr2 w2 n2]. simpl in *.
    destruct o2 as [[u|ex]|]; simpl.
    + rewrite (run_unfold _ (Tau _)). simpl.
      destruct n2 as [|n2]; simpl.
      * destruct (Hstep _ _ Hn) as [H0 _]. rewrite !app_nil_r in *. exact H0.
      * rewrite app_nil_r.
        assert (Hlt : (n2 < fuel)%nat) by lia.
        rewrite <- app_assoc. exact (IH n2 Hlt _ _ Hn w2).
    + rewrite (run_unfold _ (Ret _)). simpl. rewrite !app_nil_r. exact Hn.
    + exact Hn.
  - rewrite (run_unfold _ (Ret _)). simpl. rewrite !app_nil_r. exact Hn.
  - rewrite (run_unfold _ (Ret _)). simpl. rewrite !app_nil_r. exact Hn.
  - exact Hn.
Qed.

Lemma post_ret_bind {R S} (r : R) (k : R -> M E S) (Q : Post E S) :
  post handle (k r) Q -> post handle (bind (ret r) k) Q.
Proof.
  intros H. apply post_bind, post_ret. simpl.
  eapply post_conseq; [exact H|]. intros o tr HQ. exact HQ.
Qed.

Lemma run_bind_assoc {R S T} (m : M E R) (k1 : R -> M E S) (k2 : S -> M E T) fuel w :
  run handle fuel (bind (bind m k1) k2) w =
  run handle fuel (bind m (fun x => bind (k1 x) k2)) w.
Proof.
  unfold bind. rewrite !run_bind. unfold then_run at 2 3.
  destruct (run handle fuel m w) as [[[x|ex]|] tr1 w1 n1]; simpl.
  - rewrite run_bind. unfold then_run.
    destruct (run handle n1 (k1 x) w1) as [[[y|ex]|] tr2 w2 n2]; simpl.
    + rewrite app_assoc. reflexivity.
    + rewrite !(run_unfold _ (Ret _)). simpl. rewrite !app_nil_r. reflexivity.
    + reflexivity.
  - rewrite !(run_unfold _ (Ret _)). unfold then_run. simpl.
    rewrite !(run_unfold _ (Ret _)). simpl. rewrite !app_nil_r. reflexivity.
  - reflexivity.
Qed.

Lemma post_bind_assoc {R S T} (m : M E R) (k1 : R -> M E S) (k2 : S -> M E T)
    (Q : Post E T) :
  post handle (bind m (fun x => bind (k1 x) k2)) Q ->
  post handle (bind (bind m k1) k2) Q.
Proof. intros H fuel w. rewrite run_bind_assoc. apply H. Qed.

(** Composition with a property already shown of the first part. *)
Lemma post_seq {R S} (m : M E R) (k : R -> M E S) (G : Post E R) (Q : Post E S) :
  post handle m G ->
  (forall tr, G None tr -> Q None tr) ->
  (forall ex tr, G (Some (Raise ex)) tr -> Q (Some (Raise ex)) tr) ->
  (forall x tr, G (Some (Ok x)) tr ->
                post handle (k x) (fun o' tr' => Q o' (tr ++ tr'))) ->
  post handle (bind m k) Q.
Proof.
  intros Hm H0 H1 H2. apply post_bind. eapply post_conseq; [exact Hm|].
  intros [[x|ex]|] tr HG; auto.
Qed.

(** *** Rules for runs that end *)

Lemma halts_conseq {R} (t : M E R) w (Q Q' : Reply R -> World -> Prop) :
  halts handle t w Q -> (forall v w', Q v w' -> Q' v w') -> halts handle t w Q'.
Proof.
  intros [fuel H] HQ. exists fuel.
  destruct (outcome (run handle fuel t w)); [apply HQ, H | exact H].
Qed.

Lemma halts_ret {R} (r : R) w (Q : Reply R -> World -> Prop) :
  Q (Ok r) w -> halts handle (ret r) w Q.
Proof. intros H. exists O. rewrite run_unfold. exact H. Qed.

Lemma halts_call {X} (e : E X) w (Q : Reply X -> World -> Prop) :
  (forall rep w', handle _ e w = (rep, w') -> contract _ e rep -> Q rep w') ->
  halts handle (call e) w Q.
Proof.
  intros H. exists 1%nat. rewrite run_unfold. simpl.
  pose proof (handle_ok _ e w) as Hc.
  destruct (handle _ e w) as [rep w'] eqn:He. simpl in *.
  apply H; [reflexivity | exact Hc].
Qed.

Lemma halts_bind {R S} (m : M E R) (k : R -> M E S) w (Q : Reply S -> World -> Prop) :
  halts handle m w (fun v w' =>
    match v with
    | Ok x => halts handle (k x) w' Q
    | Raise ex => Q (Raise ex) w'
    end) ->
  halts handle (bind m k) w Q.
Proof.
  intros [fuel1 H].
  destruct (outcome (run handle fuel1 m w)) as [[x|ex]|] eqn:Ho; [| |contradiction].
  - destruct H as [fuel2 H]. exists (fuel1 + fuel2)%nat.
    unfold bind. rewrite run_bind.
    rewrite run_more_fuel by (rewrite Ho; discriminate).
    unfold then_run; simpl. rewrite Ho. simpl.
    destruct (outcome (run handle fuel2 (k x) (final (run handle fuel1 m w))))
      as [v|] eqn:Ho2; [|contradiction].
    rewrite Nat.add_comm.
    rewrite run_more_fuel by (rewrite Ho2; discriminate).
    simpl. rewrite Ho2. exact H.
  - exists fuel1. unfold bind. rewrite run_bind. unfold then_run. rewrite Ho.
    rewrite run_unfold. simpl. exact H.
Qed.

Lemma halts_call_bind {X S} (e : E X) (k : X -> M E S) w
    (Q : Reply S -> World -> Prop) :
  (forall rep w', handle _ e w = (rep, w') -> contract _ e rep ->
     match rep with
     | Ok x => halts handle (k x) w' Q
     | Raise ex => Q (Raise ex) w'
     end) ->
  halts handle (bind (call e) k) w Q.
Proof. intros H. apply halts_bind, halts_call. exact H. Qed.

Lemma halts_bind_assoc {R S T} (m : M E R) (k1 : R -> M E S) (k2 : S -> M E T) w
    (Q : Reply T -> World -> Prop) :
  halts handle (bind m (fun x => bind (k1 x) k2)) w Q ->
  halts handle (bind (bind m k1) k2) w Q.
Proof. intros [fuel H]. exists fuel. rewrite run_bind_assoc. exact H. Qed.

Lemma halts_ret_bind {R S} (r : R) (k : R -> M E S) w (Q : Reply S -> World -> Prop) :
  halts handle (k r) w Q -> halts handle (bind (ret r) k) w Q.
Proof. intros H. apply halts_bind, halts_ret. exact H. Qed.

(** The [enumerate] loop ends when each item the iterator yields
    lowers a measure of the world that the loop body does not raise. *)
Lemma halts_enumerate_from {B} (mu : World -> nat) (next_ : M E (option B))
    (body : Z -> B -> M E unit) :
  (forall i w, halts handle next_ w (fun v w' =>
     match v with
     | Raise _ => False
     | Ok None => True
     | Ok (Some x) =>
         (mu w' < mu w)%nat /\
         halts handle (body i x) w' (fun v' w'' => v' = Ok tt /\ (mu w'' <= mu w')%nat)
     end)) ->
  forall i w, halts handle (enumerate_from next_ body i) w (fun v _ => v = Ok tt).
Proof.
  intros Hstep i w. remember (mu w) as n eqn:Hn. revert i w Hn.
  induction n as [n IH] using (well_founded_induction lt_wf). intros i w ->.
  destruct (Hstep i w) as [fuel1 H1].
  destruct (run handle fuel1 next_ w) as [o1 tr1 w1 n1] eqn:Hr1. simpl in H1.
  destruct o1 as [[[x|]|ex]|]; try contradiction.
  - destruct H1 as [Hlt [fuel2 H2]].
    destruct (run handle fuel2 (body i x) w1) as [o2 tr2 w2 n2] eqn:Hr2.
    simpl in H2. destruct o2 as [v2|]; [|contradiction]. destruct H2 as [-> Hle].
    assert (Hlt' : (mu w2 < mu w)%nat) by lia.
    destruct (IH (mu w2) Hlt' (i + 1) w2 eq_refl) as [fuel3 H3].
    exists (fuel1 + (fuel2 + S fuel3))%nat. unfold enumerate_from.
    rewrite (run_observe _ _ _ w
               (observing_observe (unfold_aloop_ (enumerate_step next_ body) i))).
    rewrite run_bind, run_enumerate_step.
    rewrite run_more_fuel by (rewrite Hr1; discriminate). rewrite Hr1.
    unfold then_run at 2. simpl.
    replace (n1 + (fuel2 + S fuel3))%nat with (fuel2 + (S fuel3 + n1))%nat by lia.
    rewrite run_more_fuel by (rewrite Hr2; discriminate). rewrite Hr2.
    unfold then_run; simpl. rewrite (run_unfold _ (Tau _)). simpl.
    replace (n2 + S (fuel3 + n1))%nat with (S (fuel3 + (n2 + n1)))%nat by lia.
    destruct (outcome (run handle fuel3 (enumerate_from next_ body (i + 1)) w2))
      as [v3|] eqn:Ho3; [|contradiction].
    unfold enumerate_from in Ho3.
    rewrite run_more_fuel by (rewrite Ho3; discriminate).
    simpl. rewrite Ho3. exact H3.
  - exists fuel1. unfold enumerate_from.
    rewrite (run_observe _ _ _ w
               (observing_observe (unfold_aloop_ (enumerate_step next_ body) i))).
    rewrite run_bind, run_enumerate_step, Hr1. unfold then_run; simpl.
    rewrite run_unfold. simpl. reflexivity.
Qed.

(** *** Properties of every logged call *)

Section Every.
Variable P : Logged E -> Prop.

Lemma every_ret {R} (r : R) : post handle (ret r) (every P).
Proof. apply post_ret. constructor. Qed.

Lemma every_call {X} (e : E X) :
  (forall rep, contract _ e rep -> P (Log e rep)) ->
  post handle (call e) (every P).
Proof.
  intros H. apply post_call; [constructor|].
  intros rep Hc. constructor; [apply H, Hc | constructor].
Qed.

Lemma every_bind {R S} (m : M E R) (k : R -> M E S) :
  post handle m (every P) ->
  (forall x, post handle (k x) (every P)) ->
  post handle (bind m k) (every P).
Proof.
  intros Hm Hk. eapply post_seq; [exact Hm | auto | auto |].
  intros x tr Htr. eapply post_conseq; [apply Hk|].
  intros o tr' Htr'. apply Forall_app. split; assumption.
Qed.

Lemma every_when (b : bool) (body : M E unit) :
  post handle body (every P) -> post handle (when b body) (every P).
Proof. destruct b; [auto | intros _; apply every_ret]. Qed.

Lemma every_for_in {A} (l : list A) (body : A -> M E unit) :
  (forall x, post handle (body x) (every P)) ->
  post handle (for_in l body) (every P).
Proof.
  intros Hb. induction l as [|x l IH]; simpl.
  - apply every_ret.
  - apply every_bind; auto.
Qed.

Lemma every_enumerate_from {B} (next_ : M E (option B))
    (body : Z -> B -> M E unit) i :
  post handle next_ (every P) ->
  (forall i x, post handle (body i x) (every P)) ->
  post handle (enumerate_from next_ body i) (every P).
Proof.
  intros Hn Hb.
  apply (post_enumerate_from next_ body
           (fun _ Q => forall o tr, Forall P tr -> Q o tr)); [|auto].
  clear i. intros i Q HQ. split; [apply HQ; constructor|].
  eapply post_conseq; [exact Hn|]. intros o tr Htr.
  destruct o as [[[x|]|ex]|]; try (apply HQ; exact Htr).
  eapply post_conseq; [apply Hb|]. intros o' tr' Htr'.
  destruct o' as [[u|ex]|]; try (apply HQ, Forall_app; split; assumption).
  intros o'' tr'' Htr''. apply HQ. rewrite !Forall_app. auto.
Qed.
End Every.
End RunFacts.

Lemma honours_no_contract {E World}
    (handle : forall X, E X -> World -> Reply X * World) :
  honours handle no_contract.
Proof. intros X e w. exact I. Qed.

(** ** Reading a log *)

Lemma marks_app {E A} (f : Logged E -> option A) tr1 tr2 :
  marks f (tr1 ++ tr2) = marks f tr1 ++ marks f tr2.
Proof. apply flat_map_app. Qed.

Lemma marks_none {E A} (f : Logged E -> option A) tr :
  Forall (fun ev => f ev = None) tr -> marks f tr = [].
Proof.
  induction 1 as [|ev tr Hev _ IH]; [reflexivity|].
  unfold marks in *. simpl. rewrite Hev, IH. reflexivity.
Qed.

Lemma first_mark_app {E A} (f : Logged E -> option A) tr1 tr2 :
  first_mark f (tr1 ++ tr2) =
  match first_mark f tr1 with
  | Some a => Some a
  | None => first_mark f tr2
  end.
Proof.
  induction tr1 as [|ev tr1 IH]; simpl; [reflexivity|].
  destruct (f ev); [reflexivity | exact IH].
Qed.

Lemma first_mark_none {E A} (f : Logged E -> option A) tr :
  Forall (fun ev => f ev = None) tr -> first_mark f tr = None.
Proof.
  induction 1 as [|ev tr Hev _ IH]; [reflexivity|].
  simpl. rewrite Hev. exact IH.
Qed.

Lemma is_prefix_nil {A} (l : list A) : is_prefix [] l.
Proof. exists l. reflexivity. Qed.

Lemma is_prefix_refl {A} (l : list A) : is_prefix l l.
Proof. exists []. symmetry. apply app_nil_r. Qed.

Lemma is_prefix_app {A} (l l1 l2 : list A) :
  is_prefix l1 l2 -> is_prefix (l ++ l1) (l ++ l2).
Proof. intros [r ->]. exists r. apply app_assoc. Qed.

Lemma is_prefix_app_r {A} (l1 l2 r : list A) :
  is_prefix l1 l2 -> is_prefix l1 (l2 ++ r).
Proof. intros [r' ->]. exists (r' ++ r). symmetry. apply app_assoc. Qed.


Lemma marks_cons {E A} (f : Logged E -> option A) ev tr :
  marks f (ev :: tr) =
  match f ev with
  | Some a => a :: marks f tr
  | None => marks f tr
  end.
Proof. unfold marks. simpl. destruct (f ev); reflexivity. Qed.

Lemma marks_nil {E A} (f : Logged E -> option A) : marks f [] = [].
Proof. reflexivity. Qed.

Arguments marks : simpl never.

(** Computes the marks of a log whose head is known. *)
Ltac marks_of cls :=
  repeat first
    [ rewrite marks_nil
    | rewrite marks_app
    | rewrite app_nil_r
    | rewrite marks_cons; cbn [cls reply_value] ].

(** ** The epoch loop *)

Ltac unconstrained := exact (honours_no_contract _).

(** Shows that a script logs only calls satisfying a property that
    computes on each call. *)
Ltac every_call_ok :=
  repeat first
    [ apply every_ret
    | eapply every_call; [unconstrained | intros; cbn; auto; fail]
    | apply every_bind; [ | intros]
    | apply every_when
    | apply every_for_in; intros
    | apply every_enumerate_from; [ | intros] ].

Lemma marks_none_impl {E A} (P : Logged E -> Prop) (f : Logged E -> option A) tr :
  Forall P tr -> (forall ev, P ev -> f ev = None) -> marks f tr = [].
Proof.
  intros Htr HP. apply marks_none. eapply Forall_impl; [exact HP | exact Htr].
Qed.

(** [every_call_ok] with the tactic to close each call. *)
Ltac every_call_by leaf :=
  repeat first
    [ apply every_ret
    | eapply every_call; [unconstrained | intros; leaf; fail]
    | apply every_bind; [ | intros]
    | apply every_when
    | apply every_for_in; intros
    | apply every_enumerate_from; [ | intros] ].

(** The same through the two loops. *)
Ltac loop_calls_by leaf :=
  unfold train_epoch, for_enumerate; every_call_by leaf;
  match goal with b : (Tensor * Tensor)%type |- _ => destruct b end;
  unfold train_batch; every_call_by leaf.

Ltac loop_calls_ok :=
  unfold train_epoch, for_enumerate; every_call_ok;
  match goal with b : (Tensor * Tensor)%type |- _ => destruct b end;
  unfold train_batch; every_call_ok.

Ltac prefix_ok :=
  first [ apply is_prefix_nil | apply is_prefix_refl
        | eexists; cbn; reflexivity ].

Section SetEpoch.
Context {World : Type}.
Variable handle : forall X, trainE X -> World -> Reply X * World.

Lemma train_batch_no_loop_mark dev opt m lf i b :
  post handle (train_batch dev opt m lf i b)
    (every (fun ev => loop_mark ev = None)).
Proof. destruct b as [data target]. unfold train_batch. every_call_ok. Qed.

Ltac epoch_leaf :=
  unfold opens_epochs, epoch_marks; marks_of loop_mark; cbn [flat_map app];
  split; [prefix_ok | intros; first [discriminate | reflexivity]].

Lemma train_epoch_marks s l dev opt m lf e :
  post handle (train_epoch s l dev opt m lf e) (opens_epochs s l [e]).
Proof.
  unfold train_epoch.
  eapply post_call_bind; [unconstrained | epoch_leaf | intros; epoch_leaf | intros [] _].
  eapply post_call_bind; [unconstrained | epoch_leaf | intros; epoch_leaf | intros epoch_start _].
  eapply post_call_bind; [unconstrained | epoch_leaf | intros; epoch_leaf | intros it _].
  eapply post_seq.
  - apply (every_enumerate_from handle (fun ev => loop_mark ev = None)).
    + every_call_ok.
    + intros. apply train_batch_no_loop_mark.
  - intros tr Htr. unfold opens_epochs, epoch_marks. marks_of loop_mark.
    rewrite (marks_none _ _ Htr). cbn [flat_map app].
    split; [prefix_ok | discriminate].
  - intros ex tr Htr. unfold opens_epochs, epoch_marks. marks_of loop_mark.
    rewrite (marks_none _ _ Htr). cbn [flat_map app].
    split; [prefix_ok | discriminate].
  - intros [] tr Htr.
    eapply post_call_bind; [unconstrained | | | intros epoch_end _; apply post_ret].
    all: try intros ex _.
    all: unfold opens_epochs, epoch_marks; marks_of loop_mark;
      rewrite (marks_none _ _ Htr); cbn [flat_map app]; split; [prefix_ok | ];
      first [discriminate | reflexivity].
Qed.

Lemma epoch_marks_cons s l e es :
  epoch_marks s l (e :: es) = [SetEpoch s e; IterLoader l] ++ epoch_marks s l es.
Proof. reflexivity. Qed.

Lemma for_in_epochs_marks s l dev opt m lf es :
  post handle (for_in es (train_epoch s l dev opt m lf)) (opens_epochs s l es).
Proof.
  induction es as [|e es IH]; simpl.
  - apply post_ret. split; [prefix_ok | reflexivity].
  - eapply post_seq; [apply train_epoch_marks | | | ].
    + intros tr [Hp _]. split; [|discriminate].
      rewrite epoch_marks_cons. apply is_prefix_app_r. exact Hp.
    + intros ex tr [Hp _]. split; [|discriminate].
      rewrite epoch_marks_cons. apply is_prefix_app_r. exact Hp.
    + intros [] tr [_ Htr]. specialize (Htr eq_refl).
      eapply post_conseq; [exact IH|]. intros o tr' [Hp Hall].
      unfold opens_epochs. rewrite marks_app, Htr, epoch_marks_cons.
      split.
      * apply is_prefix_app. exact Hp.
      * intros Ho. rewrite (Hall Ho). reflexivity.
Qed.

Ltac whose_epochs :=
  unfold set_epoch_once_per_epoch;
  cbn [first_mark new_sampler new_loader reply_value];
  unfold opens_epochs; marks_of loop_mark.

Ltac train_leaf :=
  whose_epochs;
  split; [first [apply is_prefix_nil | reflexivity] | intros; discriminate].

Ltac train_step :=
  first [ apply post_bind_assoc
        | apply post_ret_bind
        | eapply post_call_bind;
          [unconstrained | train_leaf | intros; train_leaf | intros ? _] ].

End SetEpoch.

(** ** The batch loop *)

Section BatchLoop.
Context {World : Type}.
Variable handle : forall X, trainE X -> World -> Reply X * World.
Variables (dev : Device) (opt : Optimizer) (m : Module) (lf : LossFn).

Lemma blocks_ok_app o tr1 tr2 :
  (one_step_per_batch dev opt m lf) (Some (Ok tt)) tr1 -> (one_step_per_batch dev opt m lf) o tr2 -> (one_step_per_batch dev opt m lf) o (tr1 ++ tr2).
Proof.
  intros (bs1 & rest1 & H1 & _ & Hr1) (bs2 & rest2 & H2 & Hp2 & Hr2).
  rewrite (Hr1 eq_refl), app_nil_r in H1.
  exists (bs1 ++ bs2), rest2. rewrite marks_app, H1, H2, flat_map_app, app_assoc.
  auto.
Qed.

Lemma blocks_ok_silent o tr :
  Forall (fun ev => batch_mark ev = None) tr -> (one_step_per_batch dev opt m lf) o tr.
Proof.
  intros H. exists [], []. rewrite (marks_none _ _ H).
  split; [reflexivity|]. split; [|reflexivity].
  exists ((O, O), (O, O)). apply is_prefix_nil.
Qed.

Lemma blocks_ok_silent_l o tr1 tr2 :
  Forall (fun ev => batch_mark ev = None) tr1 -> (one_step_per_batch dev opt m lf) o tr2 ->
  (one_step_per_batch dev opt m lf) o (tr1 ++ tr2).
Proof.
  intros H (bs & rest & H2 & Hp & Hr). exists bs, rest.
  rewrite marks_app, (marks_none _ _ H). auto.
Qed.

Lemma blocks_ok_silent_r o tr1 tr2 :
  (one_step_per_batch dev opt m lf) (Some (Ok tt)) tr1 -> Forall (fun ev => batch_mark ev = None) tr2 ->
  (one_step_per_batch dev opt m lf) o (tr1 ++ tr2).
Proof.
  intros H1 H2. apply blocks_ok_app; [exact H1|]. apply blocks_ok_silent, H2.
Qed.

Ltac partial_block rest :=
  exists [], rest; split; [marks_of batch_mark; reflexivity|];
  split; [eexists ((_, _), (_, _)); cbn; eexists; reflexivity | discriminate].

Lemma batches_one_step it i :
  post handle
    (enumerate_from (call (Iterator_next it)) (train_batch dev opt m lf) i)
    (one_step_per_batch dev opt m lf).
Proof.
  apply (post_enumerate_from handle _ _
           (fun _ Q => forall o tr, (one_step_per_batch dev opt m lf) o tr -> Q o tr)); [|auto].
  clear i. intros i Q HQ.
  assert (H0 : Q None []) by (apply HQ, blocks_ok_silent; constructor).
  split; [exact H0|].
  eapply post_call; [unconstrained | exact H0 |].
  intros [[[data target]|]|ex] _.
  - unfold train_batch.
    eapply post_call_bind; [unconstrained | | intros ex _ | intros data' _].
    1,2: apply HQ; partial_block [GotBatch data target].
    eapply post_call_bind; [unconstrained | | intros ex _ | intros target' _].
    1,2: apply HQ; partial_block [GotBatch data target; Moved data dev data'].
    eapply post_call_bind; [unconstrained | | intros ex _ | intros loss _].
    + apply HQ.
      partial_block [GotBatch data target; Moved data dev data';
                     Moved target dev target'].
    + apply HQ. exists [((data, target), (data', target'))], [].
      split; [marks_of batch_mark; reflexivity|].
      split; [exists ((O, O), (O, O)); apply is_prefix_nil | discriminate].
    + apply post_ret. intros o tr Htr. apply HQ. cbn [app].
      change ((one_step_per_batch dev opt m lf) o
                ([Log (Iterator_next it) (Ok (Some (data, target)));
                  Log (Tensor_to data dev) (Ok data');
                  Log (Tensor_to target dev) (Ok target');
                  Log (Optimizer_step opt (closure m lf data' target')) (Ok loss)]
                 ++ tr)).
      apply blocks_ok_app; [|exact Htr].
      exists [((data, target), (data', target'))], [].
      split; [marks_of batch_mark; reflexivity|].
      split; [exists ((O, O), (O, O)); apply is_prefix_nil | reflexivity].
  - apply HQ, blocks_ok_silent. repeat constructor.
  - apply HQ, blocks_ok_silent. repeat constructor.
  Unshelve. all: exact O.
Qed.

Lemma blocks_ok_cons_silent o ev tr :
  batch_mark ev = None -> (one_step_per_batch dev opt m lf) o tr -> (one_step_per_batch dev opt m lf) o (ev :: tr).
Proof.
  intros H. apply (blocks_ok_silent_l o [ev] tr). constructor; [exact H|constructor].
Qed.

Ltac silent_head := repeat (apply blocks_ok_cons_silent; [reflexivity|]).

Lemma train_epoch_one_step s l e :
  post handle (train_epoch s l dev opt m lf e) (one_step_per_batch dev opt m lf).
Proof.
  unfold train_epoch.
  do 3 (eapply post_call_bind;
        [unconstrained | apply blocks_ok_silent; repeat constructor
        | intros; apply blocks_ok_silent; repeat constructor | intros ? _]).
  eapply post_seq; [apply batches_one_step | | | ].
  - intros tr Htr. silent_head. exact Htr.
  - intros ex tr Htr. silent_head. exact Htr.
  - intros [] tr Htr.
    eapply post_call_bind; [unconstrained | | intros ex _ | intros epoch_end _].
    3: apply post_ret.
    all: silent_head; apply blocks_ok_silent_r; [exact Htr | repeat constructor].
Qed.

Lemma for_in_epochs_one_step s l es :
  post handle (for_in es (train_epoch s l dev opt m lf)) (one_step_per_batch dev opt m lf).
Proof.
  induction es as [|e es IH]; simpl.
  - apply post_ret, blocks_ok_silent. constructor.
  - eapply post_seq; [apply train_epoch_one_step | auto | auto |].
    intros [] tr Htr. eapply post_conseq; [exact IH|].
    intros o tr' Htr'. apply blocks_ok_app; assumption.
Qed.
End BatchLoop.

Section OptimizerStep.
Context {World : Type}.
Variable handle : forall X, trainE X -> World -> Reply X * World.

Ltac whose_batches :=
  unfold steps_once_per_batch;
  cbn [first_mark new_loss new_optimizer new_wrapper reply_value train_device].

Ltac before_loop :=
  whose_batches;
  lazymatch goal with
  | |- _ /\ _ => split; [reflexivity | discriminate]
  | |- one_step_per_batch _ _ _ _ _ _ => apply blocks_ok_silent; repeat constructor
  end.

Ltac silent_head := repeat (apply blocks_ok_cons_silent; [reflexivity|]).

Lemma train_one_step_per_batch cuda_is_available rank args use_cuda :
  post handle (train cuda_is_available rank args use_cuda)
    (steps_once_per_batch rank use_cuda).
Proof.
  unfold train, dist_init. destruct use_cuda; cbn [when].
  all: repeat first
         [ apply post_bind_assoc
         | apply post_ret_bind
         | eapply post_call_bind;
           [unconstrained | before_loop | intros; before_loop | intros ? _] ].
  all: eapply post_seq; [apply for_in_epochs_one_step | | | ].
  all: try (intros tr Htr; whose_batches; silent_head; exact Htr).
  all: try (intros ex tr Htr; whose_batches; silent_head; exact Htr).
  all: intros [] tr Htr.
  all: repeat first
         [ apply post_ret_bind
         | eapply post_call_bind; [unconstrained | | intros ? _ | intros ? _]
         | eapply post_call; [unconstrained | | intros ? _] ].
  all: whose_batches; silent_head;
    apply blocks_ok_silent_r; [exact Htr | repeat constructor].
Qed.
End OptimizerStep.

Lemma range_nonpositive (n : Z) : (n <= 0)%Z -> range n = [].
Proof.
  intros Hn. unfold range. replace (Z.to_nat n) with O by lia. reflexivity.
Qed.

Lemma range_length (n : Z) : List.length (range n) = Z.to_nat n.
Proof. unfold range. rewrite length_map, length_seq. reflexivity. Qed.

(** ** Every epoch, to the end of its iterator *)

Section UntilDry.
Context {World : Type}.
Variable handle : forall X, trainE X -> World -> Reply X * World.
Variables (dev : Device) (opt : Optimizer) (m : Module) (lf : LossFn).

Lemma batches_until_dry it i :
  post handle
    (enumerate_from (call (Iterator_next it)) (train_batch dev opt m lf) i)
    (fun o tr =>
       o = Some (Ok tt) ->
       exists bs,
         marks turn_mark tr =
           flat_map (batch_turn dev opt m lf it) bs ++ [Asked it None]).
Proof.
  apply (post_enumerate_from handle _ _
           (fun _ Q =>
              forall o tr,
                (o = Some (Ok tt) ->
                 exists bs,
                   marks turn_mark tr =
                     flat_map (batch_turn dev opt m lf it) bs ++ [Asked it None]) ->
                Q o tr)); [|auto].
  clear i. intros i Q HQ.
  assert (H0 : Q None []) by (apply HQ; discriminate).
  split; [exact H0|].
  eapply post_call; [unconstrained | exact H0 |].
  intros [[[data target]|]|ex] _.
  - unfold train_batch.
    eapply post_call_bind; [unconstrained | | intros ex _ | intros data' _].
    1,2: apply HQ; discriminate.
    eapply post_call_bind; [unconstrained | | intros ex _ | intros target' _].
    1,2: apply HQ; discriminate.
    eapply post_call_bind; [unconstrained | | intros ex _ | intros loss _].
    1,2: apply HQ; discriminate.
    apply post_ret. intros o tr Htr. apply HQ. intros Ho.
    destruct (Htr Ho) as [bs Hbs].
    exists (((data, target), (data', target')) :: bs).
    cbn [app]. marks_of turn_mark. rewrite Hbs. reflexivity.
  - apply HQ. intros _. exists []. reflexivity.
  - apply HQ. discriminate.
Qed.

Lemma train_epoch_until_dry s l e :
  post handle (train_epoch s l dev opt m lf e)
    (fun o tr =>
       o = Some (Ok tt) ->
       exists ep, marks turn_mark tr = epoch_turns l dev opt m lf ep).
Proof.
  unfold train_epoch.
  do 3 (eapply post_call_bind;
        [unconstrained | discriminate | intros; discriminate | intros ? _]).
  eapply post_seq; [apply batches_until_dry | discriminate | discriminate | ].
  intros [] tr Htr. destruct (Htr eq_refl) as [bs Hbs].
  eapply post_call_bind;
    [unconstrained | discriminate | intros; discriminate | intros epoch_end _].
  apply post_ret. intros _.
  match goal with
  | |- context [Log (Loader_iter l) (Ok ?it)] => exists (it, bs)
  end.
  marks_of turn_mark. rewrite Hbs. reflexivity.
Qed.

Lemma for_in_epochs_until_dry s l es :
  post handle (for_in es (train_epoch s l dev opt m lf))
    (runs_epochs_dry l dev opt m lf (List.length es)).
Proof.
  induction es as [|e es IH]; cbn [for_in].
  - apply post_ret. intros _. exists []. split; reflexivity.
  - eapply post_seq;
      [apply train_epoch_until_dry | discriminate | intros; discriminate | ].
    intros [] tr Htr. destruct (Htr eq_refl) as [ep Hep].
    eapply post_conseq; [exact IH|]. intros o tr' Htr' Ho.
    destruct (Htr' Ho) as (eps & Hlen & Heps).
    exists (ep :: eps). split; [cbn [List.length]; rewrite Hlen; reflexivity|].
    rewrite marks_app, Hep, Heps. reflexivity.
Qed.
End UntilDry.

Section EveryEpoch.
Context {World : Type}.
Variable handle : forall X, trainE X -> World -> Reply X * World.

Ltac still_running := unfold iterates_every_epoch; intros; discriminate.

Lemma train_iterates_every_epoch cuda_is_available rank args use_cuda :
  post handle (train cuda_is_available rank args use_cuda)
    (iterates_every_epoch rank args use_cuda).
Proof.
  unfold train, dist_init. destruct use_cuda; cbn [when].
  all: repeat first
         [ apply post_bind_assoc
         | apply post_ret_bind
         | eapply post_call_bind;
           [unconstrained | still_running | intros; still_running | intros ? _] ].
  all: eapply post_seq; [apply for_in_epochs_until_dry | | | ].
  all: try (intros; still_running).
  all: intros [] tr Htr; destruct (Htr eq_refl) as (eps & Hlen & Heps).
  all: rewrite range_length in Hlen.
  all: repeat first
         [ apply post_ret_bind
         | eapply post_call_bind;
           [unconstrained | still_running | intros; still_running | intros ? _] ].
  all: eapply post_call; [unconstrained | still_running | intros [[]|ex] _].
  all: try still_running.
  all: intros _; unfold iterates_every_epoch.
  all: cbn [first_mark new_loader new_loss new_optimizer new_wrapper reply_value].
  all: eexists _, _, _, _.
  all: repeat (split; [reflexivity|]).
  all: intros _; exists eps; split; [exact Hlen|].
  all: marks_of turn_mark; rewrite Heps; cbn [app]; rewrite ?app_nil_r; reflexivity.
Qed.
End EveryEpoch.

Lemma closure_calls_in_order {World}
    (handle : forall X, closureE X -> World -> Reply X * World)
    model loss_fn data target :
  post handle (closure model loss_fn data target)
    (closure_in_order model loss_fn data target).
Proof.
  unfold closure.
  eapply post_call_bind; [unconstrained | | intros ex _ | intros [] _].
  3: eapply post_call_bind; [unconstrained | | intros ex _ | intros outputs _].
  5: eapply post_call_bind; [unconstrained | | intros ex _ | intros loss _].
  7: eapply post_call_bind; [unconstrained | | intros ex _ | intros [] _].
  9: apply post_ret; exists outputs; reflexivity.
  all: unfold closure_in_order; eexists _, _; cbn [map closure_call];
    eexists; cbn [app]; reflexivity.
  Unshelve. all: exact O.
Qed.


(** ** No exception handling *)

Lemma all_ok_app {E} (tr1 tr2 : list (Logged E)) :
  all_ok (tr1 ++ tr2) = all_ok tr1 && all_ok tr2.
Proof. apply forallb_app. Qed.

Lemma fail_fast_app {E R S} (x : R) (o : option (Reply S)) (tr1 tr2 : list (Logged E)) :
  fail_fast (Some (Ok x)) tr1 -> fail_fast o tr2 -> fail_fast o (tr1 ++ tr2).
Proof.
  unfold fail_fast. intros H1 H2. destruct o as [[y|ex]|].
  - rewrite all_ok_app, H1, H2. reflexivity.
  - destruct H2 as (tr0 & X & e & -> & H0). exists (tr1 ++ tr0), X, e.
    rewrite all_ok_app, H1, H0, app_assoc. auto.
  - rewrite all_ok_app, H1, H2. reflexivity.
Qed.

Section FailFast.
Context {E : Type -> Type} {World : Type}.
Variable handle : forall X, E X -> World -> Reply X * World.

Lemma fail_fast_ret {R} (r : R) : post handle (ret r) fail_fast.
Proof. apply post_ret. reflexivity. Qed.

Lemma fail_fast_call {X} (e : E X) : post handle (call e) fail_fast.
Proof.
  eapply post_call; [unconstrained | reflexivity |].
  intros [x|ex] _; [reflexivity|]. exists [], X, e. auto.
Qed.

Lemma fail_fast_bind {R S} (m : M E R) (k : R -> M E S) :
  post handle m fail_fast ->
  (forall x, post handle (k x) fail_fast) ->
  post handle (bind m k) fail_fast.
Proof.
  intros Hm Hk. eapply post_seq; [exact Hm | auto | auto |].
  intros x tr Htr. eapply post_conseq; [apply Hk|].
  intros o tr' Htr'. eapply fail_fast_app; eassumption.
Qed.

Lemma fail_fast_when (b : bool) (body : M E unit) :
  post handle body fail_fast -> post handle (when b body) fail_fast.
Proof. destruct b; [auto | intros _; apply fail_fast_ret]. Qed.

Lemma fail_fast_for_in {A} (l : list A) (body : A -> M E unit) :
  (forall x, post handle (body x) fail_fast) ->
  post handle (for_in l body) fail_fast.
Proof.
  intros Hb. induction l as [|x l IH]; simpl.
  - apply fail_fast_ret.
  - apply fail_fast_bind; auto.
Qed.

Lemma fail_fast_enumerate_from {B} (next_ : M E (option B))
    (body : Z -> B -> M E unit) i :
  post handle next_ fail_fast ->
  (forall i x, post handle (body i x) fail_fast) ->
  post handle (enumerate_from next_ body i) fail_fast.
Proof.
  intros Hn Hb.
  apply (post_enumerate_from handle next_ body
           (fun _ Q => forall o tr, fail_fast o tr -> Q o tr)); [|auto].
  clear i. intros i Q HQ. split; [apply HQ; reflexivity|].
  eapply post_conseq; [exact Hn|]. intros o tr Htr.
  destruct o as [[[x|]|ex]|]; try (apply HQ; exact Htr).
  eapply post_conseq; [apply Hb|]. intros o' tr' Htr'.
  destruct o' as [[u|ex]|];
    try (apply HQ; eapply (fail_fast_app (Some x)); eassumption).
  intros o'' tr'' Htr''. apply HQ.
  eapply (fail_fast_app (Some x)); [exact Htr|].
  eapply (fail_fast_app u); eassumption.
Qed.
End FailFast.

Ltac fail_fast_ok :=
  repeat first
    [ apply fail_fast_ret
    | apply fail_fast_call
    | apply fail_fast_bind; [ | intros]
    | apply fail_fast_when
    | apply fail_fast_for_in; intros
    | apply fail_fast_enumerate_from; [ | intros] ].

(** C9: [train] handles no exception: whatever the framework, an
    exception raised by a call ends the run with that very exception,
    it is the reply to the last call [train] made (nothing is retried
    or run afterwards), and [train], when it returns, returns [None]. *)
Theorem train_propagates_every_exception :
  forall World (handle : forall X, trainE X -> World -> Reply X * World)
         cuda_is_available rank args use_cuda,
    post handle (train cuda_is_available rank args use_cuda)
      (fun o tr => fail_fast o tr /\ forall v, o = Some (Ok v) -> v = tt).
Proof.
  intros. eapply post_conseq.
  - unfold train, dist_init, train_epoch, for_enumerate. fail_fast_ok.
    match goal with b : (Tensor * Tensor)%type |- _ => destruct b end.
    unfold train_batch. fail_fast_ok.
  - intros o tr H. split; [exact H|]. intros []. reflexivity.
Qed.

(** ** The flags [train] does not read *)

Section UnusedFlags.
Context {World : Type}.
Variable handle : forall X, trainE X -> World -> Reply X * World.

Lemma epochs_build_no_optimizer s l dev opt m lf es :
  post handle (for_in es (train_epoch s l dev opt m lf))
    (every (fun ev => oss_call ev = None)).
Proof.
  unfold train_epoch, for_enumerate. every_call_ok.
  match goal with b : (Tensor * Tensor)%type |- _ => destruct b end.
  unfold train_batch. every_call_ok.
Qed.

Ltac which_optimizer := unfold builds_adadelta; marks_of oss_call.

Ltac optimizer_leaf :=
  which_optimizer; split; [auto | intros; first [discriminate | reflexivity]].

Lemma train_builds_adadelta cuda_is_available rank args use_cuda :
  post handle (train cuda_is_available rank args use_cuda) builds_adadelta.
Proof.
  unfold train, dist_init. destruct use_cuda; cbn [when].
  all: repeat first
         [ apply post_bind_assoc
         | apply post_ret_bind
         | eapply post_call_bind;
           [unconstrained | optimizer_leaf | intros; optimizer_leaf | intros ? _] ].
  all: eapply post_seq; [apply epochs_build_no_optimizer | | | ].
  all: try (intros tr Htr; which_optimizer; rewrite (marks_none _ _ Htr);
            split; [auto | discriminate]).
  all: try (intros ex tr Htr; which_optimizer; rewrite (marks_none _ _ Htr);
            split; [auto | discriminate]).
  all: intros [] tr Htr.
  all: repeat first
         [ apply post_ret_bind
         | eapply post_call_bind; [unconstrained | | intros ? _ | intros ? _]
         | eapply post_call; [unconstrained | | intros ? _] ].
  all: which_optimizer; rewrite (marks_none _ _ Htr); cbn [app];
    split; [auto | intros; reflexivity].
Qed.
End UnusedFlags.

(** C10: [train] reads only [args.batch_size] and [args.epochs]: two
    namespaces that agree on these two give the same script, whatever
    their [lr], [gamma], [test_batch_size], [dry_run], [seed],
    [log_interval] and [save_model] (and [no_cuda]); and in every run
    the sharded optimizer is built on [Adadelta] with the learning rate
    [1e-4], not [args.lr]. *)
Theorem train_ignores_unused_flags :
  forall cuda_is_available rank use_cuda (args1 args2 : Args),
    batch_size args1 = batch_size args2 ->
    epochs args1 = epochs args2 ->
    train cuda_is_available rank args1 use_cuda =
    train cuda_is_available rank args2 use_cuda /\
    (forall World (handle : forall X, trainE X -> World -> Reply X * World),
        post handle (train cuda_is_available rank args1 use_cuda) builds_adadelta).
Proof.
  intros ca rank use_cuda args1 args2 Hb He. split.
  - unfold train. rewrite Hb, He. reflexivity.
  - intros. apply train_builds_adadelta.
Qed.

(** ** The CUDA path *)

Section CudaPath.
Context {World : Type}.
Variable handle : forall X, trainE X -> World -> Reply X * World.
Hypothesis handle_ok : honours handle dataloader_contract.

Lemma cuda_kwargs_conflict (bs : Z) (sampler : Sampler) :
  shuffle_conflict
    (dict_update [("batch_size", VInt bs); ("sampler", VObj sampler)]
                 [("num_workers", VInt 1); ("pin_memory", VBool true);
                  ("shuffle", VBool true)]) = true.
Proof. reflexivity. Qed.

Ltac setup_leaf :=
  split; [discriminate |];
  repeat (apply Forall_cons; [split; [reflexivity | exact I] |]);
  try apply Forall_nil.

Lemma train_cuda_stops_at_loader cuda_is_available rank args :
  post handle (train cuda_is_available rank args true) stops_at_loader.
Proof.
  unfold train, dist_init. cbn [when].
  do 6 first
    [ apply post_bind_assoc
    | eapply post_call_bind;
      [exact handle_ok | setup_leaf | intros; setup_leaf | intros ? _] ].
  eapply post_call_bind;
    [exact handle_ok | setup_leaf | intros ex Hc | intros loader Hc].
  - split; [discriminate|].
    repeat (apply Forall_cons; [split; [reflexivity | exact I] |]).
    apply Forall_cons; [|apply Forall_nil].
    split; [reflexivity|]. cbn [loader_refused].
    split; [eexists; reflexivity|]. split; [reflexivity|].
    apply Hc, cuda_kwargs_conflict.
  - destruct (Hc (cuda_kwargs_conflict _ _)) as [msg Hmsg]. discriminate.
Qed.

Lemma train_cuda_raises cuda_is_available rank args w :
  halts handle (train cuda_is_available rank args true) w
    (fun v _ => exists ex, v = Raise ex).
Proof.
  unfold train, dist_init. cbn [when].
  do 6 first
    [ apply halts_bind_assoc
    | eapply halts_call_bind; [exact handle_ok |];
      intros [?|ex] ? _ _; [ | eexists; reflexivity] ].
  eapply halts_call_bind; [exact handle_ok|].
  intros [loader|ex] ? _ Hc; [|eexists; reflexivity].
  destruct (Hc (cuda_kwargs_conflict _ _)) as [msg Hmsg]. discriminate.
Qed.
End CudaPath.


(** ** Elapsed time *)

Lemma post_any {E World R} (handle : forall X, E X -> World -> Reply X * World)
    (t : M E R) :
  post handle t (fun _ _ => True).
Proof. intros fuel w. exact I. Qed.

Lemma last_snoc_cons {A} (a : A) (l : list A) (x d : A) :
  last (a :: l ++ [x]) d = x.
Proof. rewrite app_comm_cons. apply last_last. Qed.

Section ElapsedTime.
Context {World : Type}.
Variable handle : forall X, trainE X -> World -> Reply X * World.

Ltac not_returned := unfold prints_backend_and_elapsed; intros; discriminate.

Lemma train_prints_backend_and_elapsed cuda_is_available rank args use_cuda :
  post handle (train cuda_is_available rank args use_cuda)
    (prints_backend_and_elapsed (BACKEND cuda_is_available)).
Proof.
  unfold train, dist_init. destruct use_cuda; cbn [when].
  all: repeat first
         [ apply post_bind_assoc
         | apply post_ret_bind
         | eapply post_call_bind;
           [unconstrained | not_returned | intros; not_returned | intros ? _] ].
  all: eapply (post_seq handle _ _ (every (fun ev => printed ev = None)));
    [loop_calls_ok | | | ].
  all: try (intros; not_returned).
  all: intros [] tr Htr.
  all: repeat first
         [ apply post_ret_bind
         | eapply post_call_bind;
           [unconstrained | not_returned | intros; not_returned | intros ? _] ].
  all: eapply post_call; [unconstrained | not_returned | intros [[]|ex] _].
  all: try not_returned.
  all: intros _; unfold prints_backend_and_elapsed.
  all: match goal with
       | |- context [VFloat (?t1 - ?t0)] =>
           exists t0, (marks clock_reading tr), t1
       end.
  all: split; [marks_of clock_reading | marks_of printed];
    rewrite ?(marks_none _ _ Htr); cbn [app]; reflexivity.
Qed.
End ElapsedTime.

Section Completion.
Context {World : Type}.
Variable handle : forall X, trainE X -> World -> Reply X * World.
Variable mu : World -> nat.
Hypothesis handle_ok : honours handle raises_only_on_conflict.
Hypothesis batches_end : finite_batches handle mu.

(** One call that must succeed, then the rest. *)
Ltac succeed_then :=
  eapply halts_call_bind; [exact handle_ok |];
  let Hc := fresh "Hc" in
  intros [?|?] ? _ Hc; [ clear Hc | discriminate Hc ].

Lemma train_batch_returns dev opt m lf i b w :
  halts handle (train_batch dev opt m lf i b) w
    (fun v w' => v = Ok tt /\ (mu w' <= mu w)%nat).
Proof.
  destruct batches_end as (_ & Hto & Hstep).
  destruct b as [data target]. unfold train_batch.
  eapply halts_call_bind; [exact handle_ok |].
  intros [data'|ex] w1 He1 Hc; [ | discriminate Hc ].
  pose proof (Hto data dev w) as H1. rewrite He1 in H1. simpl in H1.
  eapply halts_call_bind; [exact handle_ok |].
  intros [target'|ex] w2 He2 Hc2; [ | discriminate Hc2 ].
  pose proof (Hto target dev w1) as H2. rewrite He2 in H2. simpl in H2.
  eapply halts_call_bind; [exact handle_ok |].
  intros rep w3 He3 Hc3.
  pose proof (Hstep opt m lf data' target' w2) as H3. rewrite He3 in H3. simpl in H3.
  assert (Hok : is_ok rep = true) by (apply Hc3; eauto).
  destruct rep as [loss|ex]; [ | discriminate Hok ].
  apply halts_ret. split; [reflexivity | lia].
Qed.

Lemma train_epoch_returns s l dev opt m lf e w :
  halts handle (train_epoch s l dev opt m lf e) w (fun v _ => v = Ok tt).
Proof.
  destruct batches_end as (Hnext & _ & _).
  unfold train_epoch. do 2 succeed_then.
  eapply halts_call_bind; [exact handle_ok |].
  intros [it|ex] w_it _ Hc; [ | discriminate Hc ].
  apply halts_bind.
  eapply halts_conseq.
  - apply (halts_enumerate_from handle mu). intros i wi.
    eapply halts_call; [exact handle_ok |].
    intros rep wn He Hn. specialize (Hnext it wi). rewrite He in Hnext.
    destruct rep as [[b|]|ex]; [ | exact I | discriminate Hn ].
    split; [exact Hnext | apply train_batch_returns].
  - intros v wl ->. succeed_then. apply halts_ret. reflexivity.
Qed.

Lemma epochs_return s l dev opt m lf es w :
  halts handle (for_in es (train_epoch s l dev opt m lf)) w (fun v _ => v = Ok tt).
Proof.
  revert w. induction es as [|e es IH]; intros w; simpl.
  - apply halts_ret. reflexivity.
  - apply halts_bind. eapply halts_conseq; [apply train_epoch_returns|].
    intros v we ->. apply IH.
Qed.

Lemma train_cpu_returns cuda_is_available rank args w :
  halts handle (train cuda_is_available rank args false) w (fun v _ => v = Ok tt).
Proof.
  unfold train, dist_init. cbn [when].
  repeat first
    [ apply halts_bind_assoc
    | apply halts_ret_bind
    | succeed_then ].
  apply halts_bind. eapply halts_conseq; [apply epochs_return|].
  intros v wl ->.
  apply halts_ret_bind. succeed_then.
  eapply halts_call; [exact handle_ok|].
  intros [[]|ex] wp _ Hp; [reflexivity | discriminate Hp].
Qed.
End Completion.

Lemma sorted_first_le_last (t0 : Q) (between : list Q) (t1 : Q) :
  Sorted Qle (t0 :: between ++ [t1]) -> (t0 <= t1)%Q.
Proof.
  intros H. apply Sorted_StronglySorted in H.
  - apply StronglySorted_inv in H. destruct H as [_ H].
    rewrite Forall_app in H. destruct H as [_ H].
    apply Forall_inv in H. exact H.
  - intros x y z. apply Qle_trans.
Qed.

(** C8: on the CPU path, against a framework in which no call fails,
    whose iterators run dry and whose monotonic clock does not go
    backwards, [train] returns, whatever the number of epochs.  It has
    then read the clock at least twice, and what it has printed is the
    backend and then ["Total Time:"] with the last reading minus the
    first, a rational number that is not negative. *)
Theorem train_completes_with_nonnegative_time :
  forall World (handle : forall X, trainE X -> World -> Reply X * World)
         (mu : World -> nat) cuda_is_available rank args w,
    honours handle raises_only_on_conflict ->
    finite_batches handle mu ->
    (forall fuel,
        outcome (run handle fuel (train cuda_is_available rank args false) w)
          = Some (Ok tt) ->
        clock_monotonic
          (trace (run handle fuel (train cuda_is_available rank args false) w))) ->
    exists fuel t_start between t_stop,
      outcome (run handle fuel (train cuda_is_available rank args false) w)
        = Some (Ok tt) /\
      marks clock_reading
        (trace (run handle fuel (train cuda_is_available rank args false) w))
        = t_start :: between ++ [t_stop] /\
      marks printed
        (trace (run handle fuel (train cuda_is_available rank args false) w))
        = [[VStr ("Using backend: " ++ Backend_str (BACKEND cuda_is_available))];
           [VStr "Total Time:"; VFloat (t_stop - t_start)]] /\
      (0 <= t_stop - t_start)%Q.
Proof.
  intros World handle mu ca rank args w Hok Hfin Hclock.
  destruct (train_cpu_returns handle mu Hok Hfin ca rank args w) as [fuel Hfuel].
  pose proof (train_prints_backend_and_elapsed handle ca rank args false fuel w)
    as Hshape.
  specialize (Hclock fuel).
  destruct (outcome (run handle fuel (train ca rank args false) w)) as [v|] eqn:Ho;
    [subst v | contradiction].
  destruct (Hshape eq_refl) as (t0 & between & t1 & Hreadings & Hprinted).
  exists fuel, t0, between, t1. split; [exact Ho|].
  split; [exact Hreadings|]. split; [exact Hprinted|].
  specialize (Hclock eq_refl). unfold clock_monotonic in Hclock.
  rewrite Hreadings in Hclock. apply sorted_first_le_last in Hclock.
  unfold Qminus. rewrite <- Qle_minus_iff. exact Hclock.
Qed.

(** ** The model *)

(** C7: on a batch of one-channel 28x28 images, whatever its size,
    [Net.forward] returns a tensor of shape [(n, 10)]: one score per
    class. *)
Theorem forward_output_has_ten_classes :
  forall n : Z, forward Net__init__ [n; 1; 28; 28] = Ok [n; 10].
Proof. intros n. reflexivity. Qed.

(** ** The command line *)

Lemma option_string_found a o :
  In a parser -> In o a.(option_strings) ->
  parse_optional parser o = Some (Optional a None).
Proof.
  intros Ha Ho. simpl in Ha.
  repeat (destruct Ha as [<-|Ha]; [simpl in Ho; intuition (subst; reflexivity)|]).
  contradiction.
Qed.

Lemma argument_is_not_separator s :
  reads_as_argument s = true -> String.eqb "--" s = false.
Proof.
  intros H. destruct (String.eqb_spec "--" s) as [<-|]; [discriminate H | reflexivity].
Qed.

Lemma option_string_is_not_separator a o :
  In a parser -> In o a.(option_strings) -> String.eqb "--" o = false.
Proof.
  intros Ha Ho. simpl in Ha.
  repeat (destruct Ha as [<-|Ha]; [simpl in Ho; intuition (subst; reflexivity)|]).
  contradiction.
Qed.

Lemma reads_as_argument_spec s :
  reads_as_argument s = true -> parse_optional parser s = Some Positional.
Proof.
  unfold reads_as_argument. destruct (parse_optional parser s) as [[]|];
    intros H; first [reflexivity | discriminate H].
Qed.

(** A flag with an explicit argument: refused, or a cluster of
    flags. *)
Ltac flag_cluster IH rest :=
  destruct (_ || _); [discriminate|];
  destruct (cluster _ _) as [?flags|]; [|discriminate];
  destruct (take_flags _ _) as [?ns1|?code]; [|discriminate];
  apply (IH (List.length rest)); [lia | reflexivity].

Section CommandLine.
Variable py_int : string -> option Z.
Variable py_float : string -> option Q.

(** [--opt value] on an otherwise empty command line. *)
Lemma parse_stored a o type s v :
  In a parser -> In o a.(option_strings) -> a.(action) = store type ->
  reads_as_argument s = true ->
  convert py_int py_float type s = Some v ->
  parse_args py_int py_float parser [o; s] =
  Some (Parsed (dict_set a.(dest) v (initial_namespace parser))).
Proof.
  intros Ha Ho Hact Hs Hv. unfold parse_args. cbn [existsb].
  rewrite (option_string_is_not_separator a o Ha Ho),
    (argument_is_not_separator s Hs). cbn [orb classify].
  rewrite (option_string_found a o Ha Ho), (reads_as_argument_spec s Hs).
  cbn [consume]. rewrite Hact, Hv. reflexivity.
Qed.

(** [--switch] on an otherwise empty command line. *)
Lemma parse_switch a o :
  In a parser -> In o a.(option_strings) -> a.(action) = store_true ->
  parse_args py_int py_float parser [o] =
  Some (Parsed (dict_set a.(dest) (VBool true) (initial_namespace parser))).
Proof.
  intros Ha Ho Hact. unfold parse_args. cbn [existsb].
  rewrite (option_string_is_not_separator a o Ha Ho). cbn [orb classify].
  rewrite (option_string_found a o Ha Ho).
  cbn [consume]. rewrite Hact. reflexivity.
Qed.

Lemma classify_app p argv1 argv2 :
  classify p (argv1 ++ argv2) =
  match classify p argv1, classify p argv2 with
  | Some ts1, Some ts2 => Some (ts1 ++ ts2)
  | _, _ => None
  end.
Proof.
  induction argv1 as [|s argv1 IH]; simpl.
  - destruct (classify p argv2); reflexivity.
  - rewrite IH. destruct (parse_optional p s); [|reflexivity].
    destruct (classify p argv1); [|reflexivity].
    destruct (classify p argv2); reflexivity.
Qed.

(** What follows an accepted command line is consumed from the
    namespace it gave. *)
Lemma consume_app tokens :
  forall more ns extras ns',
    consume py_int py_float parser tokens ns extras = Parsed ns' ->
    consume py_int py_float parser (tokens ++ more) ns extras =
    consume py_int py_float parser more ns' false.
Proof.
  remember (List.length tokens) as n eqn:Hn. revert tokens Hn.
  induction n as [n IH] using (well_founded_induction lt_wf).
  intros [|[s t] rest] Hn more ns extras ns'; cbn [app consume].
  - destruct extras; [discriminate|]. intros H. injection H as <-. reflexivity.
  - cbn [List.length] in Hn. destruct t as [|a explicit_arg|].
    + apply (IH (List.length rest)); [lia | reflexivity].
    + destruct (action a) as [type| |]; destruct explicit_arg as [e|];
        try discriminate.
      * destruct (String.eqb e "--");
          [apply (IH (List.length rest)); [lia | reflexivity]|].
        destruct (convert py_int py_float type e); [|discriminate].
        apply (IH (List.length rest)); [lia | reflexivity].
      * destruct rest as [|[s' [| |]] rest']; try discriminate. cbn [app].
        destruct (convert py_int py_float type s'); [|discriminate].
        apply (IH (List.length rest')); [cbn [List.length] in Hn; lia | reflexivity].
      * flag_cluster IH rest.
      * apply (IH (List.length rest)); [lia | reflexivity].
      * flag_cluster IH rest.
    + apply (IH (List.length rest)); [lia | reflexivity].
Qed.

Lemma parse_args_app argv more ns tokens :
  parse_args py_int py_float parser argv = Some (Parsed ns) ->
  existsb (String.eqb "--") more = false ->
  classify parser more = Some tokens ->
  parse_args py_int py_float parser (argv ++ more) =
  Some (consume py_int py_float parser tokens ns false).
Proof.
  unfold parse_args. intros Hargv Hsep Hmore. rewrite existsb_app, Hsep.
  destruct (existsb (String.eqb "--") argv); [discriminate|]. simpl.
  rewrite classify_app, Hmore.
  destruct (classify parser argv) as [ts|]; [|discriminate].
  injection Hargv as Hargv. rewrite (consume_app _ _ _ _ _ Hargv). reflexivity.
Qed.

(** [--opt value] after an accepted command line. *)
Lemma parse_stored_last a o type s v argv ns :
  In a parser -> In o a.(option_strings) -> a.(action) = store type ->
  reads_as_argument s = true ->
  convert py_int py_float type s = Some v ->
  parse_args py_int py_float parser argv = Some (Parsed ns) ->
  parse_args py_int py_float parser (argv ++ [o; s]) =
  Some (Parsed (dict_set a.(dest) v ns)).
Proof.
  intros Ha Ho Hact Hs Hv Hargv.
  rewrite (parse_args_app argv [o; s] ns [(o, Optional a None); (s, Positional)] Hargv).
  - cbn [consume]. rewrite Hact, Hv. reflexivity.
  - cbn [existsb]. rewrite (option_string_is_not_separator a o Ha Ho),
      (argument_is_not_separator s Hs). reflexivity.
  - cbn [classify]. rewrite (option_string_found a o Ha Ho),
      (reads_as_argument_spec s Hs). reflexivity.
Qed.

(** [--switch] after an accepted command line. *)
Lemma parse_switch_last a o argv ns :
  In a parser -> In o a.(option_strings) -> a.(action) = store_true ->
  parse_args py_int py_float parser argv = Some (Parsed ns) ->
  parse_args py_int py_float parser (argv ++ [o]) =
  Some (Parsed (dict_set a.(dest) (VBool true) ns)).
Proof.
  intros Ha Ho Hact Hargv.
  rewrite (parse_args_app argv [o] ns [(o, Optional a None)] Hargv).
  - cbn [consume]. rewrite Hact. reflexivity.
  - cbn [existsb]. rewrite (option_string_is_not_separator a o Ha Ho). reflexivity.
  - cbn [classify]. rewrite (option_string_found a o Ha Ho). reflexivity.
Qed.
End CommandLine.

Ltac declared := simpl; tauto.

Ltac stored_flag a :=
  intros s v Hs Hv; eexists; split;
  [ eapply (parse_stored _ _ a);
    [ declared | declared | reflexivity | exact Hs
    | unfold convert; rewrite Hv; reflexivity ]
  | reflexivity ].

Ltac switch_flag a :=
  eexists; split;
  [ eapply (parse_switch _ _ a); [ declared | declared | reflexivity ]
  | reflexivity ].

(** C3, as the code has it: the empty command line gives the
    documented defaults; each of the seven flags that take a value,
    given with a value that the parser reads as an argument and that
    [int] or [float] converts, sets its own attribute to that value and
    leaves the other defaults, and so does each of the three switches,
    given bare, with [True]; given after a command line that is
    accepted, a flag overrides its attribute in the namespace of that
    command line. *)
Theorem parse_args_defaults_and_overrides :
  forall (py_int : string -> option Z) (py_float : string -> option Q),
    let parses_to := parses_to py_int py_float in
    parses_to [] default_args /\
    (forall s v, reads_as_argument s = true -> py_int s = Some v ->
       parses_to ["--batch_size"; s]
         (mkArgs v 1000 14 1 (7 # 10) false false 1 10 false)) /\
    (forall s v, reads_as_argument s = true -> py_int s = Some v ->
       parses_to ["--test_batch_size"; s]
         (mkArgs 64 v 14 1 (7 # 10) false false 1 10 false)) /\
    (forall s v, reads_as_argument s = true -> py_int s = Some v ->
       parses_to ["--epochs"; s]
         (mkArgs 64 1000 v 1 (7 # 10) false false 1 10 false)) /\
    (forall s v, reads_as_argument s = true -> py_float s = Some v ->
       parses_to ["--lr"; s]
         (mkArgs 64 1000 14 v (7 # 10) false false 1 10 false)) /\
    (forall s v, reads_as_argument s = true -> py_float s = Some v ->
       parses_to ["--gamma"; s]
         (mkArgs 64 1000 14 1 v false false 1 10 false)) /\
    parses_to ["--no_cuda"]
      (mkArgs 64 1000 14 1 (7 # 10) true false 1 10 false) /\
    parses_to ["--dry_run"]
      (mkArgs 64 1000 14 1 (7 # 10) false true 1 10 false) /\
    (forall s v, reads_as_argument s = true -> py_int s = Some v ->
       parses_to ["--seed"; s]
         (mkArgs 64 1000 14 1 (7 # 10) false false v 10 false)) /\
    (forall s v, reads_as_argument s = true -> py_int s = Some v ->
       parses_to ["--log_interval"; s]
         (mkArgs 64 1000 14 1 (7 # 10) false false 1 v false)) /\
    parses_to ["--save_model"]
      (mkArgs 64 1000 14 1 (7 # 10) false false 1 10 true) /\
    (forall a o type s v argv ns,
        In a parser -> In o a.(option_strings) -> a.(action) = store type ->
        reads_as_argument s = true ->
        convert py_int py_float type s = Some v ->
        parse_args py_int py_float parser argv = Some (Parsed ns) ->
        parse_args py_int py_float parser (argv ++ [o; s]) =
        Some (Parsed (dict_set a.(dest) v ns))) /\
    (forall a o argv ns,
        In a parser -> In o a.(option_strings) -> a.(action) = store_true ->
        parse_args py_int py_float parser argv = Some (Parsed ns) ->
        parse_args py_int py_float parser (argv ++ [o]) =
        Some (Parsed (dict_set a.(dest) (VBool true) ns))).
Proof.
  intros py_int py_float parses_to. subst parses_to.
  split; [eexists; split; reflexivity|].
  split; [stored_flag (add_argument ["--batch_size"] (store type_int) "batch_size"
                         (Some (VInt 64)))|].
  split; [stored_flag (add_argument ["--test_batch_size"] (store type_int)
                         "test_batch_size" (Some (VInt 1000)))|].
  split; [stored_flag (add_argument ["--epochs"] (store type_int) "epochs"
                         (Some (VInt 14)))|].
  split; [stored_flag (add_argument ["--lr"] (store type_float) "lr"
                         (Some (VFloat 1)))|].
  split; [stored_flag (add_argument ["--gamma"] (store type_float) "gamma"
                         (Some (VFloat (7 # 10))))|].
  split; [switch_flag (add_argument ["--no_cuda"] store_true "no_cuda"
                         (Some (VBool false)))|].
  split; [switch_flag (add_argument ["--dry_run"] store_true "dry_run"
                         (Some (VBool false)))|].
  split; [stored_flag (add_argument ["--seed"] (store type_int) "seed"
                         (Some (VInt 1)))|].
  split; [stored_flag (add_argument ["--log_interval"] (store type_int)
                         "log_interval" (Some (VInt 10)))|].
  split; [switch_flag (add_argument ["--save_model"] store_true "save_model"
                         (Some (VBool false)))|].
  split.
  - intros a o type s v argv ns. apply parse_stored_last.
  - intros a o argv ns. apply parse_switch_last.
Qed.

(** C3 as worded fails: [float] converts [-1e-3], and [--lr -1e-3] does
    not set [lr]: the parser reads a token with a leading dash that is
    not a plain negative number as an option string, and exits with
    code 2. *)
Lemma converted_value_is_refused :
  float_with_exponent "-1e-3" = Some (-1 # 1000) /\
  reads_as_argument "-1e-3" = false /\
  parse_args decimal_int float_with_exponent parser ["--lr"; "-1e-3"] =
  Some (SystemExit 2).
Proof. repeat split; reflexivity. Qed.

Lemma dict_set_comm k1 v1 k2 v2 d :
  k1 <> k2 -> dict_get k1 d <> None ->
  dict_set k1 v1 (dict_set k2 v2 d) = dict_set k2 v2 (dict_set k1 v1 d).
Proof.
  intros Hk. induction d as [|[k v] d IH]; simpl; intros Hd; [contradiction|].
  destruct (String.eqb_spec k1 k) as [->|H1]; destruct (String.eqb_spec k2 k) as [->|H2];
    simpl.
  - contradiction.
  - rewrite String.eqb_refl. destruct (String.eqb_spec k2 k); [contradiction|].
    reflexivity.
  - rewrite String.eqb_refl. destruct (String.eqb_spec k1 k); [contradiction|].
    reflexivity.
  - destruct (String.eqb_spec k1 k); [contradiction|].
    destruct (String.eqb_spec k2 k); [contradiction|].
    rewrite IH by exact Hd. reflexivity.
Qed.

Lemma stored_dest_has_default a type :
  In a parser -> a.(action) = store type ->
  dict_get a.(dest) (initial_namespace parser) <> None.
Proof.
  intros Ha Hact. simpl in Ha.
  repeat (destruct Ha as [<-|Ha]; [first [discriminate Hact | discriminate]|]).
  contradiction.
Qed.

Lemma no_dash_is_positional p s :
  starts_with_dash s = false -> parse_optional p s = Some Positional.
Proof.
  intros H. unfold parse_optional. destruct (String.eqb s ""); [reflexivity|].
  rewrite H. reflexivity.
Qed.

Lemma dict_get_set k k' v d :
  dict_get k (dict_set k' v d) =
  if String.eqb k k' then Some v else dict_get k d.
Proof.
  induction d as [|[k0 v0] d IH]; cbn [dict_set dict_get].
  - reflexivity.
  - destruct (String.eqb_spec k' k0) as [<-|Hk0]; cbn [dict_get].
    + destruct (String.eqb k k'); reflexivity.
    + rewrite IH. destruct (String.eqb_spec k k0) as [->|Hk].
      * destruct (String.eqb_spec k0 k') as [->|_]; [contradiction | reflexivity].
      * reflexivity.
Qed.

Lemma dict_set_keeps k k' v d :
  dict_get k d <> None -> dict_get k (dict_set k' v d) <> None.
Proof.
  intros H. rewrite dict_get_set. destruct (String.eqb k k'); [discriminate | exact H].
Qed.

Lemma fold_store_keeps k gs :
  forall ns, dict_get k ns <> None ->
             dict_get k (fold_left store_setting gs ns) <> None.
Proof.
  induction gs as [|g gs IH]; intros ns H; cbn [fold_left]; [exact H|].
  apply IH, dict_set_keeps, H.
Qed.

Lemma fold_store_permutation gs gs' :
  Permutation gs gs' ->
  forall ns,
    NoDup (map setting_dest gs) ->
    (forall g, In g gs -> dict_get (setting_dest g) ns <> None) ->
    fold_left store_setting gs ns = fold_left store_setting gs' ns.
Proof.
  induction 1 as [|x l l' Hp IH|x y l|l l' l'' Hp1 IH1 Hp2 IH2];
    intros ns Hnd Hin; cbn [fold_left].
  - reflexivity.
  - cbn [map] in Hnd. apply NoDup_cons_iff in Hnd. destruct Hnd as [_ Hnd].
    apply IH; [exact Hnd|]. intros g Hg. apply dict_set_keeps, Hin. right. exact Hg.
  - f_equal. unfold store_setting. cbn [map] in Hnd.
    apply NoDup_cons_iff in Hnd. destruct Hnd as [Hxy _].
    apply dict_set_comm.
    + intros Heq. apply Hxy. left. exact Heq.
    + apply Hin. right. left. reflexivity.
  - rewrite (IH1 ns Hnd Hin). apply IH2.
    + eapply Permutation_NoDup; [|exact Hnd]. apply Permutation_map, Hp1.
    + intros g Hg. apply Hin. eapply Permutation_in; [|exact Hg].
      apply Permutation_sym, Hp1.
Qed.

Lemma fold_store_last name gs :
  forall ns,
    dict_get name (fold_left store_setting gs ns) =
    match last_written name gs with
    | Some g => Some g.(setting_value)
    | None => dict_get name ns
    end.
Proof.
  unfold last_written.
  induction gs as [|g gs IH] using rev_ind; intros ns; [reflexivity|].
  rewrite fold_left_app, rev_app_distr. cbn [fold_left rev app find].
  unfold store_setting at 1. rewrite dict_get_set.
  destruct (String.eqb name (setting_dest g)); [reflexivity | apply IH].
Qed.

Lemma written_dest_has_default py_int py_float g :
  written py_int py_float g ->
  dict_get (setting_dest g) (initial_namespace parser) <> None.
Proof.
  intros (Ha & _ & Hw). unfold setting_dest. cbn [In parser] in Ha.
  repeat (destruct Ha as [Ha'|Ha];
          [ rewrite <- Ha' in *; cbn [action dest] in *;
            first [ vm_compute; discriminate
                  | destruct (setting_text g); contradiction ] | ]).
  contradiction.
Qed.

Lemma default_is_initial a :
  In a parser -> dict_get (dest a) (initial_namespace parser) = default a.
Proof.
  intros Ha. cbn [In parser] in Ha.
  repeat (destruct Ha as [<-|Ha]; [reflexivity|]). contradiction.
Qed.

Section NamedOptions.
Variable py_int : string -> option Z.
Variable py_float : string -> option Q.

(** Once a token was left unrecognized the command line is refused,
    whatever follows. *)
Lemma consume_extras tokens :
  forall ns ns', consume py_int py_float parser tokens ns true <> Parsed ns'.
Proof.
  remember (List.length tokens) as n eqn:Hn. revert tokens Hn.
  induction n as [n IH] using (well_founded_induction lt_wf).
  intros [|[s t] rest] Hn ns ns'; cbn [consume]; [discriminate|].
  cbn [List.length] in Hn.
  destruct t as [|a explicit_arg|].
  - apply (IH (List.length rest)); [lia | reflexivity].
  - destruct (action a) as [type| |]; destruct explicit_arg as [e|]; try discriminate.
    + destruct (String.eqb e "--");
        [apply (IH (List.length rest)); [lia | reflexivity]|].
      destruct (convert py_int py_float type e); [|discriminate].
      apply (IH (List.length rest)); [lia | reflexivity].
    + destruct rest as [|[s' [| |]] rest']; try discriminate.
      destruct (convert py_int py_float type s'); [|discriminate].
      apply (IH (List.length rest')); [cbn [List.length] in Hn; lia | reflexivity].
    + flag_cluster IH rest.
    + apply (IH (List.length rest)); [lia | reflexivity].
    + flag_cluster IH rest.
  - apply (IH (List.length rest)); [lia | reflexivity].
Qed.

Lemma positional_first_is_refused tok argv ns :
  starts_with_dash tok = false ->
  parse_args py_int py_float parser (tok :: argv) <> Some (Parsed ns).
Proof.
  intros Htok. unfold parse_args.
  destruct (existsb (String.eqb "--") (tok :: argv)); [discriminate|].
  cbn [classify]. rewrite (no_dash_is_positional parser tok Htok).
  destruct (classify parser argv) as [tokens|]; [|discriminate].
  cbn [consume]. intros H. injection H as H. exact (consume_extras _ _ _ H).
Qed.

Lemma parse_settings gs :
  Forall (written py_int py_float) gs ->
  parse_args py_int py_float parser (flat_map setting_tokens gs) =
  Some (Parsed (fold_left store_setting gs (initial_namespace parser))).
Proof.
  induction gs as [|g gs IH] using rev_ind; intros Hw; [reflexivity|].
  apply Forall_app in Hw. destruct Hw as [Hgs Hg].
  apply Forall_inv in Hg. destruct Hg as (Ha & Ho & Hg).
  rewrite flat_map_app, fold_left_app. cbn [flat_map fold_left]. rewrite app_nil_r.
  unfold setting_tokens, store_setting, setting_dest.
  destruct (action (setting_argument g)) as [type| |] eqn:Hact;
    destruct (setting_text g) as [s|]; try contradiction.
  - destruct Hg as [Hs Hv].
    apply (parse_stored_last py_int py_float _ _ type); auto.
  - rewrite Hg. apply (parse_switch_last py_int py_float); auto.
Qed.
End NamedOptions.

(** C4, as the code has it: the flags are named options, not
    positional arguments.  A command line that starts with a token
    without a leading dash is never accepted, so no value is taken by
    its position.  A command line made of settings of the ten flags,
    [--name value] or the bare [--name] of a switch, is accepted
    whatever their order and number; each attribute of its namespace is
    the value of the last setting written under its name, and the
    default where there is none; and when no flag is repeated every
    reordering of the settings gives the same namespace. *)
Theorem flags_are_named_options :
  forall (py_int : string -> option Z) (py_float : string -> option Q),
    (forall tok argv ns,
        starts_with_dash tok = false ->
        parse_args py_int py_float parser (tok :: argv) <> Some (Parsed ns)) /\
    (forall gs,
        Forall (written py_int py_float) gs ->
        parse_args py_int py_float parser (flat_map setting_tokens gs) =
        Some (Parsed (fold_left store_setting gs (initial_namespace parser)))) /\
    (forall gs a,
        In a parser ->
        dict_get (dest a)
          (fold_left store_setting gs (initial_namespace parser)) =
        match last_written (dest a) gs with
        | Some g => Some (setting_value g)
        | None => default a
        end) /\
    (forall gs gs',
        Forall (written py_int py_float) gs ->
        NoDup (map setting_dest gs) ->
        Permutation gs gs' ->
        parse_args py_int py_float parser (flat_map setting_tokens gs') =
        parse_args py_int py_float parser (flat_map setting_tokens gs)).
Proof.
  intros py_int py_float. split; [|split; [|split]].
  - intros tok argv ns. apply positional_first_is_refused.
  - apply parse_settings.
  - intros gs a Ha. rewrite fold_store_last, (default_is_initial a Ha). reflexivity.
  - intros gs gs' Hw Hnd Hp.
    rewrite (parse_settings py_int py_float gs Hw).
    rewrite (parse_settings py_int py_float gs').
    + rewrite (fold_store_permutation gs gs' Hp); [reflexivity | exact Hnd |].
      intros g Hg. apply (written_dest_has_default py_int py_float).
      rewrite Forall_forall in Hw. apply Hw, Hg.
    + eapply Permutation_Forall; eassumption.
Qed.

(** C4 as worded fails: [128] alone on the command line, which the
    positional reading takes as the batch size, is refused by the
    parser of [main] (exit code 2), while [--batch_size 128] is what
    sets it. *)
Lemma flags_are_not_positional :
  parse_args decimal_int decimal_float parser ["128"] = Some (SystemExit 2) /\
  parse_positionally decimal_int decimal_float parser ["128"]
    (initial_namespace parser) =
  Parsed (dict_set "batch_size" (VInt 128) (initial_namespace parser)) /\
  parse_args decimal_int decimal_float parser ["--batch_size"; "128"] =
  Some (Parsed (dict_set "batch_size" (VInt 128) (initial_namespace parser))).
Proof. repeat split; reflexivity. Qed.

(** With decimal numerals for [int] and [float]. *)
Lemma flags_are_named_options_witness :
  (forall ns, parse_args decimal_int decimal_float parser ["128"; "--epochs"; "3"]
              <> Some (Parsed ns)) /\
  parse_args decimal_int decimal_float parser
    ["--lr"; "0.5"; "--epochs"; "3"; "--no_cuda"] =
  parse_args decimal_int decimal_float parser
    ["--epochs"; "3"; "--no_cuda"; "--lr"; "0.5"].
Proof.
  destruct (flags_are_named_options decimal_int decimal_float)
    as (Hpos & _ & _ & Hperm).
  split.
  - intros ns. apply Hpos. reflexivity.
  - apply (Hperm [epochs_3; no_cuda_set; lr_half] [lr_half; epochs_3; no_cuda_set]).
    + repeat constructor; unfold written; cbn; tauto.
    + repeat constructor; cbn; intuition discriminate.
    + apply Permutation_sym.
      apply (Permutation_cons_append [epochs_3; no_cuda_set] lr_half).
Defined.

(** ** Determinism *)

Lemma run_same_replies {E W1 W2 R}
    (handle1 : forall X, E X -> W1 -> Reply X * W1)
    (handle2 : forall X, E X -> W2 -> Reply X * W2)
    (related : W1 -> W2 -> Prop) :
  same_replies handle1 handle2 related ->
  forall fuel (t : itree (callE E) R) w1 w2,
    related w1 w2 ->
    outcome (run handle1 fuel t w1) = outcome (run handle2 fuel t w2) /\
    trace (run handle1 fuel t w1) = trace (run handle2 fuel t w2).
Proof.
  intros Hsame fuel. induction fuel as [|n IH]; intros t w1 w2 Hw;
    rewrite !run_unfold; destruct (observe t) as [r|t'|X e k]; simpl; auto.
  destruct e as [X e]. simpl.
  destruct (Hsame X e w1 w2 Hw) as [Hrep Hrel].
  destruct (handle1 X e w1) as [rep1 w1'], (handle2 X e w2) as [rep2 w2'].
  simpl in *. subst rep2.
  destruct (IH (k rep1) w1' w2' Hrel) as [Ho Htr]. simpl.
  rewrite Ho, Htr. auto.
Qed.

(** C1, as the code has it: [train] is deterministic in its arguments
    together with what the framework answers.  Two runs with the same
    rank, arguments and flag against frameworks that answer alike (the
    same batches, the same clock readings, the same failures) make the
    same calls, get the same replies and end the same way.  And what a
    run that returns has printed is the backend and the difference of
    the last and the first reading it took of the clock: the output is
    a function of what the clock answers, not of the rank, the
    arguments and the flag. *)
Theorem train_deterministic_given_the_framework :
  (forall W1 W2
          (handle1 : forall X, trainE X -> W1 -> Reply X * W1)
          (handle2 : forall X, trainE X -> W2 -> Reply X * W2)
          (related : W1 -> W2 -> Prop)
          cuda_is_available rank args use_cuda fuel w1 w2,
      same_replies handle1 handle2 related ->
      related w1 w2 ->
      outcome (run handle1 fuel (train cuda_is_available rank args use_cuda) w1) =
      outcome (run handle2 fuel (train cuda_is_available rank args use_cuda) w2) /\
      trace (run handle1 fuel (train cuda_is_available rank args use_cuda) w1) =
      trace (run handle2 fuel (train cuda_is_available rank args use_cuda) w2)) /\
  (forall World (handle : forall X, trainE X -> World -> Reply X * World)
          cuda_is_available rank args use_cuda,
      post handle (train cuda_is_available rank args use_cuda)
        (prints_backend_and_elapsed (BACKEND cuda_is_available))).
Proof.
  split.
  - intros W1 W2 handle1 handle2 related ca rank args use_cuda fuel w1 w2 Hsame Hw.
    apply (run_same_replies handle1 handle2 related Hsame). exact Hw.
  - intros. apply train_prints_backend_and_elapsed.
Qed.

(** C1 as worded fails: the same rank, arguments and flag, against the
    same framework with a clock that ticks twice as fast, print another
    elapsed time.  Both runs return. *)
Lemma train_output_depends_on_the_clock :
  let slow := run sim 60 (train false 0 one_epoch_args false) (sim_start 1 2) in
  let fast := run sim 60 (train false 0 one_epoch_args false) (sim_start 2 2) in
  outcome slow = Some (Ok tt) /\ outcome fast = Some (Ok tt) /\
  marks printed (trace slow) <> marks printed (trace fast).
Proof.
  vm_compute. split; [reflexivity|]. split; [reflexivity|]. discriminate.
Qed.

(** The small framework and the same framework counting its calls
    answer alike. *)
Lemma train_deterministic_witness :
  outcome (run sim 60 (train false 0 one_epoch_args false) (sim_start 1 2)) =
  outcome (run sim_counting 60 (train false 0 one_epoch_args false)
             (sim_start 1 2, O)) /\
  trace (run sim 60 (train false 0 one_epoch_args false) (sim_start 1 2)) =
  trace (run sim_counting 60 (train false 0 one_epoch_args false)
           (sim_start 1 2, O)).
Proof.
  destruct train_deterministic_given_the_framework as [Hsame _].
  apply (Hsame SimWorld (SimWorld * nat)%type sim sim_counting
           (fun w wn => w = fst wn)).
  - intros X e w1 [w2 n] Hw. simpl in Hw. subst w2. unfold sim_counting. simpl.
    destruct (sim X e w1) as [r w']. split; reflexivity.
  - reflexivity.
Defined.

(** ** The small framework *)

Lemma run_trace_complete {E World R}
    (handle : forall X, E X -> World -> Reply X * World)
    (t : itree (callE E) R) w fuel1 fuel2 :
  outcome (run handle fuel1 t w) <> None ->
  outcome (run handle fuel2 t w) <> None ->
  trace (run handle fuel1 t w) = trace (run handle fuel2 t w).
Proof.
  intros H1 H2.
  pose proof (run_more_fuel handle fuel1 fuel2 t w H1) as E1.
  pose proof (run_more_fuel handle fuel2 fuel1 t w H2) as E2.
  rewrite (Nat.add_comm fuel2 fuel1) in E2. rewrite E1 in E2.
  injection E2 as _ Htr _ _. exact Htr.
Qed.

Lemma sim_honours_dataloader_contract : honours sim dataloader_contract.
Proof.
  intros X e w. destruct e; try exact I. simpl.
  intros H. rewrite H. simpl. eexists. reflexivity.
Qed.

Lemma sim_raises_only_on_conflict : honours sim raises_only_on_conflict.
Proof.
  intros X e w. destruct e; try reflexivity.
  - simpl. destruct (shuffle_conflict kwargs); simpl; [eexists|]; reflexivity.
  - simpl. destruct (pending w); reflexivity.
  - intros (model & loss_fn & data & target & ->). reflexivity.
Qed.

Lemma sim_finite_batches : finite_batches sim pending.
Proof.
  split; [|split].
  - intros it w. simpl. destruct (pending w) as [|n] eqn:Hp; simpl; [exact I | lia].
  - intros t device w. simpl. lia.
  - intros optimizer model loss_fn data target w. simpl. lia.
Qed.

Lemma sim_clock_monotonic fuel :
  outcome (run sim fuel (train false 0 one_epoch_args false) (sim_start 3 2))
    = Some (Ok tt) ->
  clock_monotonic
    (trace (run sim fuel (train false 0 one_epoch_args false) (sim_start 3 2))).
Proof.
  intros Ho.
  rewrite (run_trace_complete sim _ _ fuel 60);
    [ | rewrite Ho; discriminate | vm_compute; discriminate ].
  vm_compute.
  repeat (constructor; try discriminate).
Qed.


(** One epoch of two batches on the small framework, the clock
    ticking by 3. *)
Lemma train_completes_witness :
  exists fuel t_start between t_stop,
    outcome (run sim fuel (train false 0 one_epoch_args false) (sim_start 3 2))
      = Some (Ok tt) /\
    marks clock_reading
      (trace (run sim fuel (train false 0 one_epoch_args false) (sim_start 3 2)))
      = t_start :: between ++ [t_stop] /\
    marks printed
      (trace (run sim fuel (train false 0 one_epoch_args false) (sim_start 3 2)))
      = [[VStr ("Using backend: " ++ Backend_str (BACKEND false))];
         [VStr "Total Time:"; VFloat (t_stop - t_start)]] /\
    (0 <= t_stop - t_start)%Q.
Proof.
  apply (train_completes_with_nonnegative_time SimWorld sim pending).
  - exact sim_raises_only_on_conflict.
  - exact sim_finite_batches.
  - exact sim_clock_monotonic.
Defined.

(** The defaults, and a namespace that differs in all the flags
    [train] does not read. *)
Lemma train_ignores_unused_flags_witness :
  train false 0 default_args false =
  train false 0 (mkArgs 64 7 14 (1 # 2) (9 # 10) false true 42 100 true) false /\
  (forall World (handle : forall X, trainE X -> World -> Reply X * World),
      post handle (train false 0 default_args false) builds_adadelta).
Proof.
  apply (train_ignores_unused_flags false 0 false default_args
           (mkArgs 64 7 14 (1 # 2) (9 # 10) false true 42 100 true));
    reflexivity.
Defined.

(** With decimal numerals for [int] and [float]. *)
Lemma parse_args_witness :
  parses_to decimal_int decimal_float [] default_args /\
  parses_to decimal_int decimal_float ["--epochs"; "3"]
    (mkArgs 64 1000 3 1 (7 # 10) false false 1 10 false) /\
  parses_to decimal_int decimal_float ["--seed"; "-1"]
    (mkArgs 64 1000 14 1 (7 # 10) false false (-1) 10 false) /\
  parses_to decimal_int decimal_float ["--no_cuda"]
    (mkArgs 64 1000 14 1 (7 # 10) true false 1 10 false).
Proof.
  destruct (parse_args_defaults_and_overrides decimal_int decimal_float)
    as (Hdefault & _ & _ & Hepochs & _ & _ & Hno_cuda & _ & Hseed & _).
  split; [exact Hdefault|].
  split; [apply Hepochs; reflexivity|].
  split; [apply Hseed; reflexivity | exact Hno_cuda].
Defined.

(** ** Further properties of [train] *)

Lemma ends_with_one {A} (x : A) : ends_with x [x].
Proof. exists []. reflexivity. Qed.

Lemma ends_with_cons {A} (x a : A) (l : list A) :
  ends_with x l -> ends_with x (a :: l).
Proof. intros [l0 ->]. exists (a :: l0). reflexivity. Qed.

Lemma ends_with_app {A} (x : A) (l1 l2 : list A) :
  ends_with x l2 -> ends_with x (l1 ++ l2).
Proof. intros [l0 ->]. exists (l1 ++ l0). apply app_assoc. Qed.

Section Train.
Context {World : Type}.
Variable handle : forall X, trainE X -> World -> Reply X * World.

(** X1: [train] first prints the backend, then joins the process
    group, by [init_process_group] with that backend, the address
    [tcp://localhost:29501], its rank and a world of [WORLD_SIZE]
    processes; it calls [init_process_group] only this once.  The
    backend follows [torch.cuda.is_available()] and not [use_cuda]. *)
Theorem train_starts_with_dist_init cuda_is_available rank args use_cuda :
  post handle (train cuda_is_available rank args use_cuda)
    (starts_with_dist_init rank WORLD_SIZE (BACKEND cuda_is_available)).
Proof.
  unfold train, dist_init. apply post_bind_assoc.
  eapply post_call_bind;
    [unconstrained | exact I | intros; split; [reflexivity | exact I] | intros [] _].
  eapply post_call_bind;
    [unconstrained | split; [reflexivity | exact I]
    | intros; split; [reflexivity | split; reflexivity] | intros [] _].
  apply post_conseq with (Q := every (fun ev => init_call ev = None)).
  - destruct use_cuda; loop_calls_ok.
  - intros o tr Htr. split; [reflexivity|]. split; [reflexivity|].
    apply marks_none, Htr.
Qed.

Lemma train_names_one_device cuda_is_available rank args use_cuda :
  post handle (train cuda_is_available rank args use_cuda)
    (every (on_device (train_device rank use_cuda))).
Proof. unfold train, dist_init. destruct use_cuda; loop_calls_ok. Qed.

Lemma train_moves_the_model_once cuda_is_available rank args use_cuda :
  post handle (train cuda_is_available rank args use_cuda)
    (fun o tr =>
       o = Some (Ok tt) ->
       exists net model,
         marks module_to_call tr = [(net, train_device rank use_cuda, Ok model)]).
Proof.
  unfold train, dist_init. destruct use_cuda; cbn [when].
  all: repeat first
         [ apply post_bind_assoc
         | apply post_ret_bind
         | eapply post_call_bind;
           [unconstrained | discriminate | intros; discriminate | intros ? _] ].
  all: eapply (post_seq handle _ _ (every (fun ev => module_to_call ev = None)));
    [loop_calls_ok | discriminate | intros; discriminate | ].
  all: intros [] tr Htr.
  all: repeat first
         [ apply post_ret_bind
         | eapply post_call_bind;
           [unconstrained | discriminate | intros; discriminate | intros ? _] ].
  all: eapply post_call; [unconstrained | discriminate | intros [[]|ex] _].
  all: try discriminate.
  all: intros _; eexists _, _; marks_of module_to_call;
    rewrite (marks_none _ _ Htr); cbn [app]; reflexivity.
Qed.

(** X2: [train] moves nothing to another device: every [.to(...)] it
    calls, on the model or on a tensor of a batch, names
    [torch.device(rank)] if [use_cuda] and [torch.device("cpu")]
    otherwise; and a run that returns has moved the model to that
    device, once. *)
Theorem train_moves_to_one_device cuda_is_available rank args use_cuda :
  post handle (train cuda_is_available rank args use_cuda)
    (moves_to_one_device (train_device rank use_cuda)).
Proof.
  intros fuel w. split.
  - apply train_names_one_device.
  - apply train_moves_the_model_once.
Qed.

(** X3: [train] calls into [torch.cuda] only if [use_cuda], and then
    always for the device of its own rank. *)
Theorem train_cuda_calls_only_on_cuda_path cuda_is_available rank args use_cuda :
  post handle (train cuda_is_available rank args use_cuda)
    (every (cuda_only_if rank use_cuda)).
Proof. unfold train, dist_init. destruct use_cuda; cbn [when]; loop_calls_ok. Qed.

(** X6: with [args.epochs] zero or negative, [range(args.epochs)] is
    empty: no epoch is set, the loader is not iterated, no tensor is
    moved and the optimizer never steps. *)
Theorem train_without_epochs cuda_is_available rank args use_cuda :
  (epochs args <= 0)%Z ->
  post handle (train cuda_is_available rank args use_cuda)
    (every outside_the_loops).
Proof.
  intros Hepochs. unfold train, dist_init.
  rewrite (range_nonpositive _ Hepochs). cbn [for_in].
  every_call_by ltac:(split; reflexivity).
Qed.

Ltac printed_so_far := unfold prints_two_lines; marks_of printed.

Ltac one_line := printed_so_far; split; [reflexivity | discriminate].

(** X7: [train] prints two lines and no more: the backend, before
    anything else, and ["Total Time:"] with a number, as its very last
    call.  Nothing is printed per epoch or per batch, and a run that
    returns has printed both lines. *)
Theorem train_prints_two_lines cuda_is_available rank args use_cuda :
  post handle (train cuda_is_available rank args use_cuda)
    (prints_two_lines (BACKEND cuda_is_available)).
Proof.
  unfold train, dist_init. destruct use_cuda; cbn [when].
  all: apply post_bind_assoc.
  all: eapply post_call_bind;
    [unconstrained | split; reflexivity | intros; one_line | intros [] _].
  all: repeat first
         [ apply post_bind_assoc
         | apply post_ret_bind
         | eapply post_call_bind;
           [unconstrained | one_line | intros; one_line | intros ? _] ].
  all: eapply (post_seq handle _ _ (every (fun ev => printed ev = None)));
    [loop_calls_ok | | | ].
  all: try (intros tr Htr; printed_so_far; rewrite (marks_none _ _ Htr);
            split; [reflexivity | discriminate]).
  all: try (intros ex tr Htr; printed_so_far; rewrite (marks_none _ _ Htr);
            split; [reflexivity | discriminate]).
  all: intros [] tr Htr.
  all: repeat first
         [ apply post_ret_bind
         | eapply post_call_bind; [unconstrained | | intros ? _ | intros ? _] ].
  all: try (eapply post_call; [unconstrained | | intros rep _]).
  all: printed_so_far; rewrite (marks_none _ _ Htr); cbn [app].
  all: try (split; [reflexivity | discriminate]).
  all: split; [reflexivity|]; split; [eexists; reflexivity|].
  all: exists rep; split; [|reflexivity].
  all: repeat first
         [ apply ends_with_one | apply ends_with_cons | apply ends_with_app ].
Qed.

Ltac wiring_marks :=
  unfold loader_wiring;
  repeat first
    [ rewrite marks_nil
    | rewrite marks_app
    | rewrite app_nil_r
    | rewrite marks_cons; cbn [loader_call mnist_call sampler_call reply_value] ].

Ltac no_loader := wiring_marks; exact I.

(** X4: [DataLoader] is called at most once; it is given the dataset
    [datasets.MNIST("../data", train=True, download=True, ...)] returned,
    [batch_size=args.batch_size], and as [sampler] the object
    [DistributedSampler] returned for this dataset, [WORLD_SIZE]
    replicas and this rank.  [num_workers=1], [pin_memory=True] and
    [shuffle=True] are passed if [use_cuda] and left out otherwise. *)
Theorem train_wires_the_loader cuda_is_available rank args use_cuda :
  post handle (train cuda_is_available rank args use_cuda)
    (loader_wiring rank args use_cuda).
Proof.
  unfold train, dist_init. destruct use_cuda; cbn [when].
  all: repeat first
         [ apply post_bind_assoc
         | apply post_ret_bind
         | eapply post_call_bind;
           [unconstrained | no_loader | intros; no_loader | intros ? _] ].
  all: eapply post_call_bind;
    [unconstrained | no_loader | intros ex _ | intros train_loader _].
  all: lazymatch goal with
       | |- post _ _ _ =>
           apply post_conseq with
             (Q := every (fun ev => loader_call ev = None /\
                                    mnist_call ev = None /\
                                    sampler_call ev = None));
           [ loop_calls_by ltac:(repeat split)
           | intros o tr Htr; wiring_marks;
             rewrite (marks_none_impl _ loader_call _ Htr) by (cbv beta; tauto);
             rewrite (marks_none_impl _ mnist_call _ Htr) by (cbv beta; tauto);
             rewrite (marks_none_impl _ sampler_call _ Htr) by (cbv beta; tauto) ]
       | |- _ => wiring_marks
       end.
  all: cbv beta iota; cbn [first_mark new_dataset new_sampler reply_value].
  all: repeat match goal with
              | |- _ /\ _ => split
              | |- exists _, _ => eexists
              end; reflexivity.
Qed.

Ltac chain_marks :=
  unfold optimizer_wiring;
  repeat first
    [ rewrite marks_nil
    | rewrite marks_app
    | rewrite app_nil_r
    | rewrite marks_cons;
      cbn [wrap_call module_new_call module_to_call parameters_call oss_reply
           reply_value] ].

Ltac not_wrapped := chain_marks; exact I.

(** X5: [ShardedDataParallel] is called at most once, and what it
    wraps is the model that [Net()] built and [.to(device)] returned,
    together with the optimizer [OSS] returned for the parameters of
    that same model; each of these four calls has been made once, and
    has succeeded, when the model is wrapped. *)
Theorem train_wires_the_optimizer cuda_is_available rank args use_cuda :
  post handle (train cuda_is_available rank args use_cuda)
    (optimizer_wiring rank use_cuda).
Proof.
  unfold train, dist_init. destruct use_cuda; cbn [when].
  all: repeat first
         [ apply post_bind_assoc
         | apply post_ret_bind
         | eapply post_call_bind;
           [unconstrained | not_wrapped | intros; not_wrapped | intros ? _] ].
  all: eapply post_call_bind;
    [unconstrained | not_wrapped | intros ex _ | intros model _].
  all: lazymatch goal with
       | |- post _ _ _ =>
           apply post_conseq with
             (Q := every (fun ev => wrap_call ev = None /\
                                    module_new_call ev = None /\
                                    module_to_call ev = None /\
                                    parameters_call ev = None /\
                                    oss_reply ev = None));
           [ loop_calls_by ltac:(repeat split)
           | intros o tr Htr; chain_marks;
             rewrite (marks_none_impl _ wrap_call _ Htr) by (cbv beta; tauto);
             rewrite (marks_none_impl _ module_new_call _ Htr) by (cbv beta; tauto);
             rewrite (marks_none_impl _ module_to_call _ Htr) by (cbv beta; tauto);
             rewrite (marks_none_impl _ parameters_call _ Htr) by (cbv beta; tauto);
             rewrite (marks_none_impl _ oss_reply _ Htr) by (cbv beta; tauto) ]
       | |- _ => chain_marks
       end.
  all: cbv beta iota.
  all: repeat match goal with
              | |- _ /\ _ => split
              | |- exists _, _ => eexists
              end; reflexivity.
Qed.

Ltac clock_so_far :=
  unfold clock_reads; marks_of clock_call; cbn [List.length];
  rewrite ?length_app; cbn [List.length].

Ltac clock_leaf :=
  clock_so_far; split; [lia | intros; first [discriminate | lia]].

Lemma train_epoch_clock s l dev opt m lf e :
  post handle (train_epoch s l dev opt m lf e) (clock_reads 2).
Proof.
  unfold train_epoch.
  do 3 (eapply post_call_bind;
        [unconstrained | clock_leaf | intros; clock_leaf | intros ? _]).
  eapply (post_seq handle _ _ (every (fun ev => clock_call ev = None))).
  - unfold for_enumerate. apply every_enumerate_from; [every_call_ok|].
    intros i [data target]. unfold train_batch. every_call_ok.
  - intros tr Htr. clock_so_far. rewrite (marks_none _ _ Htr).
    split; [simpl; lia | discriminate].
  - intros ex tr Htr. clock_so_far. rewrite (marks_none _ _ Htr).
    split; [simpl; lia | discriminate].
  - intros [] tr Htr.
    eapply post_call_bind;
      [unconstrained | | intros ex _ | intros epoch_end _; apply post_ret].
    all: clock_so_far; rewrite (marks_none _ _ Htr);
      split; [simpl; lia | intros; first [discriminate | reflexivity]].
Qed.

Lemma for_in_epochs_clock s l dev opt m lf es :
  post handle (for_in es (train_epoch s l dev opt m lf))
    (clock_reads (2 * List.length es)).
Proof.
  induction es as [|e es IH]; cbn [for_in].
  - apply post_ret. split; [simpl; lia | reflexivity].
  - eapply post_seq; [apply train_epoch_clock | | | ].
    + intros tr [Hle _]. split; [simpl; lia | discriminate].
    + intros ex tr [Hle _]. split; [simpl; lia | discriminate].
    + intros [] tr [_ Htr]. specialize (Htr eq_refl).
      eapply post_conseq; [exact IH|]. intros o tr' [Hle Hall].
      unfold clock_reads. rewrite marks_app, length_app, Htr.
      split; [simpl; lia | intros Ho; rewrite (Hall Ho); simpl; lia].
Qed.

(** X8: [train] reads [time.monotonic()] twice around the epoch loop
    and twice in each epoch, never per batch: a run that returns has
    taken [2 + 2 * args.epochs] readings (two if [args.epochs] is
    negative), and no run takes more. *)
Theorem train_reads_clock_per_epoch cuda_is_available rank args use_cuda :
  post handle (train cuda_is_available rank args use_cuda)
    (reads_clock_per_epoch args).
Proof.
  unfold reads_clock_per_epoch. rewrite <- (range_length (epochs args)).
  unfold train, dist_init. destruct use_cuda; cbn [when].
  all: repeat first
         [ apply post_bind_assoc
         | apply post_ret_bind
         | eapply post_call_bind;
           [unconstrained | clock_leaf | intros; clock_leaf | intros ? _] ].
  all: eapply post_seq; [apply for_in_epochs_clock | | | ].
  all: try (intros tr [Hle _]; clock_so_far; split; [lia | discriminate]).
  all: try (intros ex tr [Hle _]; clock_so_far; split; [lia | discriminate]).
  all: intros [] tr [_ Htr]; specialize (Htr eq_refl).
  all: repeat first
         [ apply post_ret_bind
         | eapply post_call_bind; [unconstrained | | intros ? _ | intros ? _]
         | eapply post_call; [unconstrained | | intros [[]|?] _] ].
  all: clock_so_far; split; [lia | intros; first [discriminate | lia]].
Qed.
End Train.

(** ** What [Net.forward] accepts *)

Lemma window_out_stride_one size k : window_out size k 1 = (size - k + 1)%Z.
Proof. unfold window_out. rewrite Z.div_1_r. reflexivity. Qed.

Lemma shape_linear_last_matrix l n d :
  shape_linear_last l [n; d] =
  if (d =? in_features l)%Z then Ok [n; out_features l]
  else shape_error "mat1 and mat2 shapes cannot be multiplied".
Proof. cbn [shape_linear_last]. destruct (d =? in_features l)%Z; reflexivity. Qed.

Ltac refused :=
  unfold shape_error; cbn [and_then]; split;
  [ discriminate
  | intros [(n' & h' & w' & Hx & Hh & Hw & Hp & _)|(h' & w' & Hx & Hh & Hw & Hp & _)];
    first [discriminate Hx | injection Hx; intros; subst; lia] ].

(** X9: on the shape of a tensor, [Net.forward] returns exactly in two
    cases.  One is a batch [(n, 1, h, w)] of one-channel images, at
    least 6 by 6, whose feature map after the two convolutions and the
    pooling has the 144 positions per channel that
    [fc1 = nn.Linear(9216, 128)] expects with 64 channels; the result
    has the shape [(n, 10)].  The other is one unbatched image
    [(1, h, w)] whose feature map has 9216 positions: its 64 channels
    are then taken for a batch, and the result has the shape
    [(64, 10)].  On any other shape one of the operations raises.  28
    by 28 is a size of the first kind, and not the only one. *)
Theorem forward_accepts_exactly (x y : Shape) :
  Forall (fun d => (0 < d)%Z) x ->
  forward Net__init__ x = Ok y <->
  (exists n h w,
      x = [n; 1; h; w] /\ (6 <= h)%Z /\ (6 <= w)%Z /\
      (window_out (h - 4) 2 2 * window_out (w - 4) 2 2 = 144)%Z /\
      y = [n; 10]) \/
  (exists h w,
      x = [1; h; w] /\ (6 <= h)%Z /\ (6 <= w)%Z /\
      (window_out (h - 4) 2 2 * window_out (w - 4) 2 2 = 9216)%Z /\
      y = [64; 10]).
Proof.
  intros _. unfold forward.
  cbn [conv2d relu max_pool2d dropout2d flatten linear log_softmax shape_ops
       Net__init__ conv1 conv2 fc1 fc2 dropout1 dropout2 and_then].
  destruct x as [|a [|b [|c [|e [|v x]]]]];
    try (split; [discriminate
                | intros [(n' & h' & w' & Hx & _)|(h' & w' & Hx & _)];
                  discriminate Hx]).
  - unfold shape_conv2d at 1. unfold conv2d_planes at 1.
    cbn [in_channels out_channels kernel_size stride app].
    destruct (Z.eqb_spec a 1) as [->|Hch]; cbn [negb and_then]; [|refused].
    destruct (Z.ltb_spec b 3); cbn [orb and_then]; [refused|].
    destruct (Z.ltb_spec c 3); cbn [orb and_then]; [refused|].
    rewrite !window_out_stride_one.
    unfold shape_conv2d, conv2d_planes.
    cbn [in_channels out_channels kernel_size stride app].
    change (negb (32 =? 32)%Z) with false. cbv iota.
    destruct (Z.ltb_spec (b - 3 + 1)%Z 3); cbn [orb and_then]; [refused|].
    destruct (Z.ltb_spec (c - 3 + 1)%Z 3); cbn [orb and_then]; [refused|].
    rewrite !window_out_stride_one.
    replace (b - 3 + 1 - 3 + 1)%Z with (b - 4)%Z by lia.
    replace (c - 3 + 1 - 3 + 1)%Z with (c - 4)%Z by lia.
    unfold shape_max_pool2d, max_pool2d_planes. cbn [app].
    destruct (Z.ltb_spec (b - 4)%Z 2); cbn [orb and_then]; [refused|].
    destruct (Z.ltb_spec (c - 4)%Z 2); cbn [orb and_then]; [refused|].
    change (shape_flatten [64; window_out (b - 4) 2 2; window_out (c - 4) 2 2] 1)%Z
      with (Ok [64; window_out (b - 4) 2 2 * (window_out (c - 4) 2 2 * 1)]%Z).
    cbn [and_then]. rewrite shape_linear_last_matrix. cbn [in_features out_features].
    destruct (Z.eqb_spec (window_out (b - 4) 2 2 * (window_out (c - 4) 2 2 * 1))%Z 9216)
      as [Hfc|Hfc]; cbn [and_then]; [|refused].
    rewrite shape_linear_last_matrix. cbn [in_features out_features].
    change (128 =? 128)%Z with true. cbv iota.
    change (shape_log_softmax [64; 10] 1) with (Ok [64; 10]). cbn [and_then].
    split.
    + intros Hy. injection Hy as <-. right. exists b, c. repeat split; lia.
    + intros [(n' & h' & w' & Hx & _)|(h' & w' & Hx & _ & _ & _ & ->)];
        [discriminate Hx | reflexivity].
  - unfold shape_conv2d at 1. unfold conv2d_planes at 1.
    cbn [in_channels out_channels kernel_size stride app].
    destruct (Z.eqb_spec b 1) as [->|Hch]; cbn [negb and_then]; [|refused].
    destruct (Z.ltb_spec c 3); cbn [orb and_then]; [refused|].
    destruct (Z.ltb_spec e 3); cbn [orb and_then]; [refused|].
    rewrite !window_out_stride_one.
    unfold shape_conv2d, conv2d_planes.
    cbn [in_channels out_channels kernel_size stride app].
    change (negb (32 =? 32)%Z) with false. cbv iota.
    destruct (Z.ltb_spec (c - 3 + 1)%Z 3); cbn [orb and_then]; [refused|].
    destruct (Z.ltb_spec (e - 3 + 1)%Z 3); cbn [orb and_then]; [refused|].
    rewrite !window_out_stride_one.
    replace (c - 3 + 1 - 3 + 1)%Z with (c - 4)%Z by lia.
    replace (e - 3 + 1 - 3 + 1)%Z with (e - 4)%Z by lia.
    unfold shape_max_pool2d, max_pool2d_planes. cbn [app].
    destruct (Z.ltb_spec (c - 4)%Z 2); cbn [orb and_then]; [refused|].
    destruct (Z.ltb_spec (e - 4)%Z 2); cbn [orb and_then]; [refused|].
    change (shape_flatten [a; 64; window_out (c - 4) 2 2; window_out (e - 4) 2 2] 1)%Z
      with (Ok [a; 64 * (window_out (c - 4) 2 2 * (window_out (e - 4) 2 2 * 1))]%Z).
    cbn [and_then]. rewrite shape_linear_last_matrix. cbn [in_features out_features].
    destruct (Z.eqb_spec
                (64 * (window_out (c - 4) 2 2 * (window_out (e - 4) 2 2 * 1)))%Z 9216)
      as [Hfc|Hfc]; cbn [and_then]; [|refused].
    rewrite shape_linear_last_matrix. cbn [in_features out_features].
    change (128 =? 128)%Z with true. cbv iota.
    change (shape_log_softmax [a; 10] 1) with (Ok [a; 10]). cbn [and_then].
    split.
    + intros Hy. injection Hy as <-. left. exists a, c, e. repeat split; lia.
    + intros [(n' & h' & w' & Hx & _ & _ & _ & ->)|(h' & w' & Hx & _)];
        [injection Hx; intros; subst; reflexivity | discriminate Hx].
Qed.

(** ** Further properties of the command line *)

Lemma option_table_in p oa : In oa (option_table p) -> In (snd oa) p.
Proof.
  destruct oa as [o a]. intros Hin. unfold option_table in Hin.
  apply in_flat_map in Hin. destruct Hin as (a0 & Ha0 & Hin).
  apply in_map_iff in Hin. destruct Hin as (o0 & Heq & _).
  injection Heq as _ <-. exact Ha0.
Qed.

Lemma find_option_in p s a : find_option p s = Some a -> In a p.
Proof.
  unfold find_option. destruct (find _ _) as [oa|] eqn:Hfind; [|discriminate].
  intros H. injection H as <-. apply find_some in Hfind.
  apply option_table_in, Hfind.
Qed.

(** What a token of the command line may be read as. *)
Lemma parse_optional_cases p s t :
  parse_optional p s = Some t ->
  t = Positional \/ t = Unknown \/
  (exists a, find_option p s = Some a /\ t = Optional a None) \/
  (exists a, find_option p (fst (split_explicit s)) = Some a /\
             t = Optional a (snd (split_explicit s)) /\
             snd (split_explicit s) <> None) \/
  In t (option_tuples p s).
Proof.
  unfold parse_optional.
  destruct (String.eqb s ""); [intros H; injection H as <-; auto|].
  destruct (negb (starts_with_dash s)); [intros H; injection H as <-; auto|].
  destruct (find_option p s) as [a|] eqn:Hfind.
  { intros H. injection H as <-. right. right. left. exists a. auto. }
  destruct (String.length s =? 1)%nat; [intros H; injection H as <-; auto|].
  assert (Hrest :
    match option_tuples p s with
    | [] => if looks_like_negative_number s then Some Positional
            else if contains_space s then Some Positional else Some Unknown
    | [t] => Some t
    | _ => None
    end = Some t ->
    t = Positional \/ t = Unknown \/ In t (option_tuples p s)).
  { destruct (option_tuples p s) as [|t0 [|t1 ts]].
    - destruct (looks_like_negative_number s); [|destruct (contains_space s)];
        intros H; injection H as <-; auto.
    - intros H. injection H as <-. right. right. left. reflexivity.
    - discriminate. }
  destruct (split_explicit s) as [option_string [explicit_arg|]];
    [|intros H; apply Hrest in H; tauto].
  cbn [fst snd].
  destruct (find_option p option_string) as [a|] eqn:Hfind';
    [|intros H; apply Hrest in H; tauto].
  intros H. injection H as <-. right. right. right. left.
  exists a. repeat split; discriminate.
Qed.

Lemma option_tuples_cases p s t :
  In t (option_tuples p s) ->
  exists oa,
    In oa (option_table p) /\
    (t = Optional (snd oa) (snd (split_explicit s)) \/
     t = Optional (snd oa) None \/
     (String.eqb (fst oa) (substring 0 2 s) = true /\
      t = Optional (snd oa) (Some (substring 2 (String.length s - 2) s)))).
Proof.
  unfold option_tuples.
  destruct (starts_with_two_dashes s).
  - destruct (split_explicit s) as [option_prefix explicit_arg]. cbn [snd].
    intros Ht. apply in_flat_map in Ht. destruct Ht as (oa & Hoa & Ht).
    exists oa. split; [exact Hoa|].
    destruct (String.prefix _ _); [|contradiction].
    destruct Ht as [<-|[]]. left. reflexivity.
  - intros Ht. apply in_flat_map in Ht. destruct Ht as (oa & Hoa & Ht).
    exists oa. split; [exact Hoa|].
    destruct (String.eqb (fst oa) _) eqn:Heq.
    + destruct Ht as [<-|[]]. right. right. split; reflexivity.
    + destruct (String.prefix _ _); [|contradiction].
      destruct Ht as [<-|[]]. right. left. reflexivity.
Qed.

Lemma parse_optional_declared p s t :
  parse_optional p s = Some t -> declared_token p t.
Proof.
  intros H. apply parse_optional_cases in H.
  destruct H as [->|[->|[(a & Ha & ->)|[(a & Ha & -> & _)|Ht]]]];
    try exact I; try (apply (find_option_in _ _ _ Ha)).
  apply option_tuples_cases in Ht.
  destruct Ht as (oa & Hoa & [->|[->|[_ ->]]]); apply option_table_in, Hoa.
Qed.

Lemma substring_length_le n s : (String.length (substring 0 n s) <= n)%nat.
Proof.
  revert s. induction n as [|n IH]; intros [|c s]; cbn [substring String.length];
    try lia.
  specialize (IH s). lia.
Qed.

(** The options of [main] that take a value have no short option
    string. *)
Lemma short_option_takes_no_value oa x :
  In oa (option_table parser) ->
  String.eqb (fst oa) x = true -> (String.length x <= 2)%nat ->
  action (snd oa) = help.
Proof.
  intros Hoa Heq Hlen. apply String.eqb_eq in Heq. subst x.
  cbn in Hoa.
  repeat (destruct Hoa as [<-|Hoa]; [first [reflexivity | cbn in Hlen; lia]|]).
  contradiction.
Qed.

Lemma parse_optional_no_list s t :
  parse_optional parser s = Some t ->
  mentions_separator s = false -> no_list_token t.
Proof.
  intros H Hsep. unfold mentions_separator in Hsep.
  apply orb_false_elim in Hsep. destruct Hsep as [_ Hsep].
  assert (Hsplit : forall a,
             no_list_token (Optional a (snd (split_explicit s)))).
  { intros a. cbn [no_list_token].
    destruct (split_explicit s) as [os [e|]]; cbn [snd]; [|exact I].
    destruct (action a); try exact I.
    intros ->. discriminate Hsep. }
  apply parse_optional_cases in H.
  destruct H as [->|[->|[(a & Ha & ->)|[(a & Ha & -> & _)|Ht]]]];
    try exact I; try apply Hsplit.
  apply option_tuples_cases in Ht.
  destruct Ht as (oa & Hoa & [->|[->|[Heq ->]]]);
    [apply Hsplit | exact I |].
  cbn [no_list_token].
  rewrite (short_option_takes_no_value oa _ Hoa Heq (substring_length_le 2 s)).
  exact I.
Qed.

Lemma classify_tokens p (P : string -> Prop) (T : Token -> Prop) :
  (forall s t, P s -> parse_optional p s = Some t -> T t) ->
  forall argv tokens,
    Forall P argv -> classify p argv = Some tokens ->
    Forall (fun st => T (snd st)) tokens.
Proof.
  intros HT argv. induction argv as [|s argv IH]; intros tokens Hargv; cbn [classify].
  - intros H. injection H as <-. constructor.
  - destruct (parse_optional p s) as [t|] eqn:Ht; [|discriminate].
    destruct (classify p argv) as [ts|]; [|discriminate].
    intros H. injection H as <-. inversion Hargv; subst.
    constructor; [eapply HT; eassumption | apply IH; auto].
Qed.

Lemma classify_declared p argv tokens :
  classify p argv = Some tokens ->
  Forall (fun st => declared_token p (snd st)) tokens.
Proof.
  apply (classify_tokens p (fun _ => True)).
  - intros s t _. apply parse_optional_declared.
  - apply Forall_forall. intros; exact I.
Qed.

Lemma classify_no_list argv tokens :
  existsb mentions_separator argv = false ->
  classify parser argv = Some tokens ->
  Forall (fun st => no_list_token (snd st)) tokens.
Proof.
  intros Hsep.
  apply (classify_tokens parser (fun s => mentions_separator s = false)).
  - intros s t Hs Ht. apply (parse_optional_no_list s t Ht Hs).
  - apply Forall_forall. intros s Hs.
    destruct (mentions_separator s) eqn:Hm; [|reflexivity].
    rewrite <- Hsep. symmetry. apply existsb_exists. exists s. auto.
Qed.

Lemma classify_in p argv tokens s :
  classify p argv = Some tokens -> In s argv ->
  exists t, parse_optional p s = Some t /\ In (s, t) tokens.
Proof.
  revert tokens. induction argv as [|s0 argv IH]; intros tokens; cbn [classify].
  - intros _ [].
  - destruct (parse_optional p s0) as [t0|] eqn:Ht0; [|discriminate].
    destruct (classify p argv) as [ts|]; [|discriminate].
    intros H. injection H as <-. intros [->|Hin].
    + exists t0. split; [exact Ht0 | left; reflexivity].
    + destruct (IH ts eq_refl Hin) as (t & Ht & Hts).
      exists t. split; [exact Ht | right; exact Hts].
Qed.

Lemma cluster_declared p tail flags :
  cluster p tail = Some flags ->
  Forall (fun a => In a p /\ action a <> help -> action a = store_true) flags /\
  Forall (fun a => In a p) flags.
Proof.
  revert flags. induction tail as [|c tail IH]; intros flags; cbn [cluster].
  - intros H. injection H as <-. split; constructor.
  - destruct (find_option p _) as [a|] eqn:Ha; [|discriminate].
    pose proof (find_option_in _ _ _ Ha) as Hin.
    destruct (action a) eqn:Hact; [discriminate| |];
      destruct (cluster p tail) as [fs|]; try discriminate;
      intros H; injection H as <-; destruct (IH fs eq_refl) as [H1 H2];
      split; constructor; auto.
    intros [_ Hne]. contradiction.
Qed.

Section Consume.
Variable py_int : string -> option Z.
Variable py_float : string -> option Q.
Variable p : list Argument.
Variable T : Token -> Prop.
Variable Inv : Dict -> Prop.
Hypothesis Inv_flag :
  forall a ns, In a p -> action a = store_true -> Inv ns ->
               Inv (dict_set (dest a) (VBool true) ns).
Hypothesis Inv_value :
  forall a type s v ns,
    In a p -> action a = store type -> convert py_int py_float type s = Some v ->
    Inv ns -> Inv (dict_set (dest a) v ns).
Hypothesis Inv_list :
  forall a type ns,
    In a p -> action a = store type -> T (Optional a (Some "--")) ->
    Inv ns -> Inv (dict_set (dest a) (VList []) ns).

Lemma take_flags_keeps flags :
  forall ns ns',
    Forall (fun a => In a p) flags ->
    take_flags flags ns = inl ns' -> Inv ns -> Inv ns'.
Proof.
  induction flags as [|a flags IH]; intros ns ns' Hin; cbn [take_flags].
  - intros H. injection H as <-. auto.
  - inversion Hin; subst. destruct (action a) eqn:Hact; try discriminate.
    intros H HI. eapply IH; eauto.
Qed.

(** The tokens before one that is not taken for a value are consumed
    first, and what they store keeps an invariant of the namespace. *)
Lemma consume_reaches tokens :
  forall rest ns extras ns',
    Forall (fun st => declared_token p (snd st)) tokens ->
    Forall (fun st => T (snd st)) tokens ->
    not_a_value rest ->
    Inv ns ->
    consume py_int py_float p (tokens ++ rest) ns extras = Parsed ns' ->
    exists ns1 extras1,
      Inv ns1 /\ consume py_int py_float p rest ns1 extras1 = Parsed ns'.
Proof.
  remember (List.length tokens) as n eqn:Hn. revert tokens Hn.
  induction n as [n IH] using (well_founded_induction lt_wf).
  intros [|[s t] tokens] Hn rest ns extras ns' Hdecl HT Hrest HI; cbn [app].
  - intros H. exists ns, extras. split; assumption.
  - cbn [List.length] in Hn.
    inversion Hdecl as [|? ? Ha Hdecl']; subst.
    inversion HT as [|? ? Ht HT']; subst.
    cbn [snd] in Ha, Ht. cbn [consume].
    destruct t as [|a explicit_arg|].
    + apply (IH (List.length tokens)); auto; lia.
    + cbn [declared_token] in Ha.
      destruct (action a) as [type| |] eqn:Hact; destruct explicit_arg as [e|];
        try discriminate.
      * destruct (String.eqb_spec e "--") as [->|_].
        -- apply (IH (List.length tokens)); eauto; lia.
        -- destruct (convert py_int py_float type e) as [v|] eqn:Hv; [|discriminate].
           apply (IH (List.length tokens)); eauto; lia.
      * destruct tokens as [|[s' t'] tokens']; cbn [app].
        -- destruct rest as [|[s' [| |]] rest']; try discriminate.
           destruct Hrest.
        -- destruct t'; try discriminate.
           destruct (convert py_int py_float type s') as [v|] eqn:Hv; [|discriminate].
           inversion Hdecl'; inversion HT'; subst.
           apply (IH (List.length tokens')); eauto; cbn [List.length] in *; lia.
      * destruct (_ || _); [discriminate|].
        destruct (cluster p e) as [flags|] eqn:Hflags; [|discriminate].
        destruct (take_flags (a :: flags) ns) as [ns1|code] eqn:Hns1; [|discriminate].
        assert (HI1 : Inv ns1).
        { eapply take_flags_keeps; [| exact Hns1 | exact HI].
          constructor; [exact Ha | apply (cluster_declared _ _ _ Hflags)]. }
        apply (IH (List.length tokens)); auto; lia.
      * apply (IH (List.length tokens)); auto; lia.
      * destruct (_ || _); [discriminate|].
        destruct (cluster p e) as [flags|] eqn:Hflags; [|discriminate].
        destruct (take_flags (a :: flags) ns) as [ns1|code] eqn:Hns1; [|discriminate].
        assert (HI1 : Inv ns1).
        { eapply take_flags_keeps; [| exact Hns1 | exact HI].
          constructor; [exact Ha | apply (cluster_declared _ _ _ Hflags)]. }
        apply (IH (List.length tokens)); auto; lia.
    + apply (IH (List.length tokens)); auto; lia.
Qed.

Lemma consume_all tokens ns extras ns' :
  Forall (fun st => declared_token p (snd st)) tokens ->
  Forall (fun st => T (snd st)) tokens ->
  Inv ns ->
  consume py_int py_float p tokens ns extras = Parsed ns' ->
  Inv ns'.
Proof.
  intros Hdecl HT HI Hparsed. rewrite <- (app_nil_r tokens) in Hparsed.
  destruct (consume_reaches tokens [] ns extras ns' Hdecl HT I HI Hparsed)
    as (ns1 & extras1 & HI1 & Hend).
  cbn [consume] in Hend. destruct extras1; [discriminate|].
  injection Hend as <-. exact HI1.
Qed.
End Consume.

Lemma namespace_args_inv ns args :
  namespace_args ns = Some args ->
  dict_get "batch_size" ns = Some (VInt (batch_size args)) /\
  dict_get "test_batch_size" ns = Some (VInt (test_batch_size args)) /\
  dict_get "epochs" ns = Some (VInt (epochs args)) /\
  dict_get "lr" ns = Some (VFloat (lr args)) /\
  dict_get "gamma" ns = Some (VFloat (gamma args)) /\
  dict_get "no_cuda" ns = Some (VBool (no_cuda args)) /\
  dict_get "dry_run" ns = Some (VBool (dry_run args)) /\
  dict_get "seed" ns = Some (VInt (seed args)) /\
  dict_get "log_interval" ns = Some (VInt (log_interval args)) /\
  dict_get "save_model" ns = Some (VBool (save_model args)).
Proof.
  unfold namespace_args.
  destruct (dict_get "batch_size" ns) as [[]|]; try discriminate.
  destruct (dict_get "test_batch_size" ns) as [[]|]; try discriminate.
  destruct (dict_get "epochs" ns) as [[]|]; try discriminate.
  destruct (dict_get "lr" ns) as [[]|]; try discriminate.
  destruct (dict_get "gamma" ns) as [[]|]; try discriminate.
  destruct (dict_get "no_cuda" ns) as [[]|]; try discriminate.
  destruct (dict_get "dry_run" ns) as [[]|]; try discriminate.
  destruct (dict_get "seed" ns) as [[]|]; try discriminate.
  destruct (dict_get "log_interval" ns) as [[]|]; try discriminate.
  destruct (dict_get "save_model" ns) as [[]|]; try discriminate.
  intros H. injection H as <-. cbn. repeat split.
Qed.

Section Namespace.
Variable py_int : string -> option Z.
Variable py_float : string -> option Q.

Lemma converted_int s v :
  convert py_int py_float type_int s = Some v -> exists z, v = VInt z.
Proof.
  unfold convert. destruct (py_int s) as [z|]; [|discriminate].
  intros H. injection H as <-. exists z. reflexivity.
Qed.

Lemma converted_float s v :
  convert py_int py_float type_float s = Some v -> exists q, v = VFloat q.
Proof.
  unfold convert. destruct (py_float s) as [q|]; [|discriminate].
  intros H. injection H as <-. exists q. reflexivity.
Qed.

Ltac attribute_set :=
  unfold namespace_args; rewrite !dict_get_set; cbn [String.eqb Ascii.eqb Bool.eqb];
  repeat match goal with H : dict_get _ _ = Some _ |- _ => rewrite H; clear H end;
  eexists; reflexivity.

(** Setting a switch keeps the ten attributes and their types. *)
Lemma namespace_args_flag a ns :
  In a parser -> action a = store_true ->
  (exists args, namespace_args ns = Some args) ->
  exists args, namespace_args (dict_set (dest a) (VBool true) ns) = Some args.
Proof.
  intros Ha Hact [args Hargs]. apply namespace_args_inv in Hargs.
  destruct Hargs as (H1 & H2 & H3 & H4 & H5 & H6 & H7 & H8 & H9 & H10).
  cbn [In parser] in Ha.
  repeat (destruct Ha as [<-|Ha];
          [ cbn [action dest] in *; first [discriminate Hact | attribute_set] | ]).
  contradiction.
Qed.

(** So does storing what [int] or [float] made of a value. *)
Lemma namespace_args_value a type s v ns :
  In a parser -> action a = store type ->
  convert py_int py_float type s = Some v ->
  (exists args, namespace_args ns = Some args) ->
  exists args, namespace_args (dict_set (dest a) v ns) = Some args.
Proof.
  intros Ha Hact Hv [args Hargs]. apply namespace_args_inv in Hargs.
  destruct Hargs as (H1 & H2 & H3 & H4 & H5 & H6 & H7 & H8 & H9 & H10).
  cbn [In parser] in Ha.
  repeat (destruct Ha as [<-|Ha];
          [ cbn [action dest] in *;
            first [ discriminate Hact
                  | injection Hact as <-;
                    first [ apply converted_int in Hv | apply converted_float in Hv ];
                    destruct Hv as [x ->]; attribute_set ] | ]).
  contradiction.
Qed.
End Namespace.

Section Main.
Variable py_int : string -> option Z.
Variable py_float : string -> option Q.

(** What an accepted command line leaves has the ten attributes [main]
    and [train] read, each of its type, unless the separator was
    handed to an option. *)
Lemma parsed_namespace_args argv ns :
  existsb mentions_separator argv = false ->
  parse_args py_int py_float parser argv = Some (Parsed ns) ->
  exists args, namespace_args ns = Some args.
Proof.
  intros Hsep. unfold parse_args.
  destruct (existsb (String.eqb "--") argv); [discriminate|].
  destruct (classify parser argv) as [tokens|] eqn:Htokens; [|discriminate].
  intros H. injection H as H.
  apply (consume_all py_int py_float parser no_list_token
           (fun ns => exists args, namespace_args ns = Some args))
    with (tokens := tokens) (ns := initial_namespace parser) (extras := false).
  - apply namespace_args_flag.
  - apply namespace_args_value.
  - intros a type ns0 _ Hact Hno. cbn [no_list_token] in Hno. rewrite Hact in Hno.
    contradiction.
  - apply (classify_declared _ _ _ Htokens).
  - apply (classify_no_list _ _ Hsep Htokens).
  - exists default_args. reflexivity.
  - exact H.
Qed.

Lemma main_of_parsed cuda_is_available argv args :
  parses_to py_int py_float argv args ->
  main py_int py_float cuda_is_available argv =
  Some (inl [train cuda_is_available 0 args (negb (no_cuda args) && cuda_is_available);
             train cuda_is_available 1 args (negb (no_cuda args) && cuda_is_available)]).
Proof.
  intros (ns & Hparse & Hargs). unfold main. rewrite Hparse, Hargs. reflexivity.
Qed.

Lemma parse_args_returns argv :
  existsb (String.eqb "--") argv = false ->
  exists r, parse_args py_int py_float parser argv = Some r.
Proof. intros Hsep. unfold parse_args. rewrite Hsep. eexists. reflexivity. Qed.

Lemma main_exits cuda_is_available argv :
  existsb (String.eqb "--") argv = false ->
  (forall ns, parse_args py_int py_float parser argv <> Some (Parsed ns)) ->
  exists code, main py_int py_float cuda_is_available argv = Some (inr code).
Proof.
  intros Hsep Hrefused. destruct (parse_args_returns argv Hsep) as [[ns|code] Hr].
  - destruct (Hrefused ns Hr).
  - exists code. unfold main. rewrite Hr. reflexivity.
Qed.

Lemma no_separator_token argv :
  existsb mentions_separator argv = false ->
  existsb (String.eqb "--") argv = false.
Proof.
  induction argv as [|s argv IH]; [reflexivity|]. cbn [existsb].
  intros H. apply orb_false_elim in H. destruct H as [Hs Hargv].
  unfold mentions_separator in Hs. apply orb_false_elim in Hs. destruct Hs as [Hs _].
  rewrite (IH Hargv), String.eqb_sym, Hs. reflexivity.
Qed.

(** X10: on a command line that does not mention the separator [--],
    as a token or as the explicit value of one, [main] either leaves
    with the exit code of the parser or starts exactly two workers, of
    ranks 0 and 1, on the same arguments and with the same
    [use_cuda = not args.no_cuda and torch.cuda.is_available()].  The
    namespace of such a command line, when it is accepted, has the
    attributes [main] and [train] read, each of its type. *)
Theorem main_spawns_one_worker_per_rank cuda_is_available argv :
  existsb mentions_separator argv = false ->
  (exists code, main py_int py_float cuda_is_available argv = Some (inr code)) \/
  (exists args,
      parses_to py_int py_float argv args /\
      main py_int py_float cuda_is_available argv =
      Some (inl [train cuda_is_available 0 args
                   (negb (no_cuda args) && cuda_is_available);
                 train cuda_is_available 1 args
                   (negb (no_cuda args) && cuda_is_available)])).
Proof.
  intros Hsep.
  destruct (parse_args_returns argv (no_separator_token argv Hsep)) as [[ns|code] Hr].
  - right. destruct (parsed_namespace_args argv ns Hsep Hr) as [args Hargs].
    assert (Hp : parses_to py_int py_float argv args) by (exists ns; auto).
    exists args. split; [exact Hp | apply main_of_parsed, Hp].
  - left. exists code. unfold main. rewrite Hr. reflexivity.
Qed.

(** An option string is reached: the command line is refused if what
    starts at it is. *)
Lemma refused_from_option argv1 o a argv2 :
  parse_optional parser o = Some (Optional a None) ->
  (forall tokens ns extras ns',
      classify parser argv2 = Some tokens ->
      consume py_int py_float parser ((o, Optional a None) :: tokens) ns extras
      <> Parsed ns') ->
  forall ns, parse_args py_int py_float parser (argv1 ++ o :: argv2) <> Some (Parsed ns).
Proof.
  intros Ho Hrefused ns. unfold parse_args.
  destruct (existsb _ _); [discriminate|].
  rewrite classify_app. cbn [classify]. rewrite Ho.
  destruct (classify parser argv1) as [ts1|] eqn:H1; [|discriminate].
  destruct (classify parser argv2) as [ts2|] eqn:H2; [|discriminate].
  intros H. injection H as H.
  destruct (consume_reaches py_int py_float parser (fun _ => True) (fun _ => True)
              (fun _ _ _ _ _ => I) (fun _ _ _ _ _ _ _ _ _ => I)
              (fun _ _ _ _ _ _ _ => I)
              ts1 ((o, Optional a None) :: ts2) _ _ _
              (classify_declared _ _ _ H1)
              (proj2 (Forall_forall _ _) (fun _ _ => I)) I I H)
    as (ns1 & extras1 & _ & Hend).
  exact (Hrefused ts2 ns1 extras1 ns eq_refl Hend).
Qed.

(** X11: an option that takes a value, followed by a token that its
    [type] ([int] or [float]) does not convert, makes [main] leave with
    an exit code wherever it stands on the command line: no worker is
    started. *)
Theorem invalid_value_is_refused cuda_is_available a o type s argv more :
  In a parser -> In o (option_strings a) -> action a = store type ->
  convert py_int py_float type s = None ->
  existsb (String.eqb "--") (argv ++ o :: s :: more) = false ->
  exists code,
    main py_int py_float cuda_is_available (argv ++ o :: s :: more) = Some (inr code).
Proof.
  intros Ha Ho Hact Hs Hsep. apply main_exits; [exact Hsep|].
  apply (refused_from_option argv o a (s :: more) (option_string_found a o Ha Ho)).
  intros tokens ns extras ns'. cbn [classify].
  destruct (parse_optional parser s) as [t|]; [|discriminate].
  destruct (classify parser more) as [ts|]; [|discriminate].
  intros H. injection H as <-. cbn [consume]. rewrite Hact.
  destruct t; [rewrite Hs | |]; discriminate.
Qed.

(** X12: an option that takes a value and is the last token, or is
    followed by the option string of a declared option, makes [main]
    leave with an exit code: no worker is started. *)
Theorem missing_value_is_refused cuda_is_available a o type argv more :
  In a parser -> In o (option_strings a) -> action a = store type ->
  match more with
  | [] => True
  | s :: _ => exists a', In a' parser /\ In s (option_strings a')
  end ->
  existsb (String.eqb "--") (argv ++ o :: more) = false ->
  exists code,
    main py_int py_float cuda_is_available (argv ++ o :: more) = Some (inr code).
Proof.
  intros Ha Ho Hact Hmore Hsep. apply main_exits; [exact Hsep|].
  apply (refused_from_option argv o a more (option_string_found a o Ha Ho)).
  intros tokens ns extras ns'. destruct more as [|s more]; cbn [classify].
  - intros H. injection H as <-. cbn [consume]. rewrite Hact. discriminate.
  - destruct Hmore as (a' & Ha' & Hs).
    rewrite (option_string_found a' s Ha' Hs).
    destruct (classify parser more) as [ts|]; [|discriminate].
    intros H. injection H as <-. cbn [consume]. rewrite Hact. discriminate.
Qed.

(** X13: [-h] or [--help], anywhere on the command line, makes
    [main] leave with an exit code: no worker is started, whatever the
    other tokens are. *)
Theorem help_starts_no_worker cuda_is_available argv :
  In "-h" argv \/ In "--help" argv ->
  existsb (String.eqb "--") argv = false ->
  exists code, main py_int py_float cuda_is_available argv = Some (inr code).
Proof.
  intros Hhelp Hsep. apply main_exits; [exact Hsep|].
  assert (Hin : exists o, In o argv /\
                  parse_optional parser o =
                  Some (Optional (add_argument ["-h"; "--help"] help "help" None) None)).
  { destruct Hhelp as [H|H]; eexists; (split; [exact H | reflexivity]). }
  destruct Hin as (o & Hin & Ho). apply in_split in Hin.
  destruct Hin as (argv1 & argv2 & ->).
  apply (refused_from_option argv1 o _ argv2 Ho).
  intros tokens ns extras ns' _. cbn [consume action]. discriminate.
Qed.
End Main.

Section NoCuda.
Variable py_int : string -> option Z.
Variable py_float : string -> option Q.

(** No declared argument resets [no_cuda]. *)
Lemma no_cuda_stays_set a v ns :
  In a parser -> (action a = store_true -> v = VBool true) ->
  dict_get "no_cuda" ns = Some (VBool true) ->
  dict_get "no_cuda" (dict_set (dest a) v ns) = Some (VBool true).
Proof.
  intros Ha Hv Hns. rewrite dict_get_set. cbn [In parser] in Ha.
  repeat (destruct Ha as [<-|Ha];
          [ cbn [action dest] in *;
            first [exact Hns | rewrite (Hv eq_refl); reflexivity] | ]).
  contradiction.
Qed.

Lemma no_cuda_flag_sets_no_cuda argv ns :
  In "--no_cuda" argv ->
  parse_args py_int py_float parser argv = Some (Parsed ns) ->
  dict_get "no_cuda" ns = Some (VBool true).
Proof.
  intros Hin. unfold parse_args. destruct (existsb _ argv); [discriminate|].
  destruct (classify parser argv) as [tokens|] eqn:Htokens; [|discriminate].
  intros H. injection H as H.
  pose proof (classify_declared _ _ _ Htokens) as Hdecl.
  destruct (classify_in _ _ _ _ Htokens Hin) as (t & Ht & Hint).
  injection Ht as <-. apply in_split in Hint. destruct Hint as (ts1 & ts2 & ->).
  apply Forall_app in Hdecl. destruct Hdecl as [Hdecl1 Hdecl2].
  inversion Hdecl2 as [|? ? _ Hdecl2']; subst.
  assert (Hany : forall ts : list (string * Token),
             Forall (fun st => (fun _ : Token => True) (snd st)) ts).
  { intros ts. apply Forall_forall. intros; exact I. }
  match type of H with
  | consume _ _ _ (_ ++ ?rest) _ _ = _ =>
      destruct (consume_reaches py_int py_float parser (fun _ => True)
                  (fun _ => True)
                  (fun _ _ _ _ _ => I) (fun _ _ _ _ _ _ _ _ _ => I)
                  (fun _ _ _ _ _ _ _ => I)
                  ts1 rest _ _ _ Hdecl1 (Hany ts1) I I H)
        as (ns1 & extras1 & _ & Hend)
  end.
  cbn [consume action dest] in Hend.
  eapply (consume_all py_int py_float parser (fun _ => True)
            (fun ns => dict_get "no_cuda" ns = Some (VBool true)));
    [ | | | exact Hdecl2' | exact (Hany ts2) | | exact Hend].
  - intros a ns0 Ha Hact. apply no_cuda_stays_set; auto.
  - intros a type s v ns0 Ha Hact _. apply no_cuda_stays_set; [exact Ha|].
    rewrite Hact. discriminate.
  - intros a type ns0 Ha Hact _. apply no_cuda_stays_set; [exact Ha|].
    rewrite Hact. discriminate.
  - cbv beta. rewrite dict_get_set. reflexivity.
Qed.

(** X14: [--no_cuda] anywhere on an accepted command line sets
    [args.no_cuda], whatever else is given and in whatever order (no
    option resets it), and both workers then run with [use_cuda] false,
    also where CUDA is available. *)
Theorem no_cuda_flag_keeps_workers_off_cuda cuda_is_available argv args :
  In "--no_cuda" argv ->
  parses_to py_int py_float argv args ->
  no_cuda args = true /\
  main py_int py_float cuda_is_available argv =
  Some (inl [train cuda_is_available 0 args false;
             train cuda_is_available 1 args false]).
Proof.
  intros Hin Hparsed.
  assert (Hno : no_cuda args = true).
  { destruct Hparsed as (ns & Hparse & Hargs).
    pose proof (no_cuda_flag_sets_no_cuda argv ns Hin Hparse) as Hset.
    apply namespace_args_inv in Hargs.
    destruct Hargs as (_ & _ & _ & _ & _ & Hnc & _).
    rewrite Hset in Hnc. injection Hnc as <-. reflexivity. }
  split; [exact Hno|].
  rewrite (main_of_parsed py_int py_float cuda_is_available argv args Hparsed), Hno.
  reflexivity.
Qed.

(** X16: where CUDA is available, an accepted command line that
    leaves [args.no_cuda] false starts two workers, [train] of ranks 0
    and 1 with [use_cuda] true, of which none gets past [DataLoader],
    under a [DataLoader] that refuses a sampler together with
    [shuffle=True]: however far a worker runs before it ends or is
    stopped, it has not returned, it has made no call of the training
    loop, and its [DataLoader] call, if made, was refused. *)
Theorem main_workers_fail_on_cuda {World}
    (handle : forall X, trainE X -> World -> Reply X * World) argv args :
  honours handle dataloader_contract ->
  parses_to py_int py_float argv args ->
  no_cuda args = false ->
  exists workers,
    main py_int py_float true argv = Some (inl workers) /\
    workers = [train true 0 args true; train true 1 args true] /\
    forall worker,
      In worker workers -> post handle worker stops_at_loader.
Proof.
  intros Hok Hparsed Hno. eexists. split; [apply main_of_parsed, Hparsed|].
  rewrite Hno. split; [reflexivity|].
  intros worker [<-|[<-|[]]]; apply train_cuda_stops_at_loader, Hok.
Qed.

(** X17: with [--no_cuda], or where CUDA is not available, the two
    workers of an accepted command line both return, under a framework
    that raises only for conflicting [DataLoader] arguments and whose
    iterators run dry. *)
Theorem main_workers_return_on_cpu {World}
    (handle : forall X, trainE X -> World -> Reply X * World) (mu : World -> nat)
    cuda_is_available argv args :
  honours handle raises_only_on_conflict ->
  finite_batches handle mu ->
  parses_to py_int py_float argv args ->
  no_cuda args = true \/ cuda_is_available = false ->
  exists workers,
    main py_int py_float cuda_is_available argv = Some (inl workers) /\
    List.length workers = 2%nat /\
    forall worker w,
      In worker workers -> halts handle worker w (fun v _ => v = Ok tt).
Proof.
  intros Hok Hend Hparsed Hcpu. eexists. split; [apply main_of_parsed, Hparsed|].
  assert (Huse : negb (no_cuda args) && cuda_is_available = false).
  { destruct Hcpu as [-> | ->]; [reflexivity | apply andb_false_r]. }
  rewrite Huse. split; [reflexivity|].
  intros worker w [<-|[<-|[]]]; eapply train_cpu_returns; eassumption.
Qed.
End NoCuda.

(** *** [--opt=value] *)

Lemma substring_all s : substring 0 (String.length s) s = s.
Proof. induction s as [|c s IH]; cbn; [reflexivity | rewrite IH; reflexivity]. Qed.

Lemma prefix_nil s : String.prefix "" s = true.
Proof. destruct s; reflexivity. Qed.

Lemma index_separator o s :
  index 0 "=" o = None -> index 0 "=" (o ++ "=" ++ s) = Some (String.length o).
Proof.
  induction o as [|c o IH]; intros Ho.
  - cbn [String.append index String.prefix]. destruct (ascii_dec "=" "="); [|contradiction].
    rewrite prefix_nil. reflexivity.
  - cbn [String.append index String.prefix] in *.
    destruct (ascii_dec "=" c).
    + rewrite prefix_nil in Ho. discriminate Ho.
    + destruct (index 0 "=" o); [discriminate Ho|].
      rewrite IH; reflexivity.
Qed.

Lemma substring_prefix o s : substring 0 (String.length o) (o ++ s) = o.
Proof.
  induction o as [|c o IH]; cbn [String.append String.length substring].
  - destruct s; reflexivity.
  - rewrite IH. reflexivity.
Qed.

Lemma substring_suffix o s :
  substring (S (String.length o)) (String.length (o ++ "=" ++ s) - S (String.length o))
    (o ++ "=" ++ s) = s.
Proof.
  induction o as [|c o IH]; cbn [String.append String.length substring Nat.sub].
  - rewrite Nat.sub_0_r. apply substring_all.
  - exact IH.
Qed.

Lemma split_explicit_append o s :
  index 0 "=" o = None -> split_explicit (o ++ "=" ++ s) = (o, Some s).
Proof.
  intros Ho. unfold split_explicit. rewrite (index_separator o s Ho).
  rewrite substring_prefix, substring_suffix. reflexivity.
Qed.

Lemma explicit_option_found a o type s :
  In a parser -> In o (option_strings a) -> action a = store type ->
  parse_optional parser (o ++ "=" ++ s) = Some (Optional a (Some s)) /\
  String.eqb "--" (o ++ "=" ++ s) = false.
Proof.
  intros Ha Ho Hact. cbn [In parser] in Ha.
  decompose [or] Ha; clear Ha; try contradiction; subst a;
    cbn [action] in Hact; try discriminate Hact;
    cbn [option_strings In] in Ho; destruct Ho as [<-|[]];
    (split; [|reflexivity]).
  all: unfold parse_optional.
  all: rewrite split_explicit_append by reflexivity.
  all: cbn [String.append String.eqb Ascii.eqb Bool.eqb starts_with_dash negb].
  all: match goal with
       | |- match find_option parser ?t with _ => _ end = _ =>
           change (find_option parser t) with (@None Argument)
       end.
  all: cbn [String.length Nat.eqb].
  all: reflexivity.
Qed.

Section ExplicitValue.
Variable py_int : string -> option Z.
Variable py_float : string -> option Q.

(** X15: [--opt=value], after an accepted command line, stores what
    the [type] of the option makes of [value] and leaves the other
    attributes, and is refused if [value] does not convert; [value] is
    any text but the separator [--], also one that starts with a dash
    or holds another [=]. *)
Theorem explicit_value_is_stored a o type s argv ns :
  In a parser -> In o (option_strings a) -> action a = store type ->
  s <> "--"%string ->
  parse_args py_int py_float parser argv = Some (Parsed ns) ->
  parse_args py_int py_float parser (argv ++ [(o ++ "=" ++ s)%string]) =
  Some match convert py_int py_float type s with
       | Some v => Parsed (dict_set (dest a) v ns)
       | None => SystemExit 2
       end.
Proof.
  intros Ha Ho Hact Hsep' Hargv.
  destruct (explicit_option_found a o type s Ha Ho Hact) as [Htoken Hsep].
  rewrite (parse_args_app py_int py_float argv [(o ++ "=" ++ s)%string] ns
             [((o ++ "=" ++ s)%string, Optional a (Some s))] Hargv).
  - cbn [consume]. rewrite Hact.
    destruct (String.eqb_spec s "--") as [Hs|_]; [contradiction|].
    destruct (convert py_int py_float type s); reflexivity.
  - cbn [existsb]. rewrite Hsep. reflexivity.
  - cbn [classify]. rewrite Htoken. reflexivity.
Qed.
End ExplicitValue.

(** ** The further properties at work

    On the small framework, with decimal numerals for [int] and
    [float]. *)

(** [--epochs 0]: the loops are not entered. *)
Lemma train_without_epochs_witness :
  post sim (train false 0 no_epoch_args false) (every outside_the_loops).
Proof.
  apply (train_without_epochs sim false 0 no_epoch_args false).
  simpl. lia.
Defined.

(** One unbatched image of 196 by 196. *)
Lemma forward_accepts_exactly_witness :
  forward Net__init__ [1; 196; 196] = Ok [64; 10] <->
  (exists n h w,
      [1; 196; 196] = [n; 1; h; w] /\ (6 <= h)%Z /\ (6 <= w)%Z /\
      (window_out (h - 4) 2 2 * window_out (w - 4) 2 2 = 144)%Z /\
      [64; 10] = [n; 10]) \/
  (exists h w,
      [1; 196; 196] = [1; h; w] /\ (6 <= h)%Z /\ (6 <= w)%Z /\
      (window_out (h - 4) 2 2 * window_out (w - 4) 2 2 = 9216)%Z /\
      [64; 10] = [64; 10]).
Proof.
  apply (forward_accepts_exactly [1; 196; 196] [64; 10]).
  repeat constructor.
Defined.

(** The empty command line. *)
Lemma main_spawns_one_worker_per_rank_witness :
  (exists code, main decimal_int decimal_float false [] = Some (inr code)) \/
  (exists args,
      parses_to decimal_int decimal_float [] args /\
      main decimal_int decimal_float false [] =
      Some (inl [train false 0 args (negb (no_cuda args) && false);
                 train false 1 args (negb (no_cuda args) && false)])).
Proof.
  apply (main_spawns_one_worker_per_rank decimal_int decimal_float false []).
  reflexivity.
Defined.

(** [--epochs three] *)
Lemma invalid_value_is_refused_witness :
  exists code,
    main decimal_int decimal_float false ([] ++ ["--epochs"; "three"]) =
    Some (inr code).
Proof.
  apply (invalid_value_is_refused decimal_int decimal_float false
           (add_argument ["--epochs"] (store type_int) "epochs" (Some (VInt 14)))
           "--epochs" type_int "three" [] []);
    [declared | declared | reflexivity | reflexivity | reflexivity].
Defined.

(** [--epochs --lr 1]: [--epochs] is left without its value. *)
Lemma missing_value_is_refused_witness :
  exists code,
    main decimal_int decimal_float false ([] ++ ["--epochs"; "--lr"; "1"]) =
    Some (inr code).
Proof.
  apply (missing_value_is_refused decimal_int decimal_float false
           (add_argument ["--epochs"] (store type_int) "epochs" (Some (VInt 14)))
           "--epochs" type_int [] ["--lr"; "1"]);
    [ declared | declared | reflexivity
    | exists (add_argument ["--lr"] (store type_float) "lr" (Some (VFloat 1)));
      split; declared
    | reflexivity ].
Defined.

(** [--epochs 3 -h] *)
Lemma help_starts_no_worker_witness :
  exists code,
    main decimal_int decimal_float false ["--epochs"; "3"; "-h"] = Some (inr code).
Proof.
  apply (help_starts_no_worker decimal_int decimal_float false
           ["--epochs"; "3"; "-h"]);
    [left; declared | reflexivity].
Defined.

(** [--no_cuda] where CUDA is available. *)
Lemma no_cuda_flag_keeps_workers_off_cuda_witness :
  no_cuda no_cuda_args = true /\
  main decimal_int decimal_float true ["--no_cuda"] =
  Some (inl [train true 0 no_cuda_args false; train true 1 no_cuda_args false]).
Proof.
  apply (no_cuda_flag_keeps_workers_off_cuda decimal_int decimal_float true
           ["--no_cuda"] no_cuda_args).
  - declared.
  - eexists. split; reflexivity.
Defined.

(** [--epochs=-3]: the value starts with a dash. *)
Lemma explicit_value_is_stored_witness :
  parse_args decimal_int decimal_float parser ([] ++ ["--epochs=-3"]) =
  Some (Parsed (dict_set "epochs" (VInt (-3)) (initial_namespace parser))).
Proof.
  apply (explicit_value_is_stored decimal_int decimal_float
           (add_argument ["--epochs"] (store type_int) "epochs" (Some (VInt 14)))
           "--epochs" type_int "-3" [] (initial_namespace parser));
    [declared | declared | reflexivity | discriminate | reflexivity].
Defined.

(** The empty command line where CUDA is available. *)
Lemma main_workers_fail_on_cuda_witness :
  exists workers,
    main decimal_int decimal_float true [] = Some (inl workers) /\
    workers = [train true 0 default_args true;
               train true 1 default_args true] /\
    forall worker,
      In worker workers -> post sim worker stops_at_loader.
Proof.
  apply (main_workers_fail_on_cuda decimal_int decimal_float sim [] default_args).
  - exact sim_honours_dataloader_contract.
  - eexists. split; reflexivity.
  - reflexivity.
Defined.

(** [--no_cuda] where CUDA is available. *)
Lemma main_workers_return_on_cpu_witness :
  exists workers,
    main decimal_int decimal_float true ["--no_cuda"] = Some (inl workers) /\
    List.length workers = 2%nat /\
    forall worker w,
      In worker workers -> halts sim worker w (fun v _ => v = Ok tt).
Proof.
  apply (main_workers_return_on_cpu decimal_int decimal_float sim pending true
           ["--no_cuda"] no_cuda_args).
  - exact sim_raises_only_on_conflict.
  - exact sim_finite_batches.
  - eexists. split; reflexivity.
  - left. reflexivity.
Defined.
